(** * LGBPHS: local Gabor binary pattern histogram sequences

    A shallow embedding of [bob/bio/face/extractor/LGBPHS.py]: the
    constructor, the layout assembler [_fill], the sparsifier [_sparsify]
    and the extraction call [__call__], with the Gabor transform, the LBP
    histogram primitive and the numpy scalar functions taken as an
    interface ([Backend]). *)

From Stdlib Require Import ZArith Floats Uint63 Ascii.
From stdpp Require Import base tactics option list strings pretty gmap.

Local Open Scope nat_scope.

(** ** Python values *)

(** numpy.float64 is an IEEE double and numpy.complex128 a pair of them. *)
Abbreviation float64 := PrimFloat.float.
Abbreviation complex128 := (PrimFloat.float * PrimFloat.float)%type.

(** The exceptions the extractor and the numpy operations it uses raise. *)
Inductive exn : Set :=
| AssertionError
| ValueError
| IndexError
| AttributeError
| TypeError.

Inductive result (A : Type) : Type :=
| Ok (a : A)
| Raise (e : exn).
Arguments Ok {A} a.
Arguments Raise {A} e.

#[global] Instance result_ret : MRet result := λ A a, Ok a.
#[global] Instance result_bind : MBind result :=
  λ A B f m, match m with Ok a => f a | Raise e => Raise e end.

(** [for x in l: s = body x s], stopping at the first exception. *)
Fixpoint for_each {A S : Type} (l : list A) (body : A → S → result S) (s : S)
  : result S :=
  match l with
  | [] => Ok s
  | x :: l' => s' ← body x s; for_each l' body s'
  end.

(** [range(n)] *)
Definition range (n : nat) : list nat := seq 0 n.

(** ** Arrays *)

(** Element types an input array may have. *)
Inductive dtype : Set :=
| dt_float64 | dt_float32 | dt_complex128 | dt_int64 | dt_uint8 | dt_bool.

#[global] Instance dtype_eq_dec : EqDecision dtype.
Proof. solve_decision. Defined.

(** The input of the extractor: an ndarray of any rank and element type.
    Its elements are read (by the Gabor transform) only once the array is
    known to be a 2-D float64 one, so they are kept as [im_at row col]. *)
Record ndimage : Type := {
  im_shape : list nat;
  im_dtype : dtype;
  im_at : nat → nat → float64
}.

Definition ndim (image : ndimage) : nat := length (im_shape image).

(** A 2-D array that is only read: a plane of the transform, its absolute
    values or phases, the histograms the LBP primitive returns. *)
Record array2 (A : Type) : Type := {
  a2_rows : nat;
  a2_cols : nat;
  a2_at : nat → nat → A
}.
Arguments a2_rows {A} _.
Arguments a2_cols {A} _.
Arguments a2_at {A} _ _ _.

(** The cached transform: a complex array of shape (planes, height, width). *)
Record trafo : Type := {
  t_planes : nat;
  t_height : nat;
  t_width : nat;
  t_at : nat → nat → nat → complex128
}.

(** The float64 arrays the extractor allocates and writes: 1-D or 2-D,
    contiguous, row-major. *)
Inductive ndarray : Type :=
| Array1 (data : list float64)
| Array2 (rows cols : nat) (data : list float64).

Definition shape (a : ndarray) : list nat :=
  match a with
  | Array1 data => [length data]
  | Array2 rows cols _ => [rows; cols]
  end.

Definition data_of (a : ndarray) : list float64 :=
  match a with
  | Array1 data => data
  | Array2 _ _ data => data
  end.

(** An array holds as many elements as its shape says. *)
Definition well_shaped (a : ndarray) : Prop :=
  match a with
  | Array1 _ => True
  | Array2 rows cols data => length data = rows * cols
  end.

(** [a[p]] of a 1-D array and [a[r, c]] of a 2-D array, for the statements. *)
Definition get1 (a : ndarray) (p : nat) : option float64 :=
  match a with
  | Array1 data => data !! p
  | Array2 _ _ _ => None
  end.

Definition get2 (a : ndarray) (r c : nat) : option float64 :=
  match a with
  | Array1 _ => None
  | Array2 rows cols data =>
      if decide (r < rows ∧ c < cols) then data !! (r * cols + c) else None
  end.

(** [data[lo : lo + len(v)] = v] on the flat storage. *)
Definition splice (data : list float64) (lo : nat) (v : list float64)
  : list float64 :=
  take lo data ++ v ++ drop (lo + length v) data.

(** numpy's copy of a 1-D source [row] into the [hi - lo] elements from
    [lo]: the lengths agree, or the source has one element, which is
    repeated; anything else cannot be broadcast. *)
Definition assign_region (data : list float64) (lo hi : nat)
    (row : list float64) : result (list float64) :=
  if decide (length row = hi - lo) then Ok (splice data lo row)
  else match row with
       | [x] => Ok (splice data lo (replicate (hi - lo) x))
       | _ => Raise ValueError
       end.

(** The bounds of [s:e] (both non-negative) on an axis of length [n]. *)
Definition slice_lo (n s : nat) : nat := s `min` n.
Definition slice_hi (n s e : nat) : nat := slice_lo n s `max` (e `min` n).

(** [a[s:e] = row] *)
Definition setitem_slice (a : ndarray) (s e : nat) (row : list float64)
  : result ndarray :=
  match a with
  | Array1 data =>
      let n := length data in
      d ← assign_region data (slice_lo n s) (slice_hi n s e) row;
      Ok (Array1 d)
  | Array2 rows cols data =>
      (* the selected rows each receive [row] *)
      let lo := slice_lo rows s in
      let hi := slice_hi rows s e in
      if decide (length row = cols) then
        Ok (Array2 rows cols
              (splice data (lo * cols) (mjoin (replicate (hi - lo) row))))
      else match row with
           | [x] => Ok (Array2 rows cols
                          (splice data (lo * cols)
                                  (replicate ((hi - lo) * cols) x)))
           | _ => Raise ValueError
           end
  end.

(** [a[r, s:e] = row] *)
Definition setitem_row_slice (a : ndarray) (r s e : nat) (row : list float64)
  : result ndarray :=
  match a with
  | Array1 _ => Raise IndexError
  | Array2 rows cols data =>
      if decide (r < rows) then
        d ← assign_region data (r * cols + slice_lo cols s)
                               (r * cols + slice_hi cols s e) row;
        Ok (Array2 rows cols d)
      else Raise IndexError
  end.

(** [blocks[b][:]] *)
Definition getrow (blocks : array2 float64) (b : nat) : result (list float64) :=
  if decide (b < a2_rows blocks) then
    Ok (a2_at blocks b <$> range (a2_cols blocks))
  else Raise IndexError.

(** ** The objects of the image-processing libraries *)

(** bob.ip.gabor.Transform, as constructed: it keeps its parameters. *)
Record Transform : Type := {
  number_of_scales : nat;
  number_of_directions : nat;
  sigma : float64;
  k_max : float64;
  k_fac : float64;
  power_of_k : float64;
  dc_free : bool
}.

(** Modelled from the spec: bob.ip.gabor is not part of the sources; the
    number of wavelets of a transform is scales times directions. *)
Definition number_of_wavelets (g : Transform) : nat :=
  number_of_scales g * number_of_directions g.

(** bob.ip.base.LBP, as constructed. *)
Record LBP : Type := {
  neighbors : nat;
  radius : float64;
  circular : bool;
  to_average : bool;
  add_average_bit : bool;
  uniform : bool;
  rotation_invariant : bool;
  border_handling : string
}.

(** What the extractor calls and does not define: the Gabor transform, the
    block-wise LBP histograms, numpy's elementwise absolute value and
    angle, and the content of freshly allocated (uninitialised) memory. *)
Class Backend : Type := {
  (** the value [gwt.transform(image, out)] writes to [out[j, y, x]] *)
  gwt_response : Transform → ndimage → nat → nat → nat → complex128;
  (** numpy.abs and numpy.angle on one complex number *)
  complex_abs : complex128 → float64;
  complex_angle : complex128 → float64;
  (** bob.ip.base.lbphs(plane, lbp, block_size, block_overlap), one row per
      block, the entries as they are stored into the float64 output *)
  lbphs : array2 float64 → LBP → list Z → list Z → array2 float64;
  (** what numpy.ndarray(shape) finds in memory *)
  uninitialized : nat → float64;
  uninitialized_complex : nat → nat → nat → complex128
}.

Definition numpy_abs `{Backend} (plane : array2 complex128) : array2 float64 :=
  {| a2_rows := a2_rows plane; a2_cols := a2_cols plane;
     a2_at := λ y x, complex_abs (a2_at plane y x) |}.

Definition numpy_angle `{Backend} (plane : array2 complex128) : array2 float64 :=
  {| a2_rows := a2_rows plane; a2_cols := a2_cols plane;
     a2_at := λ y x, complex_angle (a2_at plane y x) |}.

(** [numpy.ndarray(shape, 'float64')] for a 1-tuple and a 2-tuple. *)
Inductive shape_arg : Set :=
| Shape1 (n : nat)
| Shape2 (rows cols : nat).

Definition numpy_ndarray `{Backend} (sh : shape_arg) : ndarray :=
  match sh with
  | Shape1 n => Array1 (uninitialized <$> range n)
  | Shape2 rows cols => Array2 rows cols (uninitialized <$> range (rows * cols))
  end.

(** ** The extractor instance *)

Record LGBPHS : Type := {
  block_size : list Z;
  block_overlap : list Z;
  gwt : Transform;
  trafo_image : option trafo;
  use_phases : bool;
  lbp : LBP;
  split : option string;
  sparse : bool;
  (* set by the first call *)
  n_bins : option nat;
  n_blocks : option nat
}.

Definition set_trafo_image (t : option trafo) (self : LGBPHS) : LGBPHS :=
  {| block_size := block_size self; block_overlap := block_overlap self;
     gwt := gwt self; trafo_image := t; use_phases := use_phases self;
     lbp := lbp self; split := split self; sparse := sparse self;
     n_bins := n_bins self; n_blocks := n_blocks self |}.

Definition set_n_bins (v : nat) (self : LGBPHS) : LGBPHS :=
  {| block_size := block_size self; block_overlap := block_overlap self;
     gwt := gwt self; trafo_image := trafo_image self;
     use_phases := use_phases self; lbp := lbp self; split := split self;
     sparse := sparse self; n_bins := Some v; n_blocks := n_blocks self |}.

Definition set_n_blocks (v : nat) (self : LGBPHS) : LGBPHS :=
  {| block_size := block_size self; block_overlap := block_overlap self;
     gwt := gwt self; trafo_image := trafo_image self;
     use_phases := use_phases self; lbp := lbp self; split := split self;
     sparse := sparse self; n_bins := n_bins self; n_blocks := Some v |}.

(** Reading an attribute that may not have been set yet. *)
Definition attr {A : Type} (field : option A) : result A :=
  match field with
  | Some v => Ok v
  | None => Raise AttributeError
  end.

(** ** Construction *)

(** "one or two parameters": an integer, or a tuple or list of integers. *)
Inductive size_arg : Set :=
| IntArg (v : Z)
| SeqArg (l : list Z).

(** The keyword arguments, grouped as the signature groups them. *)
Record gabor_args : Type := {
  gabor_directions : nat;
  gabor_scales : nat;
  gabor_sigma : float64;
  gabor_maximum_frequency : float64;
  gabor_frequency_step : float64;
  gabor_power_of_k : float64;
  gabor_dc_free : bool;
  use_gabor_phases : bool
}.

Record lbp_args : Type := {
  lbp_radius : float64;
  lbp_neighbor_count : nat;
  lbp_uniform : bool;
  lbp_circular : bool;
  lbp_rotation_invariant : bool;
  lbp_compare_to_average : bool;
  lbp_add_average : bool
}.

Record init_args : Type := {
  arg_block_size : size_arg;
  arg_block_overlap : size_arg;
  gabor : gabor_args;
  lbp_options : lbp_args;
  sparse_histogram : bool;
  split_histogram : option string
}.

(** The keyword defaults of [__init__]; [block_size] has none. *)
Definition default_gabor : gabor_args :=
  {| gabor_directions := 8;
     gabor_scales := 5;
     gabor_sigma := 0x1.921fb54442d18p+2%float;             (* 2 * pi *)
     gabor_maximum_frequency := 0x1.921fb54442d18p+0%float; (* pi / 2 *)
     gabor_frequency_step := 0x1.6a09e667f3bcdp-1%float;    (* sqrt(.5) *)
     gabor_power_of_k := 0%float;
     gabor_dc_free := true;
     use_gabor_phases := false |}.

Definition default_lbp : lbp_args :=
  {| lbp_radius := 2%float;
     lbp_neighbor_count := 8;
     lbp_uniform := true;
     lbp_circular := true;
     lbp_rotation_invariant := false;
     lbp_compare_to_average := false;
     lbp_add_average := false |}.

Definition default_args (bs : size_arg) : init_args :=
  {| arg_block_size := bs;
     arg_block_overlap := IntArg 0;
     gabor := default_gabor;
     lbp_options := default_lbp;
     sparse_histogram := false;
     split_histogram := None |}.

(** [x if isinstance(x, (tuple, list)) else (x, x)] *)
Definition as_pair (x : size_arg) : list Z :=
  match x with
  | IntArg v => [v; v]
  | SeqArg l => l
  end.

(** [l[i]] on a tuple or list *)
Definition item (l : list Z) (i : nat) : result Z :=
  match l !! i with
  | Some v => Ok v
  | None => Raise IndexError
  end.

(** The truth value of [split]: None and the empty string are false. *)
Definition truthy (s : option string) : bool :=
  match s with
  | None => false
  | Some s => negb (String.eqb s "")
  end.

(** [__init__]. The constructor of the base class only records the
    arguments, and [lbp_radius] is given as the float it is converted to. *)
Definition __init__ (a : init_args) : result LGBPHS :=
  let block_size := as_pair (arg_block_size a) in
  let block_overlap := as_pair (arg_block_overlap a) in
  size0 ← item block_size 0;
  overlap0 ← item block_overlap 0;
  too_big ← (if (size0 <? overlap0)%Z then Ok true
             else size1 ← item block_size 1;
                  overlap1 ← item block_overlap 1;
                  Ok (size1 <? overlap1)%Z);
  if too_big : bool then Raise ValueError
  else
    let gwt :=
      {| number_of_scales := gabor_scales (gabor a);
         number_of_directions := gabor_directions (gabor a);
         sigma := gabor_sigma (gabor a);
         k_max := gabor_maximum_frequency (gabor a);
         k_fac := gabor_frequency_step (gabor a);
         power_of_k := gabor_power_of_k (gabor a);
         dc_free := gabor_dc_free (gabor a) |} in
    let lbp :=
      {| neighbors := lbp_neighbor_count (lbp_options a);
         radius := lbp_radius (lbp_options a);
         circular := lbp_circular (lbp_options a);
         to_average := lbp_compare_to_average (lbp_options a);
         add_average_bit := lbp_add_average (lbp_options a);
         uniform := lbp_uniform (lbp_options a);
         rotation_invariant := lbp_rotation_invariant (lbp_options a);
         border_handling := "wrap" |} in
    if sparse_histogram a && truthy (split_histogram a) then Raise ValueError
    else
      Ok {| block_size := block_size; block_overlap := block_overlap;
            gwt := gwt; trafo_image := None;
            use_phases := use_gabor_phases (gabor a); lbp := lbp;
            split := split_histogram a; sparse := sparse_histogram a;
            n_bins := None; n_blocks := None |}.

(** ** Layout assembly *)

(** [_fill(self, lgbphs_array, lgbphs_blocks, j)]: copies the histograms of
    one pass into the array, at the place the split mode gives them. *)
Definition _fill (self : LGBPHS) (lgbphs_array : ndarray)
    (lgbphs_blocks : array2 float64) (j : nat) : result ndarray :=
  match split self with
  | None =>
      bins ← attr (n_bins self);
      blocks ← attr (n_blocks self);
      let start := j * bins * blocks in
      for_each (range blocks) (λ b array,
        row ← getrow lgbphs_blocks b;
        setitem_slice array (start + b * bins) (start + (b + 1) * bins) row)
        lgbphs_array
  | Some mode =>
      if String.eqb mode "blocks" then
        blocks ← attr (n_blocks self);
        for_each (range blocks) (λ b array,
          row ← getrow lgbphs_blocks b;
          bins ← attr (n_bins self);
          setitem_row_slice array b (j * bins) ((j + 1) * bins) row)
          lgbphs_array
      else if String.eqb mode "wavelets" then
        blocks ← attr (n_blocks self);
        for_each (range blocks) (λ b array,
          row ← getrow lgbphs_blocks b;
          bins ← attr (n_bins self);
          setitem_row_slice array j (b * bins) ((b + 1) * bins) row)
          lgbphs_array
      else if String.eqb mode "both" then
        blocks ← attr (n_blocks self);
        for_each (range blocks) (λ b array,
          row ← getrow lgbphs_blocks b;
          blocks' ← attr (n_blocks self);
          bins ← attr (n_bins self);
          setitem_row_slice array (j * blocks' + b) 0 bins row)
          lgbphs_array
      else Ok lgbphs_array
  end.

(** ** Sparsification *)

(** [array[i] != 0.]: IEEE comparison, so -0. is zero and a NaN is not. *)
Definition nonzero (x : float64) : bool := negb (PrimFloat.eqb x 0%float).

(** The float64 an index becomes in [numpy.array(..., dtype = float64)]. *)
Definition float_of_index (i : nat) : float64 :=
  PrimFloat.of_uint63 (Uint63.of_Z (Z.of_nat i)).

(** [numpy.array([indices, values], dtype = numpy.float64)] *)
Definition numpy_array_2 (indices : list nat) (values : list float64)
  : result ndarray :=
  if decide (length indices = length values) then
    Ok (Array2 2 (length indices) ((float_of_index <$> indices) ++ values))
  else Raise ValueError.

(** One round of the loop of [_sparsify]. *)
Definition sparsify_step (data : list float64) (i : nat)
    (acc : list nat * list float64) : result (list nat * list float64) :=
  match data !! i with
  | None => Raise IndexError
  | Some x =>
      if nonzero x then Ok (acc.1 ++ [i], acc.2 ++ [x]) else Ok acc
  end.

(** [_sparsify(self, array)]; [array] is None when no plane was processed. *)
Definition _sparsify (self : LGBPHS) (array : option ndarray)
  : result (option ndarray) :=
  if negb (sparse self) then Ok array
  else
    match array with
    | None => Raise AttributeError
    | Some (Array2 2 cols data) => Ok array
    | Some (Array2 _ _ _) => Raise AssertionError
    | Some (Array1 data) =>
        '(indices, values) ←
          for_each (range (length data)) (sparsify_step data) ([], []);
        sparse_array ← numpy_array_2 indices values;
        Ok (Some sparse_array)
    end.

(** ** The extraction call *)

(** Computations on the instance: they read and update [self] and may
    raise; the instance an exception leaves behind is kept. *)
Definition M (A : Type) : Type := LGBPHS → LGBPHS * result A.

#[global] Instance M_ret : MRet M := λ A a self, (self, Ok a).
#[global] Instance M_bind : MBind M :=
  λ A B f m self,
    match m self with
    | (self', Ok a) => f a self'
    | (self', Raise e) => (self', Raise e)
    end.

Definition get_self : M LGBPHS := λ self, (self, Ok self).
Definition update (f : LGBPHS → LGBPHS) : M unit := λ self, (f self, Ok tt).
Definition lift {A : Type} (r : result A) : M A := λ self, (self, r).
Definition assert (b : bool) : M unit :=
  lift (if b then Ok tt else Raise AssertionError).

Fixpoint for_each_M {A S : Type} (l : list A) (body : A → S → M S) (s : S)
  : M S :=
  match l with
  | [] => mret s
  | x :: l' => s' ← body x s; for_each_M l' body s'
  end.

(** [self.trafo_image[j]] *)
Definition trafo_plane (self : LGBPHS) (j : nat) : result (array2 complex128) :=
  match trafo_image self with
  | None => Raise TypeError
  | Some t =>
      if decide (j < t_planes t) then
        Ok {| a2_rows := t_height t; a2_cols := t_width t; a2_at := t_at t j |}
      else Raise IndexError
  end.

(** [self.gwt.transform(image, self.trafo_image)]: overwrites the buffer. *)
Definition transform `{Backend} (image : ndimage) : M unit :=
  self ← get_self;
  match trafo_image self with
  | None => lift (Raise TypeError)
  | Some t =>
      update (set_trafo_image
                (Some {| t_planes := t_planes t; t_height := t_height t;
                         t_width := t_width t;
                         t_at := gwt_response (gwt self) image |}))
  end.

Definition jet_length (self : LGBPHS) : nat :=
  number_of_wavelets (gwt self) * (if use_phases self then 2 else 1).

(** The shape the split mode asks for. *)
Definition output_shape (self : LGBPHS) (jet_length : nat) : result shape_arg :=
  match split self with
  | None =>
      blocks ← attr (n_blocks self); bins ← attr (n_bins self);
      Ok (Shape1 (blocks * bins * jet_length))
  | Some mode =>
      if String.eqb mode "blocks" then
        blocks ← attr (n_blocks self); bins ← attr (n_bins self);
        Ok (Shape2 blocks (bins * jet_length))
      else if String.eqb mode "wavelets" then
        bins ← attr (n_bins self); blocks ← attr (n_blocks self);
        Ok (Shape2 jet_length (bins * blocks))
      else if String.eqb mode "both" then
        blocks ← attr (n_blocks self); bins ← attr (n_bins self);
        Ok (Shape2 (jet_length * blocks) bins)
      else Raise ValueError
  end.

(** Ghost: which pass wrote, in the order of the calls of [_fill]. *)
Inductive pass : Set :=
| Magnitude (j : nat)
| Phase (j : nat).

(** The body of the loop over the planes. The locals are [lgbphs_array]
    and, as a ghost, the passes made so far. *)
Definition plane_body `{Backend} (jet_length : nat) (j : nat)
    (locals : option ndarray * list pass) : M (option ndarray * list pass) :=
  let '(lgbphs_array, passes) := locals in
  self ← get_self;
  plane ← lift (trafo_plane self j);
  let abs_image := numpy_abs plane in
  let abs_blocks :=
    lbphs abs_image (lbp self) (block_size self) (block_overlap self) in
  update (set_n_bins (a2_cols abs_blocks));;
  update (set_n_blocks (a2_rows abs_blocks));;
  self ← get_self;
  sh ← lift (output_shape self jet_length);
  let lgbphs_array :=
    match lgbphs_array with
    | None => numpy_ndarray sh
    | Some array => array
    end in
  lgbphs_array ← lift (_fill self lgbphs_array abs_blocks j);
  let passes := passes ++ [Magnitude j] in
  if use_phases self then
    plane ← lift (trafo_plane self j);
    let phase_image := numpy_angle plane in
    let phase_blocks :=
      lbphs phase_image (lbp self) (block_size self) (block_overlap self) in
    lgbphs_array ←
      lift (_fill self lgbphs_array phase_blocks
                  (j + number_of_wavelets (gwt self)));
    mret (Some lgbphs_array, passes ++ [Phase j])
  else mret (Some lgbphs_array, passes).

(** [self.trafo_image is None or self.trafo_image.shape[1:3] != image.shape] *)
Definition needs_buffer (self : LGBPHS) (image : ndimage) : bool :=
  match trafo_image self with
  | None => true
  | Some t => bool_decide ([t_height t; t_width t] ≠ im_shape image)
  end.

(** Everything of [__call__] up to the final sparsification. *)
Definition assemble `{Backend} (image : ndimage)
  : M (option ndarray * list pass) :=
  assert (bool_decide (ndim image = 2));;
  (* isinstance(image, numpy.ndarray) holds of every [ndimage] *)
  assert (bool_decide (im_dtype image = dt_float64));;
  self ← get_self;
  (if needs_buffer self image then
     update (set_trafo_image
               (Some {| t_planes := number_of_wavelets (gwt self);
                        t_height := im_shape image !!! 0;
                        t_width := im_shape image !!! 1;
                        t_at := uninitialized_complex |}))
   else mret tt);;
  transform image;;
  self ← get_self;
  for_each_M (range (number_of_wavelets (gwt self)))
             (plane_body (jet_length self)) (None, []).

Definition __call__ `{Backend} (image : ndimage) : M (option ndarray) :=
  '(lgbphs_array, _) ← assemble image;
  self ← get_self;
  lift (_sparsify self lgbphs_array).

(** ** The layouts of the specification *)

(** The four split modes the extractor knows. *)
Inductive layout : Set :=
| Flat
| ByBlocks
| ByWavelets
| ByBoth.

Definition split_of (l : layout) : option string :=
  match l with
  | Flat => None
  | ByBlocks => Some "blocks"
  | ByWavelets => Some "wavelets"
  | ByBoth => Some "both"
  end.

(** Specification: the shape of the output for a layout. *)
Definition spec_shape (l : layout) (blocks bins jet : nat) : list nat :=
  match l with
  | Flat => [blocks * bins * jet]
  | ByBlocks => [blocks; bins * jet]
  | ByWavelets => [jet; bins * blocks]
  | ByBoth => [jet * blocks; bins]
  end.

(** Specification: where bin [k] of block [b] of pass [j] is stored. *)
Definition spec_index (l : layout) (blocks bins j b k : nat) : list nat :=
  match l with
  | Flat => [j * bins * blocks + b * bins + k]
  | ByBlocks => [b; j * bins + k]
  | ByWavelets => [j; b * bins + k]
  | ByBoth => [j * blocks + b; k]
  end.

(** [a[index]] for an index tuple. *)
Definition get (a : ndarray) (index : list nat) : option float64 :=
  match index with
  | [p] => get1 a p
  | [r; c] => get2 a r c
  | _ => None
  end.

(** ** The quantities of one call *)

Section Call.
Context `{Backend} (self : LGBPHS) (image : ndimage).

(** The transform buffer once [gwt.transform] has written it. *)
Definition response : trafo :=
  {| t_planes := number_of_wavelets (gwt self);
     t_height := im_shape image !!! 0;
     t_width := im_shape image !!! 1;
     t_at := gwt_response (gwt self) image |}.

Definition response_plane (j : nat) : array2 complex128 :=
  {| a2_rows := t_height response; a2_cols := t_width response;
     a2_at := t_at response j |}.

(** [abs_blocks] and [phase_blocks] of plane [j]. *)
Definition magnitude_blocks (j : nat) : array2 float64 :=
  lbphs (numpy_abs (response_plane j)) (lbp self)
        (block_size self) (block_overlap self).

Definition phase_blocks (j : nat) : array2 float64 :=
  lbphs (numpy_angle (response_plane j)) (lbp self)
        (block_size self) (block_overlap self).

(** The histograms pass [slot] of the jet stores: magnitudes first, then
    the phases. *)
Definition pass_blocks (slot : nat) : array2 float64 :=
  if decide (slot < number_of_wavelets (gwt self)) then magnitude_blocks slot
  else phase_blocks (slot - number_of_wavelets (gwt self)).

(** The contract of the histogram primitive: every plane, and both passes,
    give [blocks] histograms of [bins] bins. *)
Definition histograms_agree (blocks bins : nat) : Prop :=
  ∀ j, j < number_of_wavelets (gwt self) →
    a2_rows (magnitude_blocks j) = blocks ∧
    a2_cols (magnitude_blocks j) = bins ∧
    (use_phases self = true →
     a2_rows (phase_blocks j) = blocks ∧ a2_cols (phase_blocks j) = bins).

(** The instance a call leaves behind once a plane has been processed. *)
Definition after_call (blocks bins : nat) : LGBPHS :=
  set_n_blocks blocks (set_n_bins bins (set_trafo_image (Some response) self)).

End Call.

(** The cached buffer of an instance has one plane per wavelet. *)
Definition cache_ok (self : LGBPHS) : Prop :=
  ∀ t, trafo_image self = Some t → t_planes t = number_of_wavelets (gwt self).

(** A 2-D float64 array, as [__call__] asserts. *)
Definition valid_image (image : ndimage) : Prop :=
  ndim image = 2 ∧ im_dtype image = dt_float64.

(** Replacing constructor arguments. *)
Definition with_block_size (x : size_arg) (a : init_args) : init_args :=
  {| arg_block_size := x; arg_block_overlap := arg_block_overlap a;
     gabor := gabor a; lbp_options := lbp_options a;
     sparse_histogram := sparse_histogram a;
     split_histogram := split_histogram a |}.

Definition with_block_overlap (x : size_arg) (a : init_args) : init_args :=
  {| arg_block_size := arg_block_size a; arg_block_overlap := x;
     gabor := gabor a; lbp_options := lbp_options a;
     sparse_histogram := sparse_histogram a;
     split_histogram := split_histogram a |}.

Definition with_histogram (sparse : bool) (sp : option string)
    (a : init_args) : init_args :=
  {| arg_block_size := arg_block_size a;
     arg_block_overlap := arg_block_overlap a;
     gabor := gabor a; lbp_options := lbp_options a;
     sparse_histogram := sparse; split_histogram := sp |}.

Definition with_gabor (g : gabor_args) (a : init_args) : init_args :=
  {| arg_block_size := arg_block_size a;
     arg_block_overlap := arg_block_overlap a;
     gabor := g; lbp_options := lbp_options a;
     sparse_histogram := sparse_histogram a;
     split_histogram := split_histogram a |}.

(** ** One pass on the flat storage *)

(** Replacing the storage of an array, its shape kept. *)
Definition set_data (a : ndarray) (d : list float64) : ndarray :=
  match a with
  | Array1 _ => Array1 d
  | Array2 rows cols _ => Array2 rows cols d
  end.

(** The histogram of block [b] as [_fill] reads it. *)
Definition block_row (blocks : array2 float64) (b : nat) : list float64 :=
  a2_at blocks b <$> range (a2_cols blocks).

(** The offset in the storage at which a pass writes block [b]. *)
Definition flat_offset (l : layout) (blocks bins jet j b : nat) : nat :=
  match l with
  | Flat => j * bins * blocks + b * bins
  | ByBlocks => b * (bins * jet) + j * bins
  | ByWavelets => j * (bins * blocks) + b * bins
  | ByBoth => (j * blocks + b) * bins + 0
  end.

(** Writing the rows of blocks 0 .. n-1 at their offsets, in this order. *)
Definition write_block (off : nat → nat) (row : nat → list float64)
    (d : list float64) (b : nat) : list float64 :=
  splice d (off b) (row b).

Definition write_blocks (off : nat → nat) (row : nat → list float64)
    (n : nat) (d : list float64) : list float64 :=
  foldl (write_block off row) d (range n).

(** The position in the storage of a valid index. *)
Definition position (sh index : list nat) : option nat :=
  match sh, index with
  | [n], [p] => if decide (p < n) then Some p else None
  | [rows; cols], [r; c] =>
      if decide (r < rows ∧ c < cols) then Some (r * cols + c) else None
  | _, _ => None
  end.


(** Setting both counts of an instance at once, for the statements. *)
Definition set_counts (bins blocks : option nat) (self : LGBPHS) : LGBPHS :=
  {| block_size := block_size self; block_overlap := block_overlap self;
     gwt := gwt self; trafo_image := trafo_image self;
     use_phases := use_phases self; lbp := lbp self; split := split self;
     sparse := sparse self; n_bins := bins; n_blocks := blocks |}.

(** The passes made for plane [j], in the order they are made. *)
Definition passes_of (self : LGBPHS) (j : nat) : list pass :=
  Magnitude j :: (if use_phases self then [Phase j] else []).

Section Instances.
Context `{Backend} (self : LGBPHS) (image : ndimage).

(** The instance once the transform has been stored, with any counts. *)
Definition primed (bins blocks : option nat) : LGBPHS :=
  set_counts bins blocks (set_trafo_image (Some (response self image)) self).

(** The instance once plane [j] has been processed, or has raised. *)
Definition counted (j : nat) : LGBPHS :=
  primed (Some (a2_cols (magnitude_blocks self image j)))
         (Some (a2_rows (magnitude_blocks self image j))).

End Instances.

(** The invariant the constructor establishes on the output options. *)
Definition options_ok (self : LGBPHS) : Prop :=
  sparse self && truthy (split self) = false.

(** What holds of the array all along a call: it has the shape of the
    layout and the storage to go with it. *)
Definition in_layout (l : layout) (blocks bins jet : nat) (a : ndarray) : Prop :=
  shape a = spec_shape l blocks bins jet ∧ well_shaped a.

(** Which passes of the jet have been written after [n] planes. *)
Definition written (self : LGBPHS) (n slot : nat) : Prop :=
  slot < n ∨
  (use_phases self = true ∧
   number_of_wavelets (gwt self) ≤ slot < number_of_wavelets (gwt self) + n).

(** ** Backends and inputs for the examples *)

(** A backend whose histograms have [blocks_of plane] rows of [bins] bins;
    the response of wavelet [j] has real part [j] and the pixel as
    imaginary part, and [abs] and [angle] are the two projections. *)
Definition toy_backend (blocks_of : array2 float64 → nat) (bins : nat)
  : Backend :=
  {| gwt_response := λ _ image j y x, (float_of_index j, im_at image y x);
     complex_abs := fst;
     complex_angle := snd;
     lbphs := λ plane _ _ _,
       {| a2_rows := blocks_of plane; a2_cols := bins;
          a2_at := λ b k,
            (a2_at plane 0 0 * 100 + float_of_index (10 * b + k) + 1)%float |};
     uninitialized := λ _, (-1)%float;
     uninitialized_complex := λ _ _ _, ((-1)%float, (-1)%float) |}.

(** One block per 2 x 2 tile of the plane, three bins each. *)
Definition tiles_backend : Backend :=
  toy_backend (λ plane, (a2_rows plane / 2) * (a2_cols plane / 2)) 3.

(** A backend that breaks the contract of the histogram primitive: plane 0
    has two blocks and every other plane has one. *)
Definition uneven_backend : Backend :=
  toy_backend (λ plane, if PrimFloat.eqb (a2_at plane 0 0) 0 then 2 else 1) 1.

Definition example_image : ndimage :=
  {| im_shape := [4; 4]; im_dtype := dt_float64; im_at := λ _ _, 7%float |}.

Definition empty_image : ndimage :=
  {| im_shape := [0; 0]; im_dtype := dt_float64; im_at := λ _ _, 0%float |}.

Definition int_image : ndimage :=
  {| im_shape := [4; 4]; im_dtype := dt_uint8; im_at := λ _ _, 7%float |}.

(** One scale and two directions: two wavelets. *)
Definition example_gabor (phases : bool) : gabor_args :=
  {| gabor_directions := 2;
     gabor_scales := 1;
     gabor_sigma := gabor_sigma default_gabor;
     gabor_maximum_frequency := gabor_maximum_frequency default_gabor;
     gabor_frequency_step := gabor_frequency_step default_gabor;
     gabor_power_of_k := gabor_power_of_k default_gabor;
     gabor_dc_free := gabor_dc_free default_gabor;
     use_gabor_phases := phases |}.

(** The arguments of LGBPHS(2, gabor_scales = 1, gabor_directions = 2,
    use_gabor_phases = phases, sparse_histogram = sparse,
    split_histogram = sp), and the instance they construct. *)
Definition example_args (sp : option string) (sparse phases : bool) : init_args :=
  with_histogram sparse sp
    (with_gabor (example_gabor phases) (default_args (IntArg 2))).

Definition example_instance (sp : option string) (sparse phases : bool)
  : LGBPHS :=
  {| block_size := [2; 2]%Z; block_overlap := [0; 0]%Z;
     gwt := {| number_of_scales := 1; number_of_directions := 2;
               sigma := 0x1.921fb54442d18p+2%float;
               k_max := 0x1.921fb54442d18p+0%float;
               k_fac := 0x1.6a09e667f3bcdp-1%float;
               power_of_k := 0%float; dc_free := true |};
     trafo_image := None; use_phases := phases;
     lbp := {| neighbors := 8; radius := 2%float; circular := true;
               to_average := false; add_average_bit := false;
               uniform := true; rotation_invariant := false;
               border_handling := "wrap" |};
     split := sp; sparse := sparse; n_bins := None; n_blocks := None |}.

Definition example_blocks : array2 float64 :=
  {| a2_rows := 2; a2_cols := 3;
     a2_at := λ b k, float_of_index (10 * b + k) |}.
(** ** Further notions for the statements *)

(** What a slice assignment keeps of the array it is made on. *)
Definition same_extent (a a' : ndarray) : Prop :=
  shape a' = shape a ∧ (well_shaped a → well_shaped a').

(** The assignment one round of a pass makes, whatever the row. *)
Definition store (l : layout) (nb bins j b : nat) (a : ndarray)
    (row : list float64) : result ndarray :=
  match l with
  | Flat =>
      setitem_slice a (j * bins * nb + b * bins)
                    (j * bins * nb + (b + 1) * bins) row
  | ByBlocks => setitem_row_slice a b (j * bins) ((j + 1) * bins) row
  | ByWavelets => setitem_row_slice a j (b * bins) ((b + 1) * bins) row
  | ByBoth => setitem_row_slice a (j * nb + b) 0 bins row
  end.

(** ** Further inputs for the examples *)

(** The example instance once a pass has set the counts to two blocks of
    three bins. *)
Definition example_counted (sp : option string) : LGBPHS :=
  set_n_blocks 2 (set_n_bins 3 (example_instance sp false true)).

(** Histograms like [example_blocks] with one block only, with five
    blocks, with four bins and with one bin. *)
Definition histograms (rows cols : nat) : array2 float64 :=
  {| a2_rows := rows; a2_cols := cols;
     a2_at := λ b k, float_of_index (10 * b + k) |}.

(** An instance whose transform has no wavelet. *)
Definition example_without_wavelets (sparse : bool) : LGBPHS :=
  {| block_size := [2; 2]%Z; block_overlap := [0; 0]%Z;
     gwt := {| number_of_scales := 0; number_of_directions := 8;
               sigma := 0x1.921fb54442d18p+2%float;
               k_max := 0x1.921fb54442d18p+0%float;
               k_fac := 0x1.6a09e667f3bcdp-1%float;
               power_of_k := 0%float; dc_free := true |};
     trafo_image := None; use_phases := false;
     lbp := {| neighbors := 8; radius := 2%float; circular := true;
               to_average := false; add_average_bit := false;
               uniform := true; rotation_invariant := false;
               border_handling := "wrap" |};
     split := None; sparse := sparse; n_bins := None; n_blocks := None |}.

(** * The baselines script

    A shallow embedding of [bob/bio/face/script/baselines.py]: the list of
    the algorithms, their configurations and [main], which runs the
    verification program of each algorithm or evaluates their results.
    The parser of the command line, the logger's formatting of a command,
    the programs run and the file system are taken as an interface
    ([System]). *)

Module Baselines.

(** ** What the script raises, logs and runs *)

(** The exceptions of [main]: the key error of a dictionary, the IOError
    of a result directory that is not found (its message names the
    directory), and whatever a function of another module raises. *)
Inductive exception : Type :=
| KeyError (key : string)
| IOError (directory : string)
| Foreign (name : string).

Inductive outcome (A : Type) : Type :=
| Done (a : A)
| Raised (e : exception).
Arguments Done {A} a.
Arguments Raised {A} e.

(** A command is the list given to [subprocess.call]; the preprocessor of
    a configuration can be None. *)
Definition command : Type := list (option string).

(** A message of the logger, with the format and its arguments, or a call
    of a program. *)
Inductive event : Type :=
| LogInfo (format : string) (arguments : list string)
| LogWarn (format : string) (arguments : list string)
| Call (cmd : command).

(** What the script calls and does not define: the formatting of a command
    for the log, the run of a program, and the files and the environment
    it asks for. A run changes the world; the questions do not. *)
Class System : Type := {
  world : Type;
  (** bob.bio.base.tools.command_line *)
  command_line : command → outcome string;
  (** subprocess.call, with its return code *)
  subprocess_call : command → world → world * outcome Z;
  (** os.path.isdir, os.path.exists, os.listdir, os.environ *)
  isdir : string → world → bool;
  exists_ : string → world → bool;
  listdir : string → world → outcome (list string);
  environ : string → world → option string;
  (** bob.bio.base.load_resource(database, 'database').protocol *)
  default_protocol : string → world → outcome (option string)
}.

(** ** Strings and paths *)

Definition newline : string := String (Ascii.ascii_of_nat 10) EmptyString.
Definition double_quote : string := String (Ascii.ascii_of_nat 34) EmptyString.

Definition startswith_sep (s : string) : bool :=
  match s with
  | String c _ => Ascii.eqb c "/"%char
  | EmptyString => false
  end.

Fixpoint endswith_sep (s : string) : bool :=
  match s with
  | EmptyString => false
  | String c EmptyString => Ascii.eqb c "/"%char
  | String _ rest => endswith_sep rest
  end.

(** One step of posixpath.join: a component that starts with the
    separator replaces the path, and no separator is added to an empty
    path or after one. *)
Definition join_step (path b : string) : string :=
  if startswith_sep b then b
  else if String.eqb path "" || endswith_sep path then path +:+ b
  else path +:+ "/" +:+ b.

(** [os.path.join(a, *p)] *)
Definition os_path_join (a : string) (p : list string) : string :=
  foldl join_step a p.

(** ['v' * n] *)
Fixpoint repeat_v (n : nat) : string :=
  match n with
  | 0 => ""
  | S n => String "v"%char (repeat_v n)
  end.

(** [cmd.replace('xxx', new)]: the occurrences are replaced from the left,
    and the text put in is not searched again. *)
Fixpoint replace_xxx (new s : string) : string :=
  match s with
  | String "x"%char (String "x"%char (String "x"%char rest)) =>
      new +:+ replace_xxx new rest
  | String c rest => String c (replace_xxx new rest)
  | EmptyString => EmptyString
  end.

(** ** The algorithms and their configurations *)

(** The module-level list: the six algorithms of this package, the three
    GMM-based ones when their three resources load, the two of the CSU
    extension when its two resources load. *)
Definition all_algorithms (gmm_loads csu_loads : bool) : list string :=
  ["eigenface"; "lda"; "gabor-graph"; "lgbphs"; "plda"; "bic"]
  ++ (if gmm_loads then ["gmm"; "isv"; "ivector"] else [])
  ++ (if csu_loads then ["lrpca"; "lda-ir"] else []).

(** One entry of CONFIGURATIONS: a dict whose keys [grid] and [script]
    can be missing. *)
Record setup : Type := {
  preprocessor : option string * option string;
  extractor : string;
  algorithm : string;
  grid : option string;
  script : option string
}.

Definition CONFIGURATIONS : gmap string setup :=
  list_to_map [
    ("eigenface",
     {| preprocessor := (Some "face-crop-eyes", Some "base");
        extractor := "linearize"; algorithm := "pca";
        grid := None; script := None |});
    ("lda",
     {| preprocessor := (Some "face-crop-eyes", Some "base");
        extractor := "eigenface"; algorithm := "lda";
        grid := None; script := None |});
    ("plda",
     {| preprocessor := (Some "face-crop-eyes", Some "base");
        extractor := "linearize"; algorithm := "pca+plda";
        grid := Some "demanding"; script := None |});
    ("gabor-graph",
     {| preprocessor := (Some "inorm-lbp-crop", Some "inorm-lbp");
        extractor := "grid-graph"; algorithm := "gabor-jet";
        grid := None; script := None |});
    ("lgbphs",
     {| preprocessor := (Some "tan-triggs-crop", Some "tan-triggs");
        extractor := "lgbphs"; algorithm := "histogram";
        grid := None; script := None |});
    ("bic",
     {| preprocessor := (Some "face-crop-eyes", Some "base");
        extractor := "grid-graph"; algorithm := "bic-jets";
        grid := Some "demanding"; script := None |});
    ("gmm",
     {| preprocessor := (Some "tan-triggs-crop", Some "tan-triggs");
        extractor := "dct-blocks"; algorithm := "gmm";
        grid := Some "demanding"; script := Some "./bin/verify_gmm.py" |});
    ("isv",
     {| preprocessor := (Some "tan-triggs-crop", Some "tan-triggs");
        extractor := "dct-blocks"; algorithm := "isv";
        grid := Some "demanding"; script := Some "./bin/verify_isv.py" |});
    ("ivector",
     {| preprocessor := (Some "tan-triggs-crop", Some "tan-triggs");
        extractor := "dct-blocks"; algorithm := "ivector-cosine";
        grid := Some "demanding"; script := Some "./bin/verify_ivector.py" |});
    ("lrpca",
     {| preprocessor := (Some "lrpca", None);
        extractor := "lrpca"; algorithm := "lrpca";
        grid := None; script := None |});
    ("lda-ir",
     {| preprocessor := (Some "lda-ir", None);
        extractor := "lda-ir"; algorithm := "lda-ir";
        grid := None; script := None |})
  ].

(** ** The parsed command line *)

(** What [command_line_arguments] returns, the parser being argparse's:
    [evaluate] is None or the list given, [parallel] None or the number
    given, [verbose] the count of the verbosity option, [parameters] what
    is left of the command line; [use_grid] stands for [args.grid]. *)
Record args : Type := {
  algorithms : list string;
  database : string;
  baseline_directory : string;
  temp_directory : option string;
  result_directory : option string;
  use_grid : bool;
  parallel : option Z;
  zt_norm : bool;
  dry_run : bool;
  evaluate : option (list string);
  verbose : nat;
  parameters : list string
}.

Definition has_eyes (a : args) : bool := negb (String.eqb (database a) "atnt").

Definition has_zt_norm (a : args) : bool :=
  bool_decide (database a ∈ ["banca"; "mobio"; "multipie"; "scface"]).

Definition has_eval (a : args) : bool :=
  bool_decide (database a ∈ ["banca"; "mobio"; "multipie"; "scface"; "xm2vts"]).

(** ** The state of a run *)

Section Run.
Context `{System}.

Record state : Type := {
  now : world;
  log : list event
}.

Definition action (A : Type) : Type := state → state * outcome A.

#[global] Instance action_ret : MRet action := λ A a st, (st, Done a).

#[global] Instance action_bind : MBind action := λ A B k m st,
  match m st with
  | (st', Done a) => k a st'
  | (st', Raised e) => (st', Raised e)
  end.

Definition raise {A : Type} (e : exception) : action A := λ st, (st, Raised e).

Definition lift_outcome {A : Type} (r : outcome A) : action A := λ st, (st, r).

(** A question to the world. *)
Definition ask {A : Type} (q : world → A) : action A := λ st, (st, Done (q (now st))).

Definition emit (e : event) : action unit :=
  λ st, ({| now := now st; log := log st ++ [e] |}, Done tt).

(** [subprocess.call(command)]; the return code is not looked at. *)
Definition call (cmd : command) : action unit :=
  λ st, let '(w, r) := subprocess_call cmd (now st) in
        ({| now := w; log := log st ++ [Call cmd] |},
         match r with Done _ => Done tt | Raised e => Raised e end).

Definition when (b : bool) (m : action unit) : action unit := if b then m else mret tt.

Fixpoint for_ {A : Type} (l : list A) (body : A → action unit) : action unit :=
  match l with
  | [] => mret tt
  | x :: l => body x ;; for_ l body
  end.

(** A loop that carries its local variables. *)
Fixpoint for_with {A S : Type} (l : list A) (body : A → S → action S) (s : S)
  : action S :=
  match l with
  | [] => mret s
  | x :: l => s' ← body x s; for_with l body s'
  end.

(** ** Running the algorithms *)

(** The command of one algorithm, from its configuration. *)
Definition build_command (a : args) (name : string) (config : setup)
  : list (option string) :=
  let grid := default "grid" (grid config) in
  let script :=
    match script config with
    | None => "./bin/verify.py"
    | Some s =>
        if negb (use_grid a) && bool_decide (parallel a = None)
        then "./bin/verify.py" else s
    end in
  let preprocessor :=
    if has_eyes a then (preprocessor config).1 else (preprocessor config).2 in
  let sub_directory := os_path_join (baseline_directory a) [name] in
  [ Some script;
    Some "--database"; Some (database a);
    Some "--preprocessor"; preprocessor;
    Some "--extractor"; Some (extractor config);
    Some "--algorithm"; Some (algorithm config);
    Some "--sub-directory"; Some sub_directory ]
  ++ (if use_grid a
      then [Some "--grid"; Some grid; Some "--stop-on-failure"] else [])
  ++ match parallel a with
     | Some n =>
         [ Some "--grid";
           Some ("bob.bio.base.grid.Grid(" +:+ double_quote +:+ "local"
                 +:+ double_quote +:+ ", number_of_parallel_processes="
                 +:+ pretty n +:+ ")");
           Some "--run-local-scheduler"; Some "--stop-on-failure" ]
     | None => []
     end
  ++ (if has_zt_norm a && zt_norm a then [Some "--zt-norm"] else [])
  ++ (if has_eval a then [Some "--groups"; Some "dev"; Some "eval"] else [])
  ++ match temp_directory a with
     | Some d => [Some "--temp-directory"; Some (os_path_join d [])]
     | None => []
     end
  ++ match result_directory a with
     | Some d => [Some "--result-directory"; Some (os_path_join d [])]
     | None => []
     end
  ++ (if bool_decide (verbose a ≠ 0)
      then [Some ("-" +:+ repeat_v (verbose a))] else [])
  ++ (if bool_decide (parameters a ≠ [])
      then Some <$> drop 1 (parameters a) else []).

(** Logging a command and running it unless [dry_run] is set. *)
Definition log_and_run (a : args) (cmd : command) : action unit :=
  text ← lift_outcome (command_line cmd);
  emit (LogInfo ("Executing command:" +:+ newline +:+ "%s") [text]) ;;
  when (negb (dry_run a)) (call cmd).

(** The body of the loop over the algorithms. *)
Definition execute (a : args) (name : string) : action unit :=
  emit (LogInfo "Executing algorithm '%s'" [name]) ;;
  config ← match CONFIGURATIONS !! name with
           | Some config => mret config
           | None => raise (KeyError name)
           end;
  when (bool_decide
          ((if has_eyes a then (preprocessor config).1
            else (preprocessor config).2) = None))
       (emit (LogWarn ("Skipping algorithm '%s' since no preprocessor is "
                    +:+ "found that matches the given databases' '%s' "
                    +:+ "configuration") [name; database a])) ;;
  log_and_run a (build_command a name config).

(** ** Evaluating the results *)

(** The local variables of the loop that collects the score files. *)
Record found : Type := {
  result_dev : list string;
  result_eval : list string;
  result_zt_dev : list string;
  result_zt_eval : list string;
  legends : list string
}.

Definition nothing_found : found :=
  {| result_dev := []; result_eval := []; result_zt_dev := [];
     result_zt_eval := []; legends := [] |}.

Definition skipping (name : string) : action unit :=
  emit (LogWarn "Skipping algorithm '%s' since the results cannot be found."
             [name]).

(** The score files of one algorithm under a protocol. *)
Definition collect_scores (a : args) (result_dir name protocol : string)
    (w : world) (f : found) : found :=
  let nonorm_sub_dir := os_path_join name [protocol; "nonorm"] in
  let ztnorm_sub_dir := os_path_join name [protocol; "ztnorm"] in
  if exists_ (os_path_join result_dir [nonorm_sub_dir; "scores-dev"]) w then
    {| result_dev :=
         result_dev f ++ [os_path_join nonorm_sub_dir ["scores-dev"]];
       legends := legends f ++ [name];
       result_eval :=
         if has_eval a
            && exists_ (os_path_join result_dir [nonorm_sub_dir; "scores-eval"]) w
         then result_eval f ++ [os_path_join nonorm_sub_dir ["scores-eval"]]
         else result_eval f;
       result_zt_dev :=
         if has_zt_norm a
            && exists_ (os_path_join result_dir [ztnorm_sub_dir; "scores-dev"]) w
         then result_zt_dev f ++ [os_path_join ztnorm_sub_dir ["scores-dev"]]
         else result_zt_dev f;
       result_zt_eval :=
         if has_zt_norm a && (has_eval a
            && exists_ (os_path_join result_dir [ztnorm_sub_dir; "scores-eval"]) w)
         then result_zt_eval f ++ [os_path_join ztnorm_sub_dir ["scores-eval"]]
         else result_zt_eval f |}
  else f.

(** The body of the loop over the algorithms. *)
Definition collect (a : args) (result_dir name : string) (f : found) : action found :=
  there ← ask (exists_ (os_path_join result_dir [name]));
  if negb there then skipping name ;; mret f
  else
    names ← ask (listdir (os_path_join result_dir [name])) ≫= lift_outcome;
    protocols ← ask (λ w,
      filter (λ d, isdir (os_path_join result_dir [name; d]) w = true) names);
    match protocols with
    | [] => skipping name ;; mret f
    | first :: others =>
        let use_first :=
          emit (LogWarn ("There are several protocols found in directory "
                      +:+ "'%s'. Here, we use protocol '%s'.")
                     [os_path_join result_dir [name]; first]) ;;
          mret first in
        protocol ←
          (if bool_decide (1 < length protocols) then
             p ← ask (default_protocol (database a)) ≫= lift_outcome;
             match p with
             | Some p => if bool_decide (p ∈ protocols) then mret p
                         else use_first
             | None => use_first
             end
           else mret first);
        ask (λ w, collect_scores a result_dir name protocol w f)
    end.

(** The options of the evaluation script, with the place of the suffix
    still marked. *)
Definition base_command (a : args) (requested : list string)
    (result_dir : string) (names : list string) : list string :=
  ["./bin/evaluate.py"; "--directory"; result_dir; "--legends"] ++ names
  ++ (if bool_decide ("EER" ∈ requested) then ["--criterion"; "EER"]
      else if bool_decide ("HTER" ∈ requested) then ["--criterion"; "HTER"]
      else [])
  ++ (if bool_decide ("ROC" ∈ requested) then ["--roc"; "ROCxxx.pdf"] else [])
  ++ (if bool_decide ("DET" ∈ requested) then ["--det"; "DETxxx.pdf"] else [])
  ++ (if bool_decide ("CMC" ∈ requested) then ["--cmc"; "CMCxxx.pdf"] else [])
  ++ (if bool_decide ("RR" ∈ requested) then ["--rr"] else [])
  ++ (if bool_decide (verbose a ≠ 0)
      then ["-" +:+ repeat_v (verbose a)] else []).

(** The command of one of the two evaluations. *)
Definition evaluation_command (suffix : string) (base dev eval : list string)
  : list (option string) :=
  Some <$> ((replace_xxx suffix <$> base) ++ ["--dev-files"] ++ dev
            ++ (if bool_decide (eval ≠ []) then ["--eval-files"] ++ eval
                else [])).

Definition directory_missing (a : args) (directory : string) : action unit :=
  there ← ask (exists_ directory);
  if negb there then
    if negb (dry_run a) then raise (IOError directory) else mret tt
  else mret tt.

(** The first part of the evaluation: the directory of the results and
    the score files found in it. *)
Definition find_results (a : args) : action (string * found) :=
  is_idiap ← ask (isdir "/idiap");
  result_directory ←
    match result_directory a with
    | Some d => mret d
    | None =>
        if is_idiap : bool then
          user ← ask (environ "USER");
          match user with
          | Some user => mret ("/idiap/user/" +:+ user +:+ "/" +:+ database a)
          | None => raise (KeyError "USER")
          end
        else mret "results"
    end;
  directory_missing a result_directory ;;
  let result_dir := os_path_join result_directory [baseline_directory a] in
  directory_missing a result_dir ;;
  f ← for_with (algorithms a) (collect a result_dir) nothing_found;
  mret (result_dir, f).

(** The second part: the calls of the evaluation script. *)
Definition evaluate_results (a : args) (requested : list string)
    (result_dir : string) (f : found) : action unit :=
  if bool_decide (result_dev f = []) && negb (dry_run a) then
    emit (LogWarn "No result files were detected -- skipping evaluation." [])
  else
    let base := base_command a requested result_dir (legends f) in
    log_and_run a
      (evaluation_command
         (if bool_decide (result_zt_dev f ≠ []) then "_dev" else "")
         base (result_dev f) (result_eval f)) ;;
    when (bool_decide (result_zt_dev f ≠ []))
      (log_and_run a
         (evaluation_command "_eval" base (result_zt_dev f) (result_zt_eval f))).

Definition evaluation (a : args) (requested : list string) : action unit :=
  '(result_dir, f) ← find_results a;
  evaluate_results a requested result_dir f.

(** [main], on the arguments [command_line_arguments] has returned. *)
Definition main (a : args) : action unit :=
  match evaluate a with
  | None | Some [] => for_ (algorithms a) (execute a)
  | Some requested => evaluation a requested
  end.

(** ** For the statements *)

(** The programs a log says were run, in order. *)
Definition calls (l : list event) : list command :=
  omap (λ e, match e with Call cmd => Some cmd | _ => None end) l.

(** The messages of one round of the loop over the algorithms before the
    command is logged. *)
Definition announced (a : args) (name : string) (config : setup) : list event :=
  LogInfo "Executing algorithm '%s'" [name]
  :: (if bool_decide ((if has_eyes a then (preprocessor config).1
                       else (preprocessor config).2) = None)
      then [LogWarn ("Skipping algorithm '%s' since no preprocessor is "
                  +:+ "found that matches the given databases' '%s' "
                  +:+ "configuration") [name; database a]]
      else []).

(** An action that runs no program. *)
Definition quiet {A : Type} (m : action A) : Prop :=
  ∀ st, now (m st).1 = now st ∧ calls (log (m st).1) = calls (log st).

(** What the loop that collects the score files keeps true. *)
Record aligned (a : args) (f : found) : Prop := {
  aligned_legends : length (legends f) = length (result_dev f);
  aligned_eval : length (result_eval f) ≤ length (result_dev f);
  aligned_zt_dev : length (result_zt_dev f) ≤ length (result_dev f);
  aligned_zt_eval : length (result_zt_eval f) ≤ length (result_dev f);
  aligned_has_eval :
    has_eval a = false → result_eval f = [] ∧ result_zt_eval f = [];
  aligned_has_zt_norm :
    has_zt_norm a = false → result_zt_dev f = [] ∧ result_zt_eval f = []
}.

(** The command [main] builds for an algorithm, when it is configured. *)
Definition command_of (a : args) (name : string) : option command :=
  build_command a name <$> CONFIGURATIONS !! name.

End Run.

(** Replacing arguments. *)
Definition with_parameters (l : list string) (a : args) : args :=
  {| algorithms := algorithms a; database := database a;
     baseline_directory := baseline_directory a;
     temp_directory := temp_directory a;
     result_directory := result_directory a;
     use_grid := use_grid a; parallel := parallel a; zt_norm := zt_norm a;
     dry_run := dry_run a; evaluate := evaluate a; verbose := verbose a;
     parameters := l |}.

Definition with_zt_norm (b : bool) (a : args) : args :=
  {| algorithms := algorithms a; database := database a;
     baseline_directory := baseline_directory a;
     temp_directory := temp_directory a;
     result_directory := result_directory a;
     use_grid := use_grid a; parallel := parallel a; zt_norm := b;
     dry_run := dry_run a; evaluate := evaluate a; verbose := verbose a;
     parameters := parameters a |}.

Definition with_evaluate (requested : option (list string)) (a : args) : args :=
  {| algorithms := algorithms a; database := database a;
     baseline_directory := baseline_directory a;
     temp_directory := temp_directory a;
     result_directory := result_directory a;
     use_grid := use_grid a; parallel := parallel a; zt_norm := zt_norm a;
     dry_run := dry_run a; evaluate := requested; verbose := verbose a;
     parameters := parameters a |}.

(** The options that only matter when the algorithms are run. *)
Definition with_run_options (temp : option string) (g : bool)
    (p : option Z) (z : bool) (l : list string) (a : args) : args :=
  {| algorithms := algorithms a; database := database a;
     baseline_directory := baseline_directory a;
     temp_directory := temp;
     result_directory := result_directory a;
     use_grid := g; parallel := p; zt_norm := z;
     dry_run := dry_run a; evaluate := evaluate a; verbose := verbose a;
     parameters := l |}.

(** ** A system and arguments for the examples *)

(** The world is the list of the programs run so far; every run returns
    0; the paths of [paths] exist and are directories, and every
    directory lists [entries]. *)
Definition example_system (paths entries : list string) : System :=
  {| world := list command;
     command_line := λ cmd, Done (default "None" (default None (head cmd)));
     subprocess_call := λ cmd w, (w ++ [cmd], Done 0%Z);
     isdir := λ p _, bool_decide (p ∈ paths);
     exists_ := λ p _, bool_decide (p ∈ paths);
     listdir := λ _ _, Done entries;
     environ := λ _ _, None;
     default_protocol := λ _ _, Done None |}.

(** The arguments of the script called with [-a names -d database]. *)
Definition example_arguments (names : list string) (db : string) : args :=
  {| algorithms := names; database := db;
     baseline_directory := "baselines";
     temp_directory := None; result_directory := None;
     use_grid := false; parallel := None; zt_norm := false;
     dry_run := false; evaluate := None; verbose := 0;
     parameters := [] |}.

Definition with_dry_run (b : bool) (a : args) : args :=
  {| algorithms := algorithms a; database := database a;
     baseline_directory := baseline_directory a;
     temp_directory := temp_directory a;
     result_directory := result_directory a;
     use_grid := use_grid a; parallel := parallel a; zt_norm := zt_norm a;
     dry_run := b; evaluate := evaluate a; verbose := verbose a;
     parameters := parameters a |}.

Definition with_result_directory (d : option string) (a : args) : args :=
  {| algorithms := algorithms a; database := database a;
     baseline_directory := baseline_directory a;
     temp_directory := temp_directory a;
     result_directory := d;
     use_grid := use_grid a; parallel := parallel a; zt_norm := zt_norm a;
     dry_run := dry_run a; evaluate := evaluate a; verbose := verbose a;
     parameters := parameters a |}.

Definition start `{System} (w : world) : state := {| now := w; log := [] |}.

(** The results of one algorithm under one protocol, with the scores of
    the development set. *)
Definition example_results : list string :=
  ["results"; "results/baselines"; "results/baselines/lda";
   "results/baselines/lda/Default";
   "results/baselines/lda/Default/nonorm/scores-dev"].

(** What the evaluation finds of them. *)
Definition example_found : found :=
  {| result_dev := ["lda/Default/nonorm/scores-dev"]; result_eval := [];
     result_zt_dev := []; result_zt_eval := []; legends := ["lda"] |}.

End Baselines.


(** * Proofs *)

(** ** The error monad *)

Lemma bind_Ok_inv {A B : Type} (m : result A) (f : A → result B) (b : B) :
  m ≫= f = Ok b → ∃ a, m = Ok a ∧ f a = Ok b.
Proof. destruct m as [a|e]; simpl; [eauto | done]. Qed.

(** ** Loops *)

Lemma for_each_app {A S : Type} (l1 l2 : list A) (body : A → S → result S) (s : S) :
  for_each (l1 ++ l2) body s = (s' ← for_each l1 body s; for_each l2 body s').
Proof.
  revert s. induction l1 as [|x l1 IH]; intros s; simpl; [done|].
  destruct (body x s) as [s'|e]; simpl; [apply IH | done].
Qed.

Lemma range_S (n : nat) : range (S n) = range n ++ [n].
Proof. unfold range. by rewrite seq_S. Qed.

(** A loop whose body never raises while an invariant holds computes the
    fold of its body. *)
Lemma for_each_fold {A S : Type} (Inv : S → Prop) (g : S → A → S)
    (l : list A) (body : A → S → result S) (s : S) :
  Inv s →
  (∀ x s, x ∈ l → Inv s → body x s = Ok (g s x) ∧ Inv (g s x)) →
  for_each l body s = Ok (foldl g s l) ∧ Inv (foldl g s l).
Proof.
  revert s. induction l as [|x l IH]; intros s Hs Hbody; simpl; [done|].
  destruct (Hbody x s) as [-> Hx]; [left | done |]. simpl.
  apply IH; [done|]. intros y s' Hy. apply Hbody. by right.
Qed.

(** ** Sparsification *)

Section Sparsify.

(** What the loop of [_sparsify] has collected after [n] rounds. *)
Record collected (data : list float64) (n : nat)
    (acc : list nat * list float64) : Prop := {
  col_length : length acc.2 = length acc.1;
  col_bound : ∀ i, i ∈ acc.1 → i < n;
  col_nonzero : ∀ i, i ∈ acc.1 ↔
     i < n ∧ ∃ x, data !! i = Some x ∧ nonzero x = true;
  col_ascending : ∀ a b i j, a < b →
     acc.1 !! a = Some i → acc.1 !! b = Some j → i < j;
  col_values : ∀ a i, acc.1 !! a = Some i → acc.2 !! a = data !! i
}.

Lemma collected_0 data : collected data 0 ([], []).
Proof.
  split; simpl; try done.
  - intros i Hi. by apply elem_of_nil in Hi.
  - intros i. split; [intros Hi; by apply elem_of_nil in Hi | intros [? _]; lia].
Qed.

Lemma collected_skip data n acc x :
  data !! n = Some x → nonzero x = false →
  collected data n acc → collected data (S n) acc.
Proof.
  intros Hx Hz [Hl Hb Hn Ha Hv]. split; try done.
  - intros i Hi. specialize (Hb i Hi). lia.
  - intros i. rewrite Hn. split.
    + intros [? ?]. split; [lia | done].
    + intros [Hi (y & Hy & Hnz)]. split; [|eauto].
      destruct (decide (i = n)) as [->|]; [|lia]. congruence.
Qed.

Lemma collected_keep data n acc x :
  data !! n = Some x → nonzero x = true →
  collected data n acc → collected data (S n) (acc.1 ++ [n], acc.2 ++ [x]).
Proof.
  intros Hx Hz [Hl Hb Hn Ha Hv]. split; simpl.
  - rewrite !length_app. simpl. lia.
  - intros i [Hi| ->%list_elem_of_singleton]%elem_of_app; [|lia].
    specialize (Hb i Hi). lia.
  - intros i. rewrite elem_of_app, list_elem_of_singleton, Hn. split.
    + intros [[? ?]| ->]; [split; [lia|done] | split; [lia | eauto]].
    + intros [Hi ?]. destruct (decide (i = n)); [by right | left; split; [lia|done]].
  - intros a b i j Hab Hi Hj.
    destruct (decide (b < length acc.1)) as [Hb'|Hb'].
    + rewrite lookup_app_l in Hi, Hj by lia. eauto.
    + rewrite lookup_app_r in Hj by lia.
      assert (j = n) as ->.
      { destruct (b - length acc.1); simpl in Hj; [congruence | done]. }
      destruct (decide (a < length acc.1)).
      * rewrite lookup_app_l in Hi by lia.
        apply Hb. eapply list_elem_of_lookup_2. done.
      * rewrite lookup_app_r in Hi by lia.
        apply lookup_lt_Some in Hj. simpl in Hj.
        destruct (a - length acc.1) eqn:?; simpl in Hi; [lia | done].
  - intros a i Hi.
    destruct (decide (a < length acc.1)).
    + rewrite lookup_app_l in Hi by lia. rewrite lookup_app_l by lia. eauto.
    + rewrite lookup_app_r in Hi by lia. rewrite lookup_app_r by lia.
      rewrite Hl. destruct (a - length acc.1); simpl in *; [congruence | done].
Qed.

Lemma sparsify_loop data n :
  n ≤ length data →
  ∃ acc, for_each (range n) (sparsify_step data) ([], []) = Ok acc ∧
         collected data n acc.
Proof.
  induction n as [|n IH]; intros Hn.
  - exists ([], []). split; [done | apply collected_0].
  - destruct IH as (acc & Hloop & Hacc); [lia|].
    destruct (lookup_lt_is_Some_2 data n) as [x Hx]; [lia|].
    rewrite range_S, for_each_app, Hloop. simpl.
    unfold sparsify_step. rewrite Hx.
    destruct (nonzero x) eqn:Hz; simpl.
    + eexists. split; [done|]. by apply collected_keep.
    + eexists. split; [done|]. by eapply collected_skip.
Qed.

End Sparsify.

Lemma sparsify_dense_result (self : LGBPHS) (data : list float64) :
  sparse self = true →
  ∃ acc, collected data (length data) acc ∧
    _sparsify self (Some (Array1 data)) =
      Ok (Some (Array2 2 (length acc.1) ((float_of_index <$> acc.1) ++ acc.2))).
Proof.
  intros Hs. destruct (sparsify_loop data (length data)) as (acc & Hloop & Hacc); [done|].
  exists acc. split; [done|].
  unfold _sparsify. rewrite Hs. simpl. rewrite Hloop. simpl.
  destruct acc as [indices values]. simpl.
  unfold numpy_array_2. destruct Hacc as [Hl _ _ _ _]. simpl in Hl.
  rewrite decide_True by done. done.
Qed.

(** C5: with [sparse] set, a 1-D dense array becomes a 2-row array: row 0
    holds, in ascending order, the indices of the entries that are not
    zero (as float64) and row 1 the entries themselves; an array whose
    entries are all zero becomes the empty array of shape (2, 0). *)
Theorem sparsify_dense (self : LGBPHS) (data : list float64) :
  sparse self = true →
  ∃ (indices : list nat) (out : ndarray),
    _sparsify self (Some (Array1 data)) = Ok (Some out) ∧
    shape out = [2; length indices] ∧
    (∀ i, i ∈ indices ↔ ∃ x, data !! i = Some x ∧ nonzero x = true) ∧
    (∀ a b i j, a < b →
       indices !! a = Some i → indices !! b = Some j → i < j) ∧
    (∀ a i, indices !! a = Some i →
       get2 out 0 a = Some (float_of_index i) ∧ get2 out 1 a = data !! i) ∧
    ((∀ x, x ∈ data → nonzero x = false) → out = Array2 2 0 []).
Proof.
  intros Hs.
  destruct (sparsify_dense_result self data Hs) as ([indices values] & Hacc & Hout).
  destruct Hacc as [Hl Hb Hn Ha Hv]. simpl in *.
  exists indices, (Array2 2 (length indices) ((float_of_index <$> indices) ++ values)).
  split; [done|]. split; [done|]. split.
  { intros i. rewrite Hn. split; [intros [_ ?]; done|].
    intros (x & Hx & ?). split; [by eapply lookup_lt_Some | eauto]. }
  split; [done|]. split.
  - intros a i Hi. pose proof (lookup_lt_Some _ _ _ Hi) as Hlt. simpl. split.
    + rewrite decide_True by lia. simpl.
      rewrite lookup_app_l by (rewrite length_fmap; lia).
      by rewrite list_lookup_fmap, Hi.
    + rewrite decide_True by lia.
      rewrite lookup_app_r by (rewrite length_fmap; lia).
      rewrite length_fmap.
      replace (length indices + 0 + a - length indices) with a by lia. eauto.
  - intros Hzero.
    assert (indices = []) as ->.
    { apply elem_of_nil_inv. intros i [_ (x & Hx & Hnz)]%Hn.
      rewrite (Hzero x) in Hnz; [done|]. by eapply list_elem_of_lookup_2. }
    destruct values; [done | simpl in Hl; lia].
Qed.

(** C6: sparsifying twice is sparsifying once; every 1-D array can be
    sparsified; an array that already has two rows is returned as it is;
    and without [sparse] every input is returned as it is. *)
Theorem sparsify_idempotent (self : LGBPHS) :
  (∀ x y, _sparsify self x = Ok y → _sparsify self y = Ok y) ∧
  (∀ data, ∃ y, _sparsify self (Some (Array1 data)) = Ok (Some y) ∧
                _sparsify self (Some y) = Ok (Some y)) ∧
  (∀ cols data, _sparsify self (Some (Array2 2 cols data))
                = Ok (Some (Array2 2 cols data))) ∧
  (sparse self = false → ∀ x, _sparsify self x = Ok x).
Proof.
  assert (Hrows : ∀ cols data, _sparsify self (Some (Array2 2 cols data))
                               = Ok (Some (Array2 2 cols data))).
  { intros. unfold _sparsify. by destruct (sparse self). }
  assert (Hoff : sparse self = false → ∀ x, _sparsify self x = Ok x).
  { intros Hs x. unfold _sparsify. by rewrite Hs. }
  assert (Hdense : ∀ data, ∃ y, _sparsify self (Some (Array1 data)) = Ok (Some y) ∧
                _sparsify self (Some y) = Ok (Some y)).
  { intros data. destruct (sparse self) eqn:Hs.
    - destruct (sparsify_dense_result self data Hs) as (acc & _ & ->).
      eexists. split; [done | apply Hrows].
    - exists (Array1 data). rewrite !Hoff; done. }
  split; [|done].
  intros x y Hx. destruct (sparse self) eqn:Hs; [|rewrite Hoff in Hx by done; simplify_eq; by apply Hoff].
  destruct x as [[data|rows cols data]|].
  - destruct (Hdense data) as (y' & Hy' & Hyy). congruence.
  - unfold _sparsify in Hx. rewrite Hs in Hx. simpl in Hx.
    destruct rows as [|[|[|]]]; simplify_eq. apply Hrows.
  - unfold _sparsify in Hx. rewrite Hs in Hx. done.
Qed.

(** ** Construction *)

(** The constructor on sizes that have two components. *)
Lemma init_pairs (a : init_args) (h w oh ow : Z) (r1 r2 : list Z) :
  as_pair (arg_block_size a) = h :: w :: r1 →
  as_pair (arg_block_overlap a) = oh :: ow :: r2 →
  __init__ a =
    if ((h <? oh)%Z || (w <? ow)%Z)
       || (sparse_histogram a && truthy (split_histogram a))
    then Raise ValueError
    else
      Ok {| block_size := h :: w :: r1; block_overlap := oh :: ow :: r2;
            gwt := {| number_of_scales := gabor_scales (gabor a);
                      number_of_directions := gabor_directions (gabor a);
                      sigma := gabor_sigma (gabor a);
                      k_max := gabor_maximum_frequency (gabor a);
                      k_fac := gabor_frequency_step (gabor a);
                      power_of_k := gabor_power_of_k (gabor a);
                      dc_free := gabor_dc_free (gabor a) |};
            trafo_image := None; use_phases := use_gabor_phases (gabor a);
            lbp := {| neighbors := lbp_neighbor_count (lbp_options a);
                      radius := lbp_radius (lbp_options a);
                      circular := lbp_circular (lbp_options a);
                      to_average := lbp_compare_to_average (lbp_options a);
                      add_average_bit := lbp_add_average (lbp_options a);
                      uniform := lbp_uniform (lbp_options a);
                      rotation_invariant := lbp_rotation_invariant (lbp_options a);
                      border_handling := "wrap" |};
            split := split_histogram a; sparse := sparse_histogram a;
            n_bins := None; n_blocks := None |}.
Proof.
  intros Hs Ho. unfold __init__. rewrite Hs, Ho. simpl.
  destruct (h <? oh)%Z; simpl; [done|].
  destruct (w <? ow)%Z; simpl; [done|].
  by destruct (sparse_histogram a && truthy (split_histogram a)).
Qed.

Lemma truthy_true (s : option string) :
  truthy s = true ↔ ∃ mode, s = Some mode ∧ mode ≠ "".
Proof.
  destruct s as [mode|]; simpl.
  - rewrite negb_true_iff, String.eqb_neq. split; [eauto|].
    by intros (? & [= <-] & ?).
  - split; [done | by intros (? & ? & _)].
Qed.

(** C7, as the constructor has it: with two-component sizes, construction
    raises when the overlap exceeds the size in either dimension, and when
    [sparse] is set together with a split that is a string other than the
    empty one; when the overlap fits and [sparse] is off or the split is
    None or the empty string, it returns the instance. *)
Theorem init_validation (a : init_args) (h w oh ow : Z) (r1 r2 : list Z) :
  as_pair (arg_block_size a) = h :: w :: r1 →
  as_pair (arg_block_overlap a) = oh :: ow :: r2 →
  ((h < oh ∨ w < ow)%Z → __init__ a = Raise ValueError) ∧
  (∀ mode, sparse_histogram a = true →
     split_histogram a = Some mode → mode ≠ "" →
     __init__ a = Raise ValueError) ∧
  ((oh ≤ h)%Z → (ow ≤ w)%Z →
   sparse_histogram a = false ∨ split_histogram a = None
   ∨ split_histogram a = Some "" →
   ∃ self, __init__ a = Ok self ∧
           block_size self = h :: w :: r1 ∧
           block_overlap self = oh :: ow :: r2 ∧
           split self = split_histogram a ∧
           sparse self = sparse_histogram a ∧
           use_phases self = use_gabor_phases (gabor a) ∧
           trafo_image self = None).
Proof.
  intros Hs Ho. rewrite (init_pairs a h w oh ow r1 r2 Hs Ho).
  split; [|split].
  - intros Hlt.
    assert ((h <? oh)%Z || (w <? ow)%Z = true) as ->; [|done].
    apply orb_true_iff. destruct Hlt; [left | right]; by apply Z.ltb_lt.
  - intros mode -> Hmode Hne.
    assert (truthy (split_histogram a) = true) as ->.
    { apply truthy_true. eauto. }
    simpl. by rewrite orb_true_r.
  - intros Hh Hw Hopt.
    assert (sparse_histogram a && truthy (split_histogram a) = false) as ->.
    { destruct Hopt as [->|[->| ->]]; [done | apply andb_false_r..]. }
    assert ((h <? oh)%Z || (w <? ow)%Z = false) as ->.
    { apply orb_false_iff. split; apply Z.ltb_ge; lia. }
    simpl. eexists. split; [done|]. done.
Qed.

(** The examples of the specification: sizes (4,4) with overlap (5,5), and
    [sparse] with [split = "blocks"]. *)
Lemma init_validation_witness :
  __init__ (with_block_overlap (SeqArg [5; 5]%Z) (default_args (SeqArg [4; 4]%Z)))
    = Raise ValueError
  ∧ __init__ (with_histogram true (Some "blocks") (default_args (IntArg 4)))
    = Raise ValueError
  ∧ ∃ self, __init__ (default_args (SeqArg [4; 4]%Z)) = Ok self.
Proof.
  split; [|split].
  - destruct (init_validation
                (with_block_overlap (SeqArg [5; 5]%Z) (default_args (SeqArg [4; 4]%Z)))
                4 4 5 5 [] []) as (Hbig & _ & _); [reflexivity | reflexivity |].
    apply Hbig. left. lia.
  - destruct (init_validation
                (with_histogram true (Some "blocks") (default_args (IntArg 4)))
                4 4 0 0 [] []) as (_ & Hboth & _); [reflexivity | reflexivity |].
    apply (Hboth "blocks"); [reflexivity | reflexivity | discriminate].
  - destruct (init_validation (default_args (SeqArg [4; 4]%Z)) 4 4 0 0 [] [])
      as (_ & _ & Hok); [reflexivity | reflexivity |].
    destruct Hok as (self & Hself & _); [lia | lia | left; reflexivity |].
    exists self. exact Hself.
Defined.

(** Against C7 as the specification words it: [sparse] together with the
    empty string as split, which is not None, is accepted. *)
Lemma init_accepts_sparse_with_empty_split :
  ∃ self,
    __init__ (with_histogram true (Some "") (default_args (IntArg 4)))
      = Ok self
    ∧ sparse self = true ∧ split self = Some "".
Proof. eexists. split; [reflexivity|]. split; reflexivity. Qed.

(** C9: an integer size stands for the square pair, for the size and for
    the overlap, before anything is checked; the overlap defaults to 0;
    and an overlap that is 0 in both or in either dimension is accepted. *)
Theorem init_square_sizes_and_zero_overlap
    (a : init_args) (v h w oh ow : Z) (r : list Z) :
  as_pair (arg_block_size a) = h :: w :: r →
  (0 ≤ h)%Z → (0 ≤ w)%Z → (oh ≤ h)%Z → (ow ≤ w)%Z →
  sparse_histogram a && truthy (split_histogram a) = false →
  __init__ (with_block_size (IntArg v) a)
    = __init__ (with_block_size (SeqArg [v; v]) a) ∧
  __init__ (with_block_overlap (IntArg v) a)
    = __init__ (with_block_overlap (SeqArg [v; v]) a) ∧
  (∀ self, __init__ (with_block_size (IntArg v) a) = Ok self →
           block_size self = [v; v]) ∧
  (∀ self, __init__ (with_block_overlap (IntArg v) a) = Ok self →
           block_overlap self = [v; v]) ∧
  arg_block_overlap (default_args (arg_block_size a)) = IntArg 0 ∧
  (∃ self, __init__ (with_block_overlap (IntArg 0) a) = Ok self ∧
           block_size self = h :: w :: r ∧ block_overlap self = [0; 0]%Z) ∧
  (∃ self, __init__ (with_block_overlap (SeqArg [0; ow]%Z) a) = Ok self ∧
           block_overlap self = [0; ow]%Z) ∧
  (∃ self, __init__ (with_block_overlap (SeqArg [oh; 0]%Z) a) = Ok self ∧
           block_overlap self = [oh; 0]%Z).
Proof.
  intros Hs Hh Hw Hoh How Hout.
  assert (Hinv : ∀ (x : init_args) (self : LGBPHS),
             __init__ x = Ok self →
             block_size self = as_pair (arg_block_size x) ∧
             block_overlap self = as_pair (arg_block_overlap x)).
  { intros x self. unfold __init__. intros Hx.
    apply bind_Ok_inv in Hx as (size0 & _ & Hx).
    apply bind_Ok_inv in Hx as (overlap0 & _ & Hx).
    apply bind_Ok_inv in Hx as ([] & _ & Hx); [done|].
    destruct (sparse_histogram x && truthy (split_histogram x)); [done|].
    by simplify_eq. }
  assert (Hacc : ∀ oh' ow', (oh' ≤ h)%Z → (ow' ≤ w)%Z →
            ∃ self, __init__ (with_block_overlap (SeqArg [oh'; ow']) a) = Ok self ∧
                    block_size self = h :: w :: r ∧
                    block_overlap self = [oh'; ow']).
  { intros oh' ow' Hoh' How'.
    rewrite (init_pairs (with_block_overlap (SeqArg [oh'; ow']) a)
               h w oh' ow' r []) by done.
    assert ((h <? oh')%Z || (w <? ow')%Z = false) as ->.
    { apply orb_false_iff. split; apply Z.ltb_ge; lia. }
    cbn [sparse_histogram split_histogram with_block_overlap].
    rewrite Hout. simpl. eexists. split; [done|]. done. }
  split; [done|]. split; [done|].
  split; [intros self Hself; by apply (Hinv _ _ Hself)|].
  split; [intros self Hself; by apply (Hinv _ _ Hself)|].
  split; [done|]. split; [|split].
  - destruct (Hacc 0%Z 0%Z) as (self & ? & ? & ?); [lia | lia |]. by exists self.
  - destruct (Hacc 0%Z ow) as (self & ? & ? & ?); [lia | lia |]. by exists self.
  - destruct (Hacc oh 0%Z) as (self & ? & ? & ?); [lia | lia |]. by exists self.
Qed.

Lemma init_square_sizes_and_zero_overlap_witness :
  __init__ (with_block_size (IntArg 8) (default_args (SeqArg [8; 8]%Z)))
    = __init__ (with_block_size (SeqArg [8; 8]%Z) (default_args (SeqArg [8; 8]%Z)))
  ∧ ∃ self, __init__ (with_block_overlap (IntArg 0) (default_args (SeqArg [8; 8]%Z)))
            = Ok self ∧ block_overlap self = [0; 0]%Z.
Proof.
  destruct (init_square_sizes_and_zero_overlap
              (default_args (SeqArg [8; 8]%Z)) 8 8 8 0 0 [])
    as (Hsize & _ & _ & _ & _ & (self & Hself & _ & Hov) & _);
    [reflexivity | lia | lia | lia | lia | reflexivity |].
  split; [exact Hsize | exists self; split; [exact Hself | exact Hov]].
Defined.

(** ** Writing into the storage *)

Lemma length_splice (d : list float64) lo v :
  lo + length v ≤ length d → length (splice d lo v) = length d.
Proof.
  intros Hle. unfold splice.
  rewrite !length_app, length_take, length_drop. lia.
Qed.

Lemma lookup_splice_in (d : list float64) lo v k :
  lo + length v ≤ length d → k < length v →
  splice d lo v !! (lo + k) = v !! k.
Proof.
  intros Hle Hk. unfold splice.
  rewrite lookup_app_r by (rewrite length_take; lia).
  rewrite length_take, lookup_app_l by lia.
  f_equal. lia.
Qed.

Lemma lookup_splice_out (d : list float64) lo v p :
  lo + length v ≤ length d → p < lo ∨ lo + length v ≤ p →
  splice d lo v !! p = d !! p.
Proof.
  intros Hle Hp. unfold splice. destruct Hp as [Hp|Hp].
  - rewrite lookup_app_l by (rewrite length_take; lia).
    by rewrite lookup_take_lt.
  - rewrite lookup_app_r by (rewrite length_take; lia).
    rewrite length_take.
    rewrite lookup_app_r by lia.
    rewrite lookup_drop. f_equal. lia.
Qed.

Section Writes.
Context (off : nat → nat) (row : nat → list float64) (m : nat).
Hypothesis row_length : ∀ b, length (row b) = m.

Lemma write_blocks_S n d :
  write_blocks off row (S n) d = write_block off row (write_blocks off row n d) n.
Proof. unfold write_blocks. by rewrite range_S, foldl_app. Qed.

Lemma length_write_blocks n d :
  (∀ b, b < n → off b + m ≤ length d) →
  length (write_blocks off row n d) = length d.
Proof.
  induction n as [|n IH]; intros Hb; [done|].
  rewrite write_blocks_S. unfold write_block.
  rewrite length_splice; rewrite ?row_length, ?IH; auto.
Qed.

(** Outside the rows written, the storage is as before. *)
Lemma lookup_write_blocks_out n d p :
  (∀ b, b < n → off b + m ≤ length d) →
  (∀ b, b < n → p < off b ∨ off b + m ≤ p) →
  write_blocks off row n d !! p = d !! p.
Proof.
  induction n as [|n IH]; intros Hb Hp; [done|].
  rewrite write_blocks_S. unfold write_block.
  rewrite lookup_splice_out.
  - apply IH; auto.
  - rewrite row_length, length_write_blocks; auto.
  - rewrite row_length. auto.
Qed.

(** Rows that do not overlap are all found where they were written. *)
Lemma lookup_write_blocks_in n d b k :
  (∀ b, b < n → off b + m ≤ length d) →
  (∀ b b', b < b' → b' < n → off b + m ≤ off b' ∨ off b' + m ≤ off b) →
  b < n → k < m →
  write_blocks off row n d !! (off b + k) = row b !! k.
Proof.
  induction n as [|n IH]; intros Hb Hd Hbn Hk; [lia|].
  rewrite write_blocks_S. unfold write_block.
  destruct (decide (b = n)) as [->|Hne].
  - rewrite lookup_splice_in; [done | | by rewrite row_length].
    rewrite row_length, length_write_blocks; auto.
  - rewrite lookup_splice_out.
    + apply IH; auto with lia.
    + rewrite row_length, length_write_blocks; auto.
    + rewrite row_length. destruct (Hd b n); lia.
Qed.

End Writes.

Lemma length_block_row blocks b : length (block_row blocks b) = a2_cols blocks.
Proof. unfold block_row, range. by rewrite length_fmap, length_seq. Qed.

Lemma lookup_block_row blocks b k :
  k < a2_cols blocks → block_row blocks b !! k = Some (a2_at blocks b k).
Proof.
  intros Hk. unfold block_row, range. rewrite list_lookup_fmap.
  by rewrite lookup_seq_lt.
Qed.

Lemma getrow_ok blocks b :
  b < a2_rows blocks → getrow blocks b = Ok (block_row blocks b).
Proof. intros Hb. unfold getrow. by rewrite decide_True. Qed.

Lemma assign_region_exact (d : list float64) lo row :
  assign_region d lo (lo + length row) row = Ok (splice d lo row).
Proof. unfold assign_region. rewrite decide_True by lia. done. Qed.

Lemma setitem_slice_exact (d : list float64) s e row :
  e = s + length row → e ≤ length d →
  setitem_slice (Array1 d) s e row = Ok (Array1 (splice d s row)).
Proof.
  intros -> Hle. unfold setitem_slice, slice_hi, slice_lo.
  replace (s `min` length d) with s by lia.
  replace (s `max` ((s + length row) `min` length d)) with (s + length row) by lia.
  by rewrite assign_region_exact.
Qed.

Lemma setitem_row_slice_exact rows cols (d : list float64) r c e row :
  r < rows → e = c + length row → e ≤ cols →
  setitem_row_slice (Array2 rows cols d) r c e row
  = Ok (Array2 rows cols (splice d (r * cols + c) row)).
Proof.
  intros Hr -> Hle. unfold setitem_row_slice, slice_hi, slice_lo.
  rewrite decide_True by done.
  replace (c `min` cols) with c by lia.
  replace (c `max` ((c + length row) `min` cols)) with (c + length row) by lia.
  replace (r * cols + (c + length row)) with (r * cols + c + length row) by lia.
  by rewrite assign_region_exact.
Qed.

Lemma set_data_id a : set_data a (data_of a) = a.
Proof. by destruct a. Qed.

Lemma data_of_set_data a d : data_of (set_data a d) = d.
Proof. by destruct a. Qed.

Lemma shape_set_data a d :
  length d = length (data_of a) → shape (set_data a d) = shape a.
Proof. destruct a; simpl; [by intros -> | done]. Qed.

Lemma foldl_set_data (f : list float64 → nat → list float64) a l :
  foldl (λ a b, set_data a (f (data_of a) b)) a l
  = set_data a (foldl f (data_of a) l).
Proof.
  revert a. induction l as [|b l IH]; intros a; simpl; [by rewrite set_data_id|].
  rewrite IH, data_of_set_data. by destruct a.
Qed.

(** ** The offsets of the layouts *)

Lemma flat_offset_bound l blocks bins jet j b :
  j < jet → b < blocks →
  flat_offset l blocks bins jet j b + bins ≤ blocks * bins * jet.
Proof.
  intros Hj Hb.
  pose proof (Nat.mul_le_mono_r (b + 1) blocks bins ltac:(lia)).
  pose proof (Nat.mul_le_mono_r (j + 1) jet bins ltac:(lia)).
  pose proof (Nat.mul_le_mono_r (j + 1) jet (bins * blocks) ltac:(lia)).
  pose proof (Nat.mul_le_mono_r (b + 1) blocks (bins * jet) ltac:(lia)).
  pose proof (Nat.mul_le_mono_r (j * blocks + b + 1) (jet * blocks) bins ltac:(nia)).
  destruct l; simpl; nia.
Qed.

Lemma flat_offset_mono l blocks bins jet j b b' :
  j < jet → b < b' → b' < blocks →
  flat_offset l blocks bins jet j b + bins ≤ flat_offset l blocks bins jet j b'.
Proof.
  intros Hj Hb Hb'.
  pose proof (Nat.mul_le_mono_r (b + 1) b' bins ltac:(lia)).
  pose proof (Nat.mul_le_mono_r (j + 1) jet bins ltac:(lia)).
  pose proof (Nat.mul_le_mono_r (b + 1) b' (bins * jet) ltac:(lia)).
  destruct l; simpl; nia.
Qed.

Lemma length_spec_shape l blocks bins jet a :
  shape a = spec_shape l blocks bins jet → well_shaped a →
  length (data_of a) = blocks * bins * jet.
Proof.
  destruct l, a as [d|rows cols d]; simpl; intros [=] Hw; subst; try done; nia.
Qed.

(** ** One pass of [_fill] *)

Section Fill.
Context (self : LGBPHS) (blocks : array2 float64) (l : layout).
Context (nb bins jet j : nat).
Hypothesis split_l : split self = split_of l.
Hypothesis self_bins : n_bins self = Some bins.
Hypothesis self_blocks : n_blocks self = Some nb.
Hypothesis blocks_rows : a2_rows blocks = nb.
Hypothesis blocks_cols : a2_cols blocks = bins.
Hypothesis slot : j < jet.


Lemma write_block_in_layout a b :
  b < nb → in_layout l nb bins jet a →
  in_layout l nb bins jet (set_data a (write_block (flat_offset l nb bins jet j) (block_row blocks) (data_of a) b)).
Proof.
  intros Hb [Hsh Hw].
  pose proof (length_spec_shape _ _ _ _ _ Hsh Hw) as Hlen.
  pose proof (flat_offset_bound l nb bins jet j b slot Hb) as Hoff.
  assert (length (write_block (flat_offset l nb bins jet j) (block_row blocks) (data_of a) b)
          = length (data_of a)) as Hl.
  { unfold write_block. apply length_splice.
    rewrite length_block_row, blocks_cols. lia. }
  split.
  - rewrite shape_set_data; done.
  - destruct a; simpl in *; [done | lia].
Qed.

(** The body of each of the four loops writes one row at its offset. *)
Lemma fill_body a b :
  b < nb → in_layout l nb bins jet a →
  (row ← getrow blocks b;
   match l with
   | Flat =>
       setitem_slice a (j * bins * nb + b * bins)
                     (j * bins * nb + (b + 1) * bins) row
   | ByBlocks => setitem_row_slice a b (j * bins) ((j + 1) * bins) row
   | ByWavelets => setitem_row_slice a j (b * bins) ((b + 1) * bins) row
   | ByBoth => setitem_row_slice a (j * nb + b) 0 bins row
   end)
  = Ok (set_data a (write_block (flat_offset l nb bins jet j) (block_row blocks) (data_of a) b)).
Proof.
  intros Hb [Hsh Hw].
  rewrite getrow_ok by lia. simpl.
  pose proof (length_block_row blocks b) as Hrow. rewrite blocks_cols in Hrow.
  unfold write_block.
  pose proof (flat_offset_bound l nb bins jet j b slot Hb) as Hoff.
  destruct l, a as [d|rows cols d]; simpl in Hsh, Hw, Hoff; try discriminate;
    injection Hsh as Hsh; intros; try subst rows; try subst cols;
    cbn [set_data data_of flat_offset].
  - apply setitem_slice_exact; lia.
  - apply setitem_row_slice_exact; [done | lia | nia].
  - apply setitem_row_slice_exact; [done | lia | nia].
  - apply setitem_row_slice_exact; [nia | lia | lia].
Qed.

(** A pass writes the rows of all blocks at the offsets of the layout. *)
Lemma fill_writes a :
  in_layout l nb bins jet a →
  _fill self a blocks j
  = Ok (set_data a (write_blocks (flat_offset l nb bins jet j) (block_row blocks) nb (data_of a)))
  ∧ in_layout l nb bins jet (set_data a (write_blocks (flat_offset l nb bins jet j) (block_row blocks) nb (data_of a))).
Proof.
  intros Ha. unfold write_blocks. rewrite <- foldl_set_data.
  assert (Hloop : ∀ body : nat → ndarray → result ndarray,
    (∀ b a, b < nb → in_layout l nb bins jet a →
       body b a = Ok (set_data a (write_block (flat_offset l nb bins jet j) (block_row blocks) (data_of a) b))) →
    for_each (range nb) body a
    = Ok (foldl (λ a b, set_data a (write_block (flat_offset l nb bins jet j) (block_row blocks) (data_of a) b))
                a (range nb))
    ∧ in_layout l nb bins jet (foldl (λ a b, set_data a (write_block (flat_offset l nb bins jet j) (block_row blocks) (data_of a) b))
                a (range nb))).
  { intros body Hbody. apply (for_each_fold (in_layout l nb bins jet)); [done|].
    intros b a' [_ Hb]%elem_of_seq Ha'. split.
    - apply Hbody; [lia | done].
    - apply write_block_in_layout; [lia | done]. }
  pose proof fill_body as Hbody.
  unfold _fill. rewrite split_l, self_bins, self_blocks. clear split_l.
  destruct l; simpl; apply Hloop; intros b a' Hb Ha';
    rewrite <- (Hbody a' b Hb Ha'); by destruct (getrow blocks b).
Qed.

End Fill.

(** ** Indices and storage positions *)

(** In row-major order a position determines the row and the column. *)
Lemma row_major_inv cols r r' c lo m :
  c < cols → lo + m ≤ cols →
  r' * cols + lo ≤ r * cols + c → r * cols + c < r' * cols + lo + m →
  r = r' ∧ lo ≤ c ∧ c < lo + m.
Proof.
  intros Hc Hlo Hle Hlt.
  assert (r = r') as ->; [|lia].
  destruct (Nat.lt_trichotomy r r') as [Hr|[Hr|Hr]]; [|done|].
  - pose proof (Nat.mul_le_mono_r (r + 1) r' cols ltac:(lia)). lia.
  - pose proof (Nat.mul_le_mono_r (r' + 1) r cols ltac:(lia)). lia.
Qed.

Lemma row_major_inj cols r r' c c' :
  c < cols → c' < cols → r * cols + c = r' * cols + c' → r = r' ∧ c = c'.
Proof.
  intros Hc Hc' Heq.
  destruct (row_major_inv cols r r' c c' 1) as (-> & ? & ?); lia.
Qed.

Lemma get_position a index :
  well_shaped a →
  get a index = position (shape a) index ≫= (data_of a !!.).
Proof.
  intros Hw. destruct a as [d|rows cols d], index as [|p [|c [|]]]; simpl; try done.
  - case_decide; simpl; [done|]. apply lookup_ge_None. lia.
  - by case_decide.
Qed.

Section Positions.
Context (l : layout) (nb bins jet : nat).

(** The index of the specification is stored at the offset of the pass. *)
Lemma position_spec_index j b k :
  j < jet → b < nb → k < bins →
  position (spec_shape l nb bins jet) (spec_index l nb bins j b k)
  = Some (flat_offset l nb bins jet j b + k).
Proof.
  intros Hj Hb Hk.
  pose proof (flat_offset_bound l nb bins jet j b Hj Hb) as Hoff.
  pose proof (Nat.mul_le_mono_r (b + 1) nb bins ltac:(lia)).
  pose proof (Nat.mul_le_mono_r (j + 1) jet bins ltac:(lia)).
  pose proof (Nat.mul_le_mono_r (j + 1) jet nb ltac:(lia)).
  destruct l; simpl in *; rewrite decide_True by nia; f_equal; lia.
Qed.

(** A valid index stored in the row a pass writes for block [b] is the
    index the specification gives to one of the bins of this block. *)
Lemma position_in_row index p j b :
  j < jet → b < nb →
  position (spec_shape l nb bins jet) index = Some p →
  flat_offset l nb bins jet j b ≤ p → p < flat_offset l nb bins jet j b + bins →
  ∃ k, k < bins ∧ index = spec_index l nb bins j b k.
Proof.
  intros Hj Hb Hp Hlo Hhi.
  pose proof (Nat.mul_le_mono_r (b + 1) nb bins ltac:(lia)).
  pose proof (Nat.mul_le_mono_r (j + 1) jet bins ltac:(lia)).
  exists (p - flat_offset l nb bins jet j b). split; [lia|].
  destruct l, index as [|r [|c [|]]]; simpl in *; try done;
    case_decide; simplify_eq.
  - f_equal. lia.
  - destruct (row_major_inv (bins * jet) r b c (j * bins) bins)
      as (-> & ? & ?); [lia | nia | lia | lia |].
    do 2 f_equal. lia.
  - destruct (row_major_inv (bins * nb) r j c (b * bins) bins)
      as (-> & ? & ?); [lia | nia | lia | lia |].
    do 2 f_equal. lia.
  - destruct (row_major_inv bins r (j * nb + b) c 0 bins)
      as (-> & ? & ?); [lia | lia | lia | lia |].
    do 2 f_equal. lia.
Qed.

(** Distinct passes, blocks or bins have distinct indices. *)
Lemma spec_index_inj j b k j' b' k' :
  b < nb → k < bins → b' < nb → k' < bins →
  spec_index l nb bins j b k = spec_index l nb bins j' b' k' →
  j = j' ∧ b = b' ∧ k = k'.
Proof.
  intros Hb Hk Hb' Hk' Heq. destruct l; simpl in Heq; simplify_eq.
  - destruct (row_major_inj bins (j * nb + b) (j' * nb + b') k k')
      as [Hr ->]; [done | done | lia |].
    destruct (row_major_inj nb j j' b b') as [-> ->]; done.
  - destruct (row_major_inj bins j j' k k') as [-> ->]; done.
  - destruct (row_major_inj bins b b' k k') as [-> ->]; done.
  - destruct (row_major_inj nb j j' b b') as [-> ->]; done.
Qed.

End Positions.

(** What a pass leaves in the array. *)
Lemma fill_result (self : LGBPHS) (blocks : array2 float64) (l : layout)
    (nb bins jet j : nat) (a : ndarray) :
  split self = split_of l →
  n_bins self = Some bins → n_blocks self = Some nb →
  a2_rows blocks = nb → a2_cols blocks = bins →
  j < jet → in_layout l nb bins jet a →
  ∃ a', _fill self a blocks j = Ok a' ∧
        in_layout l nb bins jet a' ∧
        (∀ b k, b < nb → k < bins →
           get a' (spec_index l nb bins j b k) = Some (a2_at blocks b k)) ∧
        (∀ index, (∀ b k, b < nb → k < bins →
                     index ≠ spec_index l nb bins j b k) →
           get a' index = get a index).
Proof.
  intros Hsplit Hbins Hblocks Hrows Hcols Hj Ha.
  destruct (fill_writes self blocks l nb bins jet j
              Hsplit Hbins Hblocks Hrows Hcols Hj a Ha) as [Hfill Ha'].
  eexists. split; [exact Hfill|]. split; [done|].
  destruct Ha as [Hsh Hw], Ha' as [Hsh' Hw'].
  pose proof (length_spec_shape _ _ _ _ _ Hsh Hw) as Hlen.
  assert (Hrow : ∀ b, length (block_row blocks b) = bins).
  { intros b. by rewrite length_block_row. }
  assert (Hbound : ∀ b, b < nb →
            flat_offset l nb bins jet j b + bins ≤ length (data_of a)).
  { intros b Hb. rewrite Hlen. by apply flat_offset_bound. }
  split.
  - intros b k Hb Hk.
    rewrite get_position, Hsh', position_spec_index by done. simpl.
    rewrite data_of_set_data.
    rewrite (lookup_write_blocks_in _ _ bins); try done.
    + apply lookup_block_row. lia.
    + intros b1 b2 ? ?. left. by apply flat_offset_mono.
  - intros index Hfree.
    rewrite !get_position, Hsh', Hsh by done.
    destruct (position (spec_shape l nb bins jet) index) as [p|] eqn:Hp;
      simpl; [|done].
    rewrite data_of_set_data.
    apply (lookup_write_blocks_out _ _ bins); try done.
    intros b Hb.
    destruct (decide (p < flat_offset l nb bins jet j b)); [by left|].
    destruct (decide (flat_offset l nb bins jet j b + bins ≤ p)); [by right|].
    destruct (position_in_row l nb bins jet index p j b)
      as (k & Hk & Hindex); [done | done | done | lia | lia |].
    by destruct (Hfree b k).
Qed.

(** C2: in every split mode, a pass [j] stores bin [k] of the histogram of
    block [b] at the index of the specification, for every block and bin,
    and changes nothing else: the flat range from
    [j*n_bins*n_blocks + b*n_bins] for split None, row [b] from column
    [j*n_bins] for "blocks", row [j] from column [b*n_bins] for
    "wavelets", and row [j*n_blocks + b] for "both". *)
Theorem fill_positions (self : LGBPHS) (blocks : array2 float64) (l : layout)
    (nb bins jet j : nat) (a : ndarray) :
  split self = split_of l →
  n_bins self = Some bins → n_blocks self = Some nb →
  a2_rows blocks = nb → a2_cols blocks = bins →
  j < jet →
  shape a = spec_shape l nb bins jet → well_shaped a →
  ∃ a', _fill self a blocks j = Ok a' ∧
        shape a' = shape a ∧
        (∀ b k, b < nb → k < bins →
           get a' (spec_index l nb bins j b k) = Some (a2_at blocks b k)) ∧
        (∀ index, (∀ b k, b < nb → k < bins →
                     index ≠ spec_index l nb bins j b k) →
           get a' index = get a index).
Proof.
  intros Hsplit Hbins Hblocks Hrows Hcols Hj Hsh Hw.
  destruct (fill_result self blocks l nb bins jet j a)
    as (a' & Hfill & [Hsh' _] & Hin & Hout); try done.
  exists a'. rewrite Hsh', Hsh. done.
Qed.

(** ** The instance monad *)

Lemma M_bind_run {A B : Type} (m : M A) (f : A → M B) (st : LGBPHS) :
  (m ≫= f) st =
  match m st with
  | (st', Ok a) => f a st'
  | (st', Raise e) => (st', Raise e)
  end.
Proof. done. Qed.

Lemma for_each_M_app {A S : Type} (l1 l2 : list A) (body : A → S → M S) (s : S)
    (st : LGBPHS) :
  for_each_M (l1 ++ l2) body s st =
  match for_each_M l1 body s st with
  | (st', Ok s') => for_each_M l2 body s' st'
  | (st', Raise e) => (st', Raise e)
  end.
Proof.
  revert s st. induction l1 as [|x l1 IH]; intros s st; simpl; [done|].
  rewrite !M_bind_run. destruct (body x s st) as [st' [s'|e]]; [apply IH | done].
Qed.


(** The body of the loop, state by state. *)
Lemma plane_body_run `{Backend} (jet j : nat) (oarr : option ndarray)
    (log : list pass) (st : LGBPHS) :
  plane_body jet j (oarr, log) st =
  match trafo_plane st j with
  | Raise e => (st, Raise e)
  | Ok plane =>
      let abs_blocks :=
        lbphs (numpy_abs plane) (lbp st) (block_size st) (block_overlap st) in
      let st1 :=
        set_n_blocks (a2_rows abs_blocks) (set_n_bins (a2_cols abs_blocks) st) in
      match output_shape st1 jet with
      | Raise e => (st1, Raise e)
      | Ok sh =>
          match _fill st1 (default (numpy_ndarray sh) oarr) abs_blocks j with
          | Raise e => (st1, Raise e)
          | Ok a =>
              if use_phases st1 then
                match trafo_plane st1 j with
                | Raise e => (st1, Raise e)
                | Ok plane' =>
                    match _fill st1 a
                            (lbphs (numpy_angle plane') (lbp st1)
                                   (block_size st1) (block_overlap st1))
                            (j + number_of_wavelets (gwt st1)) with
                    | Raise e => (st1, Raise e)
                    | Ok a' =>
                        (st1, Ok (Some a', (log ++ [Magnitude j]) ++ [Phase j]))
                    end
                end
              else (st1, Ok (Some a, log ++ [Magnitude j]))
          end
      end
  end.
Proof.
  unfold plane_body.
  unfold mbind, M_bind, get_self, lift, update, mret, M_ret.
  destruct (trafo_plane st j) as [plane|e]; [|done]. cbv zeta.
  destruct (output_shape _ jet) as [sh|e]; [|done].
  assert (Hd : ∀ x, match oarr with Some array => array | None => x end
               = default x oarr) by (by destruct oarr).
  rewrite Hd.
  destruct (_fill _ _ _ j) as [a|e]; [|done].
  destruct (use_phases _); [|done].
  destruct (trafo_plane _ j) as [plane'|e]; [|done].
  by destruct (_fill _ _ _ _).
Qed.

(** ** A call on histograms of one shape *)

Lemma for_each_M_one {A S : Type} (x : A) (body : A → S → M S) (s : S)
    (st : LGBPHS) :
  for_each_M [x] body s st = body x s st.
Proof.
  simpl. rewrite M_bind_run. by destruct (body x s st) as [st' [s'|e]].
Qed.

Lemma trafo_plane_response `{Backend} (self st : LGBPHS) (image : ndimage) (j : nat) :
  trafo_image st = Some (response self image) →
  j < number_of_wavelets (gwt self) →
  trafo_plane st j = Ok (response_plane self image j).
Proof.
  intros Ht Hj. unfold trafo_plane. rewrite Ht. simpl.
  by rewrite decide_True.
Qed.

Lemma jet_length_bound (self : LGBPHS) (j : nat) :
  j < number_of_wavelets (gwt self) →
  j < jet_length self ∧
  (use_phases self = true → j + number_of_wavelets (gwt self) < jet_length self).
Proof. intros Hj. unfold jet_length. destruct (use_phases self); split; (done || lia). Qed.

Section Agree.
Context `{Backend} (self : LGBPHS) (image : ndimage) (l : layout) (nb bins : nat).
Hypothesis split_l : split self = split_of l.
Hypothesis agree : histograms_agree self image nb bins.

Lemma output_shape_after :
  ∃ sh, output_shape (after_call self image nb bins) (jet_length self) = Ok sh ∧
        in_layout l nb bins (jet_length self) (numpy_ndarray sh).
Proof.
  unfold output_shape. cbn. rewrite split_l.
  destruct l; simpl; eexists; (split; [done|]); split; simpl;
    rewrite ?length_fmap; unfold range; rewrite ?length_seq; done.
Qed.

Lemma plane_body_agree j oarr log ob onb :
  j < number_of_wavelets (gwt self) →
  (∀ a, oarr = Some a → in_layout l nb bins (jet_length self) a) →
  ∃ a',
    plane_body (jet_length self) j (oarr, log)
      (set_counts ob onb (set_trafo_image (Some (response self image)) self))
    = (after_call self image nb bins, Ok (Some a', log ++ passes_of self j)) ∧
    in_layout l nb bins (jet_length self) a' ∧
    (∀ b k, b < nb → k < bins →
       get a' (spec_index l nb bins j b k)
       = Some (a2_at (magnitude_blocks self image j) b k)) ∧
    (use_phases self = true → ∀ b k, b < nb → k < bins →
       get a' (spec_index l nb bins (j + number_of_wavelets (gwt self)) b k)
       = Some (a2_at (phase_blocks self image j) b k)) ∧
    (∀ a index, oarr = Some a →
       (∀ j' b k, j' = j ∨ j' = j + number_of_wavelets (gwt self) →
          b < nb → k < bins → index ≠ spec_index l nb bins j' b k) →
       get a' index = get a index).
Proof.
  intros Hj Harr.
  destruct (agree j Hj) as (Hrows & Hcols & Hphase).
  destruct (jet_length_bound self j Hj) as [Hjet Hjet'].
  destruct output_shape_after as (sh & Hsh & Hfresh).
  rewrite plane_body_run.
  rewrite (trafo_plane_response self _ image j) by done.
  cbv zeta.
  change (lbphs (numpy_abs (response_plane self image j)) _ _ _)
    with (magnitude_blocks self image j).
  rewrite Hrows, Hcols.
  change (set_n_blocks nb (set_n_bins bins (set_counts ob onb _)))
    with (after_call self image nb bins).
  rewrite Hsh.
  assert (Ha0 : in_layout l nb bins (jet_length self) (default (numpy_ndarray sh) oarr)).
  { destruct oarr; simpl; auto. }
  destruct (fill_result (after_call self image nb bins)
              (magnitude_blocks self image j) l nb bins (jet_length self) j
              (default (numpy_ndarray sh) oarr))
    as (a1 & -> & Ha1 & Hin1 & Hout1); try done.
  change (use_phases (after_call self image nb bins)) with (use_phases self).
  unfold passes_of.
  destruct (use_phases self) eqn:Hup.
  - destruct Hphase as [Hprows Hpcols]; [done|].
    rewrite (trafo_plane_response self _ image j) by done.
    change (lbphs (numpy_angle (response_plane self image j)) _ _ _)
      with (phase_blocks self image j).
    change (gwt (after_call self image nb bins)) with (gwt self).
    destruct (fill_result (after_call self image nb bins)
                (phase_blocks self image j) l nb bins (jet_length self)
                (j + number_of_wavelets (gwt self)) a1)
      as (a2 & -> & Ha2 & Hin2 & Hout2); try done; [by apply Hjet'|].
    exists a2. split; [by rewrite <- app_assoc|]. split; [done|].
    split; [|split].
    + intros b k Hb Hk. rewrite Hout2; [by apply Hin1|].
      intros b' k' Hb' Hk' Heq.
      apply spec_index_inj in Heq as (? & _); [lia | done..].
    + intros _ b k Hb Hk. by apply Hin2.
    + intros a index -> Hfree. simpl in Hout1.
      rewrite Hout2, Hout1; [done | |]; intros b k Hb Hk; apply Hfree; auto.
  - exists a1. split; [done|]. split; [done|].
    split; [done|]. split; [done|].
    intros a index -> Hfree. simpl in Hout1.
    rewrite Hout1; [done|]. intros b k Hb Hk. apply Hfree; auto.
Qed.

Lemma planes_agree n :
  n ≤ number_of_wavelets (gwt self) →
  ∃ oarr st,
    for_each_M (range n) (plane_body (jet_length self)) (None, [])
      (set_trafo_image (Some (response self image)) self)
    = (st, Ok (oarr, flat_map (passes_of self) (range n))) ∧
    (n = 0 → oarr = None ∧
             st = set_trafo_image (Some (response self image)) self) ∧
    (0 < n → st = after_call self image nb bins ∧
       ∃ a, oarr = Some a ∧ in_layout l nb bins (jet_length self) a ∧
            ∀ slot b k, written self n slot → b < nb → k < bins →
              get a (spec_index l nb bins slot b k)
              = Some (a2_at (pass_blocks self image slot) b k)).
Proof.
  induction n as [|n IH]; intros Hn.
  { exists None, (set_trafo_image (Some (response self image)) self).
    split; [done|]. split; [done | lia]. }
  destruct IH as (oarr & st & Hloop & Hzero & Hpos); [lia|].
  rewrite range_S, for_each_M_app, Hloop, flat_map_app.
  change (flat_map (passes_of self) [n]) with (passes_of self n ++ []).
  rewrite app_nil_r, for_each_M_one.
  assert (Hst : ∃ ob onb, st = set_counts ob onb
                  (set_trafo_image (Some (response self image)) self)).
  { destruct n.
    - destruct Hzero as [_ ->]; [done|]. by exists (n_bins self), (n_blocks self).
    - destruct Hpos as [-> _]; [lia|]. by exists (Some bins), (Some nb). }
  destruct Hst as (ob & onb & ->).
  destruct (plane_body_agree n oarr (flat_map (passes_of self) (range n)) ob onb)
    as (a' & -> & Ha' & Hmag & Hpha & Hold); [lia | |].
  { intros a ->. destruct n; [by destruct Hzero | ].
    destruct Hpos as (_ & a0 & ? & ? & _); [lia|]. by simplify_eq. }
  exists (Some a'), (after_call self image nb bins).
  split; [done|]. split; [lia|]. intros _. split; [done|].
  exists a'. split; [done|]. split; [done|].
  intros slot b k Hslot Hb Hk. unfold pass_blocks.
  destruct (decide (slot = n)) as [->|Hne].
  { rewrite decide_True by lia. by apply Hmag. }
  destruct (decide (slot = n + number_of_wavelets (gwt self))) as [->|Hne'].
  { rewrite decide_False by lia.
    replace (n + number_of_wavelets (gwt self) - number_of_wavelets (gwt self))
      with n by lia.
    destruct Hslot as [?|[Hup _]]; [lia|]. by apply Hpha. }
  assert (Hbefore : written self n slot).
  { destruct Hslot as [?|(? & ? & ?)]; [left; lia | right; split; [done | lia]]. }
  destruct n as [|n]; [destruct Hbefore as [?|(? & ? & ?)]; lia|].
  destruct Hpos as (_ & a & -> & Ha & Hget); [lia|].
  rewrite (Hold a _ eq_refl).
  - rewrite Hget by done. done.
  - intros j' b' k' Hj' Hb' Hk' Heq.
    apply spec_index_inj in Heq as (? & _); [lia | done..].
Qed.

End Agree.

(** ** Any call *)

Section Run.
Context `{Backend} (self : LGBPHS) (image : ndimage).

(** Whatever a plane does, it leaves its counts in the instance; when it
    returns, it has made its passes and there is an array. *)
Lemma plane_body_any jet j oarr log ob onb st r :
  j < number_of_wavelets (gwt self) →
  plane_body jet j (oarr, log) (primed self image ob onb) = (st, r) →
  st = counted self image j ∧
  ∀ oarr' log', r = Ok (oarr', log') →
    is_Some oarr' ∧ log' = log ++ passes_of self j.
Proof.
  intros Hj. rewrite plane_body_run.
  rewrite (trafo_plane_response self _ image j) by done.
  cbv zeta.
  change (lbphs (numpy_abs (response_plane self image j)) _ _ _)
    with (magnitude_blocks self image j).
  change (set_n_blocks _ (set_n_bins _ (primed self image ob onb))) with (counted self image j).
  destruct (output_shape _ _) as [sh|e]; [|by intros [= <- <-]].
  destruct (_fill _ _ _ j) as [a|e]; [|by intros [= <- <-]].
  change (use_phases (counted self image j)) with (use_phases self).
  unfold passes_of.
  destruct (use_phases self).
  - rewrite (trafo_plane_response self _ image j) by done.
    destruct (_fill _ _ _ _) as [a'|e]; intros [= <- <-]; [|done].
    split; [done|]. intros ? ? [= <- <-]. by rewrite <- app_assoc.
  - intros [= <- <-]. split; [done|]. by intros ? ? [= <- <-].
Qed.

Lemma planes_any n st r :
  n ≤ number_of_wavelets (gwt self) →
  for_each_M (range n) (plane_body (jet_length self)) (None, [])
    (primed self image (n_bins self) (n_blocks self)) = (st, r) →
  (n = 0 → st = primed self image (n_bins self) (n_blocks self) ∧ r = Ok (None, [])) ∧
  (0 < n →
     (∃ j, j < n ∧ st = counted self image j ∧ (∀ x, r = Ok x → j = n - 1)) ∧
     ∀ oarr log, r = Ok (oarr, log) →
       is_Some oarr ∧ log = flat_map (passes_of self) (range n)).
Proof.
  revert st r. induction n as [|n IH]; intros st r Hn.
  { intros [= <- <-]. split; [done | lia]. }
  intros Hrun. rewrite range_S, for_each_M_app in Hrun.
  destruct (for_each_M (range n) _ _ _) as [st1 r1] eqn:Hloop.
  destruct (IH st1 r1) as [Hzero Hpos]; [lia | done |].
  split; [lia|]. intros _.
  destruct r1 as [[oarr log]|e].
  - rewrite for_each_M_one in Hrun.
    assert (∃ ob onb, st1 = primed self image ob onb) as (ob & onb & ->).
    { destruct n; [destruct Hzero as [-> _]; eauto|].
      destruct Hpos as [(j & _ & -> & _) _]; [lia|]. eauto. }
    destruct (plane_body_any (jet_length self) n oarr log ob onb st r)
      as [-> Hok]; [lia | done |].
    split.
    + exists n. split; [lia|]. split; [done|]. intros; lia.
    + intros oarr' log' ->. destruct (Hok _ _ eq_refl) as [? ->].
      split; [done|]. rewrite range_S, flat_map_app. simpl. rewrite app_nil_r.
      f_equal. destruct n; [by destruct Hzero as [_ [= -> ->]]|].
      destruct Hpos as [_ Hlog]; [lia|]. by destruct (Hlog _ _ eq_refl).
  - injection Hrun as <- <-.
    destruct n; [by destruct Hzero as [_ ?]|].
    destruct Hpos as [(j & Hj & -> & _) _]; [lia|].
    split; [|done]. exists j. split; [lia|]. done.
Qed.

End Run.

(** ** Input validation and the transform buffer *)

Section Prelude.
Context `{Backend} (self : LGBPHS) (image : ndimage).

(** [assemble], state by state. *)
Lemma assemble_run :
  assemble image self =
  if bool_decide (ndim image = 2) then
    if bool_decide (im_dtype image = dt_float64) then
      let st0 :=
        if needs_buffer self image then
          set_trafo_image
            (Some {| t_planes := number_of_wavelets (gwt self);
                     t_height := im_shape image !!! 0;
                     t_width := im_shape image !!! 1;
                     t_at := uninitialized_complex |}) self
        else self in
      match trafo_image st0 with
      | None => (st0, Raise TypeError)
      | Some t =>
          let st1 :=
            set_trafo_image
              (Some {| t_planes := t_planes t; t_height := t_height t;
                       t_width := t_width t;
                       t_at := gwt_response (gwt st0) image |}) st0 in
          for_each_M (range (number_of_wavelets (gwt st1)))
                     (plane_body (jet_length st1)) (None, []) st1
      end
    else (self, Raise AssertionError)
  else (self, Raise AssertionError).
Proof.
  unfold assemble, transform, assert.
  unfold mbind, M_bind, lift, get_self, update, mret, M_ret.
  destruct (bool_decide (ndim image = 2)); [|done].
  destruct (bool_decide (im_dtype image = dt_float64)); [|done].
  destruct (needs_buffer self image); cbv zeta; [done|].
  by destruct (trafo_image self).
Qed.

Lemma assemble_invalid :
  ¬ valid_image image → assemble image self = (self, Raise AssertionError).
Proof.
  intros Hinv. rewrite assemble_run.
  case_bool_decide as Hdim; [|done]. case_bool_decide as Hty; [|done].
  by destruct Hinv.
Qed.

(** On a valid image the planes are processed on the instance that holds
    the new transform. *)
Lemma assemble_valid :
  valid_image image → cache_ok self →
  assemble image self =
  for_each_M (range (number_of_wavelets (gwt self)))
             (plane_body (jet_length self)) (None, [])
             (primed self image (n_bins self) (n_blocks self)).
Proof.
  intros [Hdim Hty] Hcache. rewrite assemble_run.
  rewrite (bool_decide_eq_true_2 _ Hdim), (bool_decide_eq_true_2 _ Hty).
  unfold needs_buffer.
  destruct (trafo_image self) as [t|] eqn:Ht; [|done].
  case_bool_decide as Hshape; [done|].
  cbv zeta. rewrite Ht.
  assert (set_trafo_image
            (Some {| t_planes := t_planes t; t_height := t_height t;
                     t_width := t_width t;
                     t_at := gwt_response (gwt self) image |}) self
          = primed self image (n_bins self) (n_blocks self)) as ->; [|done].
  unfold primed, response. rewrite <- Hshape, (Hcache t Ht). done.
Qed.

Lemma call_run :
  __call__ image self =
  match assemble image self with
  | (st, Ok (lgbphs_array, _)) => (st, _sparsify st lgbphs_array)
  | (st, Raise e) => (st, Raise e)
  end.
Proof.
  unfold __call__. rewrite M_bind_run.
  by destruct (assemble image self) as [st [[a log]|e]].
Qed.

End Prelude.

(** ** The call as a whole *)

Lemma output_shape_unknown (st : LGBPHS) (jet : nat) :
  (∀ l, split st ≠ split_of l) → output_shape st jet = Raise ValueError.
Proof.
  intros Hsplit. unfold output_shape.
  destruct (split st) as [mode|] eqn:Hmode; [|by destruct (Hsplit Flat)].
  destruct (String.eqb mode "blocks") eqn:Hb.
  { apply String.eqb_eq in Hb as ->. by destruct (Hsplit ByBlocks). }
  destruct (String.eqb mode "wavelets") eqn:Hw.
  { apply String.eqb_eq in Hw as ->. by destruct (Hsplit ByWavelets). }
  destruct (String.eqb mode "both") eqn:Hbo; [|done].
  apply String.eqb_eq in Hbo as ->. by destruct (Hsplit ByBoth).
Qed.

Lemma sparsify_in_layout (st : LGBPHS) (l : layout) (nb bins jet : nat) a :
  split st = split_of l → options_ok st → in_layout l nb bins jet a →
  ∃ out, _sparsify st (Some a) = Ok (Some out).
Proof.
  intros Hsplit Hopt [Hsh _]. unfold options_ok in Hopt.
  destruct (sparse st) eqn:Hsparse.
  - rewrite Hsplit in Hopt. destruct l; try done.
    destruct a as [d|]; [|done].
    destruct (sparsify_dense_result st d Hsparse) as (acc & _ & ->). eauto.
  - exists a. unfold _sparsify. by rewrite Hsparse.
Qed.

Section WholeCall.
Context `{Backend} (self : LGBPHS) (image : ndimage).
Hypothesis image_ok : valid_image image.
Hypothesis cache : cache_ok self.
Hypothesis wavelets : 1 ≤ number_of_wavelets (gwt self).

(** A call on histograms of one shape assembles the whole jet. *)
Lemma assemble_agree (l : layout) (nb bins : nat) :
  split self = split_of l → histograms_agree self image nb bins →
  ∃ a,
    assemble image self
    = (after_call self image nb bins,
       Ok (Some a, flat_map (passes_of self)
                            (range (number_of_wavelets (gwt self))))) ∧
    in_layout l nb bins (jet_length self) a ∧
    ∀ slot b k, slot < jet_length self → b < nb → k < bins →
      get a (spec_index l nb bins slot b k)
      = Some (a2_at (pass_blocks self image slot) b k).
Proof.
  intros Hsplit Hagree.
  destruct (planes_agree self image l nb bins Hsplit Hagree
              (number_of_wavelets (gwt self)))
    as (oarr & st & Hloop & _ & Hpos); [done|].
  destruct Hpos as (-> & a & -> & Ha & Hget); [lia|].
  exists a. split; [by rewrite assemble_valid|]. split; [done|].
  intros slot b k Hslot. apply Hget. unfold written.
  unfold jet_length in Hslot. destruct (use_phases self); [|left; lia].
  destruct (decide (slot < number_of_wavelets (gwt self))); [by left|].
  right. split; [done | lia].
Qed.

(** Whatever the histograms, a call that gets past the validation leaves
    the new transform and the counts of one of the planes. *)
Lemma call_any st r :
  __call__ image self = (st, r) →
  ∃ j, j < number_of_wavelets (gwt self) ∧ st = counted self image j ∧
       (∀ out, r = Ok out → j = number_of_wavelets (gwt self) - 1).
Proof.
  rewrite call_run, assemble_valid by done.
  destruct (for_each_M _ _ _ _) as [st1 r1] eqn:Hloop.
  destruct (planes_any self image _ st1 r1 (le_n _) Hloop) as [_ Hpos].
  destruct Hpos as [(j & Hj & -> & Hlast) _]; [lia|].
  destruct r1 as [[oarr log]|e]; intros [= <- <-].
  - exists j. split; [done|]. split; [done|]. intros _ _. by eapply Hlast.
  - exists j. split; [done|]. split; [done|]. done.
Qed.

(** With a split the extractor does not know, the first plane raises. *)
Lemma call_unknown_split :
  (∀ l, split self ≠ split_of l) →
  __call__ image self = (counted self image 0, Raise ValueError).
Proof.
  intros Hsplit. rewrite call_run, assemble_valid by done.
  destruct (number_of_wavelets (gwt self)) as [|n] eqn:Hw; [lia|].
  change (range (S n)) with (0 :: seq 1 n). cbn [for_each_M].
  rewrite M_bind_run, plane_body_run.
  rewrite (trafo_plane_response self _ image 0) by (done || lia).
  cbv zeta.
  change (set_n_blocks _ (set_n_bins _ (primed self image _ _)))
    with (counted self image 0).
  by rewrite output_shape_unknown.
Qed.

End WholeCall.

(** ** The instances a program can hold *)

(** X13: A constructed instance has no buffer and no counts yet, and its
    output options are compatible. *)
Lemma init_establishes (a : init_args) (self : LGBPHS) :
  __init__ a = Ok self →
  cache_ok self ∧ options_ok self ∧
  trafo_image self = None ∧ n_bins self = None ∧ n_blocks self = None.
Proof.
  unfold __init__. intros Hinit.
  apply bind_Ok_inv in Hinit as (size0 & _ & Hinit).
  apply bind_Ok_inv in Hinit as (overlap0 & _ & Hinit).
  apply bind_Ok_inv in Hinit as ([] & _ & Hinit); [done|].
  destruct (sparse_histogram a && truthy (split_histogram a)) eqn:Hopt; [done|].
  injection Hinit as <-. by repeat split.
Qed.

(** X12: A call, whatever its outcome, keeps the configuration and the two
    invariants. *)
Lemma call_preserves `{Backend} (self st : LGBPHS) (image : ndimage)
    (r : result (option ndarray)) :
  cache_ok self → __call__ image self = (st, r) →
  cache_ok st ∧ gwt st = gwt self ∧ split st = split self ∧
  sparse st = sparse self ∧ use_phases st = use_phases self.
Proof.
  intros Hcache. rewrite call_run.
  destruct (decide (valid_image image)) as [Hvalid|Hinvalid].
  - rewrite assemble_valid by done.
    destruct (for_each_M _ _ _ _) as [st1 r1] eqn:Hloop.
    destruct (planes_any self image _ st1 r1 (le_n _) Hloop) as [Hzero Hpos].
    assert (∃ ob onb, st1 = primed self image ob onb) as (ob & onb & ->).
    { destruct (number_of_wavelets (gwt self)).
      - destruct Hzero as [-> _]; eauto.
      - destruct Hpos as [(j & _ & -> & _) _]; [lia|]. unfold counted. eauto. }
    intros Hcall.
    assert (st = primed self image ob onb) as ->.
    { by destruct r1 as [[oarr log]|e]; injection Hcall as <- _. }
    split; [|done]. by intros t [= <-].
  - rewrite assemble_invalid by done. by intros [= <- <-].
Qed.


(** ** The instances of the examples *)

Lemma example_instance_init sp sparse phases :
  sparse && truthy sp = false →
  __init__ (example_args sp sparse phases)
  = Ok (example_instance sp sparse phases).
Proof.
  intros Hopt. unfold __init__. simpl. by rewrite Hopt.
Qed.

(** ** Input validation *)

(** C8, as the extractor has it: an image that is not 2-D or whose
    elements are not float64 makes the call raise the assertion error,
    and the instance is left as it was; emptiness is not looked at. *)
Theorem call_rejects_invalid_image `{Backend} (self : LGBPHS) (image : ndimage) :
  ndim image ≠ 2 ∨ im_dtype image ≠ dt_float64 →
  __call__ image self = (self, Raise AssertionError).
Proof.
  intros Hbad. rewrite call_run, assemble_invalid; [done|].
  intros [? ?]. by destruct Hbad.
Qed.

Lemma call_rejects_invalid_image_witness :
  @__call__ tiles_backend int_image (example_instance None false false)
  = (example_instance None false false, Raise AssertionError).
Proof.
  apply (@call_rejects_invalid_image tiles_backend).
  right. discriminate.
Defined.

(** Against C8 as the specification words it: an empty 2-D float64 image
    passes the assertions, and with a backend that accepts it the call
    returns an output. *)
Lemma call_accepts_empty_image :
  im_shape empty_image = [0; 0] ∧
  (@__call__ tiles_backend empty_image (example_instance None false false)).2
  = Ok (Some (Array1 [])).
Proof. split; reflexivity. Qed.

(** ** Counts of blocks and bins *)

(** C1, as the extractor has it: the counts are not compared. The
    magnitude histograms of each plane overwrite [n_bins] and [n_blocks],
    so a call that returns leaves the counts of the last plane; and when
    every plane and both passes give the same counts, the call returns its
    output and leaves these counts. *)
Theorem call_counts `{Backend} (self : LGBPHS) (image : ndimage)
    (l : layout) (nb bins : nat) :
  valid_image image → cache_ok self → options_ok self →
  1 ≤ number_of_wavelets (gwt self) →
  (∀ st out, __call__ image self = (st, Ok out) →
     n_bins st = Some (a2_cols (magnitude_blocks self image
                                  (number_of_wavelets (gwt self) - 1))) ∧
     n_blocks st = Some (a2_rows (magnitude_blocks self image
                                    (number_of_wavelets (gwt self) - 1)))) ∧
  (split self = split_of l → histograms_agree self image nb bins →
   ∃ st out, __call__ image self = (st, Ok (Some out)) ∧
             n_bins st = Some bins ∧ n_blocks st = Some nb).
Proof.
  intros Himage Hcache Hopt Hw. split.
  - intros st out Hcall.
    destruct (call_any self image Himage Hcache Hw st _ Hcall)
      as (j & _ & -> & Hlast).
    by rewrite (Hlast out eq_refl).
  - intros Hsplit Hagree.
    destruct (assemble_agree self image Himage Hcache Hw l nb bins Hsplit Hagree)
      as (a & Hasm & Ha & _).
    destruct (sparsify_in_layout (after_call self image nb bins) l nb bins
                (jet_length self) a Hsplit Hopt Ha) as (out & Hout).
    exists (after_call self image nb bins), out.
    by rewrite call_run, Hasm, Hout.
Qed.

Lemma call_counts_witness :
  ∃ st out,
    @__call__ tiles_backend example_image (example_instance None false true)
    = (st, Ok (Some out)) ∧ n_bins st = Some 3 ∧ n_blocks st = Some 4.
Proof.
  apply (@call_counts tiles_backend (example_instance None false true)
           example_image Flat 4 3).
  - split; reflexivity.
  - intros t Ht. discriminate Ht.
  - reflexivity.
  - unfold number_of_wavelets. simpl. lia.
  - reflexivity.
  - intros j Hj. repeat split.
Defined.

(** Against C1 as the specification words it: here plane 0 gives two
    blocks and plane 1 one block, no error is raised, and the histogram
    of plane 1 is written over the one of block 1 of plane 0 (whose entry
    was 11). *)
Lemma call_accepts_uneven_histograms :
  a2_rows (@magnitude_blocks uneven_backend
             (example_instance None false false) example_image 0) = 2 ∧
  a2_rows (@magnitude_blocks uneven_backend
             (example_instance None false false) example_image 1) = 1 ∧
  a2_at (@magnitude_blocks uneven_backend
           (example_instance None false false) example_image 0) 1 0
  = 11%float ∧
  (@__call__ uneven_backend example_image (example_instance None false false)).2
  = Ok (Some (Array1 [1; 101; -1; -1]%float)).
Proof. repeat split; reflexivity. Qed.

(** ** The shape of the output *)

(** C3: on histograms of [nb] blocks and [bins] bins the call assembles
    an array of the shape of the split mode - (nb*bins*jet,) for None,
    (nb, bins*jet) for "blocks", (jet, bins*nb) for "wavelets" and
    (jet*nb, bins) for "both" - and returns it, sparsified when [sparse]
    is set; with any other split the call raises the value error. *)
Theorem call_shape `{Backend} (self : LGBPHS) (image : ndimage) (nb bins : nat) :
  valid_image image → cache_ok self →
  1 ≤ number_of_wavelets (gwt self) →
  (∀ l, split self = split_of l → histograms_agree self image nb bins →
     ∃ st a,
       shape a = spec_shape l nb bins (jet_length self) ∧
       well_shaped a ∧
       __call__ image self = (st, _sparsify st (Some a)) ∧
       (sparse self = false → __call__ image self = (st, Ok (Some a)))) ∧
  ((∀ l, split self ≠ split_of l) →
     ∃ st, __call__ image self = (st, Raise ValueError)).
Proof.
  intros Himage Hcache Hw. split.
  - intros l Hsplit Hagree.
    destruct (assemble_agree self image Himage Hcache Hw l nb bins Hsplit Hagree)
      as (a & Hasm & [Hsh Hwell] & _).
    exists (after_call self image nb bins), a.
    split; [done|]. split; [done|].
    assert (__call__ image self
            = (after_call self image nb bins,
               _sparsify (after_call self image nb bins) (Some a))) as Hcall.
    { by rewrite call_run, Hasm. }
    split; [done|]. intros Hsparse. rewrite Hcall.
    unfold _sparsify. cbn [sparse after_call set_n_blocks set_n_bins set_trafo_image].
    by rewrite Hsparse.
  - intros Hsplit. eexists. by apply call_unknown_split.
Qed.

Lemma call_shape_witness :
  ∃ st a,
    shape a = [2 * 4; 3] ∧
    @__call__ tiles_backend example_image
       (example_instance (Some "both") false false)
    = (st, Ok (Some a)).
Proof.
  destruct (@call_shape tiles_backend
              (example_instance (Some "both") false false) example_image 4 3)
    as [Hshape _].
  - split; reflexivity.
  - intros t Ht. discriminate Ht.
  - unfold number_of_wavelets. simpl. lia.
  - destruct (Hshape ByBoth) as (st & a & Hsh & _ & _ & Hcall).
    + reflexivity.
    + intros j Hj. repeat split.
    + exists st, a. split; [exact Hsh | apply Hcall; reflexivity].
Defined.

(** ** Magnitudes and phases *)

(** C4: there are scales times directions wavelets; the jet has one pass
    per wavelet, and two with [use_phases]; then, for split None, pass [j]
    holds the magnitude histograms of plane [j] and pass [j + wavelets] -
    the second half - the phase histograms of plane [j], and for every
    plane the magnitude pass is made before the phase pass. *)
Theorem phase_toggle `{Backend} (self : LGBPHS) (image : ndimage) (nb bins : nat) :
  valid_image image → cache_ok self →
  1 ≤ number_of_wavelets (gwt self) →
  split self = None → histograms_agree self image nb bins →
  number_of_wavelets (gwt self)
  = number_of_scales (gwt self) * number_of_directions (gwt self) ∧
  (use_phases self = false → jet_length self = number_of_wavelets (gwt self)) ∧
  (use_phases self = true →
     jet_length self = 2 * number_of_wavelets (gwt self) ∧
     ∃ st a,
       assemble image self
       = (st, Ok (Some a, flat_map (λ j, [Magnitude j; Phase j])
                                   (range (number_of_wavelets (gwt self))))) ∧
       __call__ image self = (st, _sparsify st (Some a)) ∧
       shape a = [nb * bins * (2 * number_of_wavelets (gwt self))] ∧
       ∀ j b k, j < number_of_wavelets (gwt self) → b < nb → k < bins →
         get1 a (j * bins * nb + b * bins + k)
         = Some (a2_at (magnitude_blocks self image j) b k) ∧
         get1 a ((j + number_of_wavelets (gwt self)) * bins * nb + b * bins + k)
         = Some (a2_at (phase_blocks self image j) b k)).
Proof.
  intros Himage Hcache Hw Hsplit Hagree. split; [done|]. split.
  { intros Hup. unfold jet_length. rewrite Hup. lia. }
  intros Hup. split.
  { unfold jet_length. rewrite Hup. lia. }
  destruct (assemble_agree self image Himage Hcache Hw Flat nb bins Hsplit Hagree)
    as (a & Hasm & [Hsh Hwell] & Hget).
  assert (Hjet : jet_length self = 2 * number_of_wavelets (gwt self)).
  { unfold jet_length. rewrite Hup. lia. }
  exists (after_call self image nb bins), a. split; [|split; [|split]].
  - rewrite Hasm. do 3 f_equal. apply flat_map_ext.
    intros j. unfold passes_of. by rewrite Hup.
  - by rewrite call_run, Hasm.
  - rewrite Hsh. simpl. by rewrite Hjet.
  - intros j b k Hj Hb Hk. split.
    + specialize (Hget j b k). simpl in Hget. rewrite Hget by lia.
      unfold pass_blocks. by rewrite decide_True.
    + specialize (Hget (j + number_of_wavelets (gwt self)) b k).
      simpl in Hget. rewrite Hget by lia.
      unfold pass_blocks. rewrite decide_False by lia.
      by rewrite Nat.add_sub.
Qed.

Lemma phase_toggle_witness :
  jet_length (example_instance None false true) = 2 * 2 ∧
  ∃ st a,
    @assemble tiles_backend example_image (example_instance None false true)
    = (st, Ok (Some a, [Magnitude 0; Phase 0; Magnitude 1; Phase 1])) ∧
    shape a = [4 * 3 * (2 * 2)] ∧
    get1 a ((1 + 2) * 3 * 4 + 0 * 3 + 0)
    = Some (a2_at (@phase_blocks tiles_backend
                     (example_instance None false true) example_image 1) 0 0).
Proof.
  destruct (@phase_toggle tiles_backend (example_instance None false true)
              example_image 4 3) as (_ & _ & Hon).
  - split; reflexivity.
  - intros t Ht. discriminate Ht.
  - unfold number_of_wavelets. simpl. lia.
  - reflexivity.
  - intros j Hj. repeat split.
  - destruct Hon as (Hjet & st & a & Hasm & _ & Hsh & Hget); [reflexivity|].
    split; [exact Hjet|]. exists st, a.
    split; [exact Hasm|]. split; [exact Hsh|].
    destruct (Hget 1 0 0) as [_ Hphase].
    + unfold number_of_wavelets. simpl. lia.
    + lia.
    + lia.
    + exact Hphase.
Defined.

(** ** The instance after an error *)

(** C10: a call that raises after the transform leaves the instance
    changed: [trafo_image] holds the transform of the new image, and
    [n_bins] and [n_blocks] the counts of the plane that was being
    processed; so it is with a split the extractor does not know, which
    raises the value error on the first plane. *)
Theorem call_error_keeps_mutation `{Backend} (self : LGBPHS) (image : ndimage) :
  valid_image image → cache_ok self →
  1 ≤ number_of_wavelets (gwt self) →
  ((∀ l, split self ≠ split_of l) →
     __call__ image self = (counted self image 0, Raise ValueError)) ∧
  (∀ st e, __call__ image self = (st, Raise e) →
     trafo_image st = Some (response self image) ∧
     ∃ j, j < number_of_wavelets (gwt self) ∧
          n_bins st = Some (a2_cols (magnitude_blocks self image j)) ∧
          n_blocks st = Some (a2_rows (magnitude_blocks self image j))).
Proof.
  intros Himage Hcache Hw. split.
  - by apply call_unknown_split.
  - intros st e Hcall.
    destruct (call_any self image Himage Hcache Hw st _ Hcall)
      as (j & Hj & -> & _).
    split; [done|]. by exists j.
Qed.

Lemma call_error_keeps_mutation_witness :
  trafo_image (example_instance (Some "rows") false false) = None ∧
  n_bins (example_instance (Some "rows") false false) = None ∧
  ∃ st,
    @__call__ tiles_backend example_image
       (example_instance (Some "rows") false false)
    = (st, Raise ValueError) ∧
    trafo_image st
    = Some (@response tiles_backend
              (example_instance (Some "rows") false false) example_image) ∧
    n_bins st = Some 3 ∧ n_blocks st = Some 4.
Proof.
  split; [reflexivity|]. split; [reflexivity|].
  destruct (@call_error_keeps_mutation tiles_backend
              (example_instance (Some "rows") false false) example_image)
    as [Hsplit _].
  - split; reflexivity.
  - intros t Ht. discriminate Ht.
  - unfold number_of_wavelets. simpl. lia.
  - eexists. split.
    + apply Hsplit. intros l. destruct l; discriminate.
    + split; [reflexivity|]. split; reflexivity.
Defined.
(** * Further properties of the extractor *)

(** ** A pass never resizes the array *)

Lemma for_each_inv {A S : Type} (P : S → Prop) (l : list A)
    (body : A → S → result S) (s s' : S) :
  P s → (∀ x s s', P s → body x s = Ok s' → P s') →
  for_each l body s = Ok s' → P s'.
Proof.
  revert s. induction l as [|x l IH]; intros s Hs Hbody; simpl.
  - by intros [= <-].
  - intros Hloop. apply bind_Ok_inv in Hloop as (s1 & Hx & Hloop). eauto.
Qed.

Lemma length_assign_region (d d' : list float64) lo hi row :
  lo ≤ hi → hi ≤ length d →
  assign_region d lo hi row = Ok d' → length d' = length d.
Proof.
  intros Hlo Hhi. unfold assign_region. case_decide as Hlen.
  - intros [= <-]. apply length_splice. lia.
  - destruct row as [|x [|]]; try done. intros [= <-].
    apply length_splice. rewrite length_replicate. lia.
Qed.

Lemma slice_bounds n s e : slice_lo n s ≤ slice_hi n s e ∧ slice_hi n s e ≤ n.
Proof. unfold slice_hi, slice_lo. lia. Qed.

Lemma length_join_replicate (n : nat) (row : list float64) :
  length (mjoin (replicate n row)) = n * length row.
Proof. induction n as [|n IH]; simpl; [done|]. rewrite length_app, IH. lia. Qed.

Lemma same_extent_refl a : same_extent a a.
Proof. done. Qed.

Lemma same_extent_trans a1 a2 a3 :
  same_extent a1 a2 → same_extent a2 a3 → same_extent a1 a3.
Proof. intros [? ?] [? ?]. split; [congruence | auto]. Qed.

Lemma setitem_slice_extent a s e row a' :
  setitem_slice a s e row = Ok a' → same_extent a a'.
Proof.
  destruct a as [d|rows cols d]; simpl.
  - intros Hset. apply bind_Ok_inv in Hset as (d' & Hd' & [= <-]).
    destruct (slice_bounds (length d) s e).
    apply length_assign_region in Hd'; [|done..].
    split; [simpl; by rewrite Hd' | done].
  - destruct (slice_bounds rows s e) as [Hlo Hhi].
    pose proof (Nat.mul_le_mono_r _ _ cols Hhi).
    pose proof (Nat.mul_le_mono_r _ _ cols Hlo).
    case_decide as Hrow.
    + intros [= <-]. split; [done|]. simpl. intros Hd.
      rewrite length_splice; [done|].
      rewrite length_join_replicate, Hrow. nia.
    + destruct row as [|x [|]]; try done. intros [= <-].
      split; [done|]. simpl. intros Hd.
      rewrite length_splice; [done|]. rewrite length_replicate. nia.
Qed.

Lemma setitem_row_slice_extent a r s e row a' :
  setitem_row_slice a r s e row = Ok a' → same_extent a a'.
Proof.
  destruct a as [d|rows cols d]; simpl; [done|].
  case_decide as Hr; [|done].
  intros Hset. apply bind_Ok_inv in Hset as (d' & Hd' & [= <-]).
  split; [done|]. simpl. intros Hd.
  destruct (slice_bounds cols s e) as [Hlo Hhi].
  pose proof (Nat.mul_le_mono_r (r + 1) rows cols ltac:(lia)).
  apply length_assign_region in Hd'; [lia | lia | nia].
Qed.

(** X1: Whatever the instance, the histograms and the pass, an array that
    [_fill] returns has the shape of the array it was given, and as many
    elements. *)
Theorem fill_keeps_shape (self : LGBPHS) (a a' : ndarray)
    (blocks : array2 float64) (j : nat) :
  _fill self a blocks j = Ok a' →
  shape a' = shape a ∧ (well_shaped a → well_shaped a').
Proof.
  assert (Hloop : ∀ n (body : nat → ndarray → result ndarray),
    (∀ b x x', body b x = Ok x' → same_extent x x') →
    for_each (range n) body a = Ok a' → same_extent a a').
  { intros n body Hbody. apply (for_each_inv (same_extent a)); [done|].
    intros b x x' Hx Hb. eapply same_extent_trans; eauto. }
  unfold _fill. destruct (split self) as [mode|].
  - destruct (String.eqb mode "blocks").
    { intros Hfill. apply bind_Ok_inv in Hfill as (nb & _ & Hfill).
      revert Hfill. apply Hloop. intros b x x' Hb.
      apply bind_Ok_inv in Hb as (row & _ & Hb).
      apply bind_Ok_inv in Hb as (bins & _ & Hb).
      by eapply setitem_row_slice_extent. }
    destruct (String.eqb mode "wavelets").
    { intros Hfill. apply bind_Ok_inv in Hfill as (nb & _ & Hfill).
      revert Hfill. apply Hloop. intros b x x' Hb.
      apply bind_Ok_inv in Hb as (row & _ & Hb).
      apply bind_Ok_inv in Hb as (bins & _ & Hb).
      by eapply setitem_row_slice_extent. }
    destruct (String.eqb mode "both"); [|by intros [= <-]].
    intros Hfill. apply bind_Ok_inv in Hfill as (nb & _ & Hfill).
    revert Hfill. apply Hloop. intros b x x' Hb.
    apply bind_Ok_inv in Hb as (row & _ & Hb).
    apply bind_Ok_inv in Hb as (nb' & _ & Hb).
    apply bind_Ok_inv in Hb as (bins & _ & Hb).
    by eapply setitem_row_slice_extent.
  - intros Hfill. apply bind_Ok_inv in Hfill as (bins & _ & Hfill).
    apply bind_Ok_inv in Hfill as (nb & _ & Hfill).
    revert Hfill. apply Hloop. intros b x x' Hb.
    apply bind_Ok_inv in Hb as (row & _ & Hb).
    by eapply setitem_slice_extent.
Qed.


(** ** Histograms that do not have the counts of the instance *)

Lemma for_each_ext {A S : Type} (l : list A) (body body' : A → S → result S) (s : S) :
  (∀ x s, x ∈ l → body x s = body' x s) →
  for_each l body s = for_each l body' s.
Proof.
  revert s. induction l as [|x l IH]; intros s Hext; simpl; [done|].
  rewrite (Hext x s) by left. destruct (body' x s) as [s'|e]; simpl; [|done].
  apply IH. intros y s'' Hy. apply Hext. by right.
Qed.

Lemma slice_exact n s e :
  s ≤ e → e ≤ n → slice_lo n s = s ∧ slice_hi n s e = e.
Proof. unfold slice_hi, slice_lo. lia. Qed.

(** On an array of the layout it is an assignment to the [bins] elements
    at the offset of the block. *)
Lemma store_region l nb bins jet j b a row :
  j < jet → b < nb → in_layout l nb bins jet a →
  store l nb bins j b a row =
  (d ← assign_region (data_of a) (flat_offset l nb bins jet j b)
                     (flat_offset l nb bins jet j b + bins) row;
   Ok (set_data a d)).
Proof.
  intros Hj Hb [Hsh Hw].
  pose proof (flat_offset_bound l nb bins jet j b Hj Hb) as Hoff.
  pose proof (Nat.mul_le_mono_r (j + 1) jet bins ltac:(lia)).
  pose proof (Nat.mul_le_mono_r (b + 1) nb bins ltac:(lia)).
  pose proof (Nat.mul_le_mono_r (j + 1) jet nb ltac:(lia)).
  destruct l, a as [d|rows cols d]; simpl in Hsh, Hw, Hoff; try discriminate;
    injection Hsh as Hsh; intros; try subst rows; try subst cols;
    cbn [store set_data data_of flat_offset];
    unfold setitem_slice, setitem_row_slice;
    rewrite ?decide_True by nia.
  - destruct (slice_exact (length d) (j * bins * nb + b * bins)
                (j * bins * nb + (b + 1) * bins)) as [-> ->]; [lia | lia |].
    by replace (j * bins * nb + (b + 1) * bins)
         with (j * bins * nb + b * bins + bins) by lia.
  - destruct (slice_exact (bins * jet) (j * bins) ((j + 1) * bins))
      as [-> ->]; [lia | lia |].
    by replace (b * (bins * jet) + (j + 1) * bins)
         with (b * (bins * jet) + j * bins + bins) by lia.
  - destruct (slice_exact (bins * nb) (b * bins) ((b + 1) * bins))
      as [-> ->]; [lia | lia |].
    by replace (j * (bins * nb) + (b + 1) * bins)
         with (j * (bins * nb) + b * bins + bins) by lia.
  - destruct (slice_exact bins 0 bins) as [-> ->]; [lia | lia |].
    by replace ((j * nb + b) * bins + bins)
         with ((j * nb + b) * bins + 0 + bins) by lia.
Qed.

(** [_fill] as a loop of [store]. *)
Lemma fill_store self a blocks l nb bins j :
  split self = split_of l → n_bins self = Some bins → n_blocks self = Some nb →
  _fill self a blocks j =
  for_each (range nb)
    (λ b a, row ← getrow blocks b; store l nb bins j b a row) a.
Proof.
  intros Hsplit Hbins Hblocks. unfold _fill. rewrite Hsplit, Hbins, Hblocks.
  destruct l; simpl; try done; apply for_each_ext; intros b x _;
    by destruct (getrow blocks b).
Qed.


Lemma for_each_raise {A S : Type} (Inv : S → Prop) (l1 l2 : list A) (x : A)
    (body : A → S → result S) (s : S) (e : exn) :
  Inv s →
  (∀ y s, y ∈ l1 → Inv s → ∃ s', body y s = Ok s' ∧ Inv s') →
  (∀ s, Inv s → body x s = Raise e) →
  for_each (l1 ++ x :: l2) body s = Raise e.
Proof.
  revert s. induction l1 as [|y l1 IH]; intros s Hs Hok Hraise; simpl.
  - by rewrite Hraise.
  - destruct (Hok y s) as (s' & -> & Hs'); [left | done |]. simpl.
    apply IH; [done | | done]. intros z s'' Hz. apply Hok. by right.
Qed.

Lemma for_each_ext_inv {A S : Type} (Inv : S → Prop) (l : list A)
    (body body' : A → S → result S) (s : S) :
  Inv s →
  (∀ x s, x ∈ l → Inv s →
     body x s = body' x s ∧ ∀ s', body' x s = Ok s' → Inv s') →
  for_each l body s = for_each l body' s.
Proof.
  revert s. induction l as [|x l IH]; intros s Hs Hext; simpl; [done|].
  destruct (Hext x s) as [-> Hinv]; [left | done |].
  destruct (body' x s) as [s'|e]; simpl; [|done].
  apply IH; [by apply Hinv|]. intros y s'' Hy. apply Hext. by right.
Qed.

Lemma range_split (r n : nat) :
  r < n → range n = range r ++ r :: seq (S r) (n - S r).
Proof.
  intros Hr. unfold range.
  replace n with (r + S (n - S r)) at 1 by lia.
  by rewrite seq_app.
Qed.

Lemma store_extent l nb bins j b a row a' :
  store l nb bins j b a row = Ok a' →
  shape a' = shape a ∧ (well_shaped a → well_shaped a').
Proof.
  destruct l; simpl; intros Hstore;
    first [by eapply setitem_slice_extent | by eapply setitem_row_slice_extent].
Qed.

Lemma store_in_layout l nb bins jet j b a row a' :
  in_layout l nb bins jet a → store l nb bins j b a row = Ok a' →
  in_layout l nb bins jet a'.
Proof.
  intros [Hsh Hw] Hstore. apply store_extent in Hstore as [Hsh' Hw'].
  split; [congruence | auto].
Qed.

Lemma assign_region_mismatch (d : list float64) lo hi row :
  length row ≠ hi - lo → length row ≠ 1 →
  assign_region d lo hi row = Raise ValueError.
Proof.
  intros Hlen Hone. unfold assign_region. rewrite decide_False by done.
  by destruct row as [|x [|]].
Qed.

Lemma assign_region_broadcast (d : list float64) lo hi x :
  assign_region d lo hi [x] = assign_region d lo hi (replicate (hi - lo) x).
Proof.
  unfold assign_region. rewrite length_replicate.
  rewrite (decide_True (P := hi - lo = hi - lo)) by done.
  case_decide as Hone; [|done]. simpl in Hone. by rewrite <- Hone.
Qed.

Section Mismatch.
Context (self : LGBPHS) (blocks : array2 float64) (l : layout).
Context (nb bins jet j : nat) (a : ndarray).
Hypothesis split_l : split self = split_of l.
Hypothesis self_bins : n_bins self = Some bins.
Hypothesis self_blocks : n_blocks self = Some nb.
Hypothesis slot : j < jet.
Hypothesis layout_a : in_layout l nb bins jet a.

(** X2: Histograms with the bins of the instance but fewer blocks than
    [n_blocks] are not stored: reading the first block that is missing
    raises the index error. *)
Theorem fill_too_few_blocks :
  a2_cols blocks = bins → a2_rows blocks < nb →
  _fill self a blocks j = Raise IndexError.
Proof.
  intros Hcols Hrows.
  rewrite (fill_store self a blocks l nb bins j) by done.
  rewrite (range_split (a2_rows blocks) nb) by done.
  apply (for_each_raise (in_layout l nb bins jet)); [done | |].
  - intros b x [_ Hb]%elem_of_seq Hx. simpl in Hb.
    rewrite getrow_ok by done. simpl.
    rewrite (store_region l nb bins jet) by (done || lia).
    replace (flat_offset l nb bins jet j b + bins)
      with (flat_offset l nb bins jet j b + length (block_row blocks b))
      by (by rewrite length_block_row, Hcols).
    rewrite assign_region_exact. simpl. eexists. split; [done|].
    destruct Hx as [Hsh Hw].
    pose proof (length_spec_shape _ _ _ _ _ Hsh Hw) as Hlen.
    pose proof (flat_offset_bound l nb bins jet j b slot ltac:(lia)).
    split.
    + rewrite shape_set_data; [done|]. apply length_splice.
      rewrite length_block_row. lia.
    + assert (length (splice (data_of x) (flat_offset l nb bins jet j b)
                             (block_row blocks b)) = length (data_of x)) as Hl.
      { apply length_splice. rewrite length_block_row. lia. }
      destruct x; simpl in *; [done | lia].
  - intros x _. unfold getrow. by rewrite decide_False by lia.
Qed.

(** X3: Histograms whose rows are neither [n_bins] long nor one element long
    cannot be stored: the first block raises the value error. *)
Theorem fill_wrong_bins :
  1 ≤ nb → 1 ≤ a2_rows blocks →
  a2_cols blocks ≠ bins → a2_cols blocks ≠ 1 →
  _fill self a blocks j = Raise ValueError.
Proof.
  intros Hnb Hrows Hbins Hone.
  rewrite (fill_store self a blocks l nb bins j) by done.
  rewrite (range_split 0 nb) by lia.
  apply (for_each_raise (in_layout l nb bins jet)); [done | |].
  - intros b x Hb. by apply elem_of_nil in Hb.
  - intros x Hx. rewrite getrow_ok by lia. simpl.
    rewrite (store_region l nb bins jet) by (done || lia).
    rewrite assign_region_mismatch; [done | |];
      rewrite length_block_row; lia.
Qed.

(** X4: A histogram of one element is stored all the same: numpy repeats the
    element over the [n_bins] places of the block. *)
Theorem fill_single_bin_repeated :
  a2_cols blocks = 1 → a2_rows blocks = nb →
  ∃ a', _fill self a blocks j = Ok a' ∧
        shape a' = shape a ∧
        (∀ b k, b < nb → k < bins →
           get a' (spec_index l nb bins j b k) = Some (a2_at blocks b 0)) ∧
        (∀ index, (∀ b k, b < nb → k < bins →
                     index ≠ spec_index l nb bins j b k) →
           get a' index = get a index).
Proof.
  intros Hcols Hrows.
  set (wide := {| a2_rows := nb; a2_cols := bins;
                  a2_at := λ b _, a2_at blocks b 0 |}).
  assert (_fill self a blocks j = _fill self a wide j) as ->.
  { rewrite !(fill_store self a _ l nb bins j) by done.
    apply (for_each_ext_inv (in_layout l nb bins jet)); [done|].
    intros b x [_ Hb]%elem_of_seq Hx. simpl in Hb.
    rewrite !getrow_ok by (simpl; lia). simpl. split.
    - rewrite !(store_region l nb bins jet) by done.
      unfold block_row, range. rewrite Hcols. simpl.
      rewrite assign_region_broadcast. do 2 f_equal.
      replace (flat_offset l nb bins jet j b + bins
               - flat_offset l nb bins jet j b) with bins by lia.
      rewrite (const_fmap _ (seq 0 bins) (a2_at blocks b 0)) by done.
      by rewrite length_seq.
    - intros x'. by apply store_in_layout. }
  destruct (fill_result self wide l nb bins jet j a)
    as (a' & Hfill & [Hsh' _] & Hin & Hout); try done.
  exists a'. destruct layout_a as [Hsh _]. rewrite Hsh', Hsh. done.
Qed.

End Mismatch.

(** X5: Rows of the histograms beyond [n_blocks] are never read: histograms
    that agree on the first [n_blocks] rows are stored alike, whatever the
    split and the array. *)
Theorem fill_ignores_extra_blocks (self : LGBPHS) (a : ndarray)
    (blocks blocks' : array2 float64) (nb j : nat) :
  n_blocks self = Some nb →
  nb ≤ a2_rows blocks → nb ≤ a2_rows blocks' →
  a2_cols blocks = a2_cols blocks' →
  (∀ b k, b < nb → k < a2_cols blocks →
     a2_at blocks b k = a2_at blocks' b k) →
  _fill self a blocks j = _fill self a blocks' j.
Proof.
  intros Hnb Hrows Hrows' Hcols Hsame.
  assert (Hrow : ∀ b, b < nb → getrow blocks b = getrow blocks' b).
  { intros b Hb. rewrite !getrow_ok by lia. f_equal.
    unfold block_row. rewrite <- Hcols. apply list_fmap_ext.
    intros i k [-> Hk]%lookup_seq. by apply Hsame. }
  unfold _fill. rewrite Hnb. simpl.
  destruct (split self) as [mode|].
  - repeat case_match; try done;
      apply for_each_ext; intros b x [_ Hb]%elem_of_seq;
      by rewrite Hrow by (simpl in Hb; lia).
  - destruct (attr (n_bins self)); simpl; [|done].
    apply for_each_ext. intros b x [_ Hb]%elem_of_seq.
    by rewrite Hrow by (simpl in Hb; lia).
Qed.

(** ** Instances of the statements on passes *)

Lemma fill_keeps_shape_witness :
  shape (Array2 2 6 [0; 0; 0; 0; 1; 2; 0; 0; 0; 10; 11; 12]%float)
  = shape (Array2 2 6 (replicate 12 0%float)) ∧
  (well_shaped (Array2 2 6 (replicate 12 0%float)) →
   well_shaped (Array2 2 6 [0; 0; 0; 0; 1; 2; 0; 0; 0; 10; 11; 12]%float)).
Proof.
  apply (fill_keeps_shape (example_counted (Some "blocks"))
           (Array2 2 6 (replicate 12 0%float))
           (Array2 2 6 [0; 0; 0; 0; 1; 2; 0; 0; 0; 10; 11; 12]%float)
           example_blocks 1).
  reflexivity.
Defined.

Lemma fill_too_few_blocks_witness :
  _fill (example_counted (Some "wavelets")) (Array2 4 6 (replicate 24 0%float))
        (histograms 1 3) 2
  = Raise IndexError.
Proof.
  apply (fill_too_few_blocks (example_counted (Some "wavelets")) (histograms 1 3)
           ByWavelets 2 3 4 2 (Array2 4 6 (replicate 24 0%float))).
  - reflexivity.
  - reflexivity.
  - reflexivity.
  - lia.
  - split; reflexivity.
  - reflexivity.
  - simpl. lia.
Defined.

Lemma fill_wrong_bins_witness :
  _fill (example_counted None) (Array1 (replicate 24 0%float))
        (histograms 2 4) 0
  = Raise ValueError.
Proof.
  apply (fill_wrong_bins (example_counted None) (histograms 2 4)
           Flat 2 3 4 0 (Array1 (replicate 24 0%float))).
  - reflexivity.
  - reflexivity.
  - reflexivity.
  - lia.
  - split; [reflexivity | exact I].
  - lia.
  - simpl. lia.
  - simpl. lia.
  - simpl. lia.
Defined.

Lemma fill_single_bin_repeated_witness :
  ∃ a',
    _fill (example_counted (Some "both")) (Array2 8 3 (replicate 24 0%float))
          (histograms 2 1) 1
    = Ok a' ∧
    get a' [1 * 2 + 1; 2] = Some (a2_at (histograms 2 1) 1 0).
Proof.
  destruct (fill_single_bin_repeated (example_counted (Some "both"))
              (histograms 2 1) ByBoth 2 3 4 1
              (Array2 8 3 (replicate 24 0%float)))
    as (a' & Hfill & _ & Hin & _);
    [reflexivity | reflexivity | reflexivity | lia | split; reflexivity
    | reflexivity | reflexivity |].
  exists a'. split; [exact Hfill|]. apply (Hin 1 2); lia.
Defined.

Lemma fill_ignores_extra_blocks_witness :
  _fill (example_counted (Some "blocks")) (Array2 2 12 (replicate 24 0%float))
        example_blocks 3
  = _fill (example_counted (Some "blocks")) (Array2 2 12 (replicate 24 0%float))
          (histograms 5 3) 3.
Proof.
  apply (fill_ignores_extra_blocks (example_counted (Some "blocks"))
           (Array2 2 12 (replicate 24 0%float)) example_blocks (histograms 5 3)
           2 3).
  - reflexivity.
  - simpl. lia.
  - simpl. lia.
  - reflexivity.
  - intros b k Hb Hk. reflexivity.
Defined.

(** ** The whole output *)

Lemma split_index (n m p : nat) :
  p < n * m → ∃ q r, p = q * m + r ∧ q < n ∧ r < m.
Proof.
  intros Hp. assert (m ≠ 0) as Hm by (intros ->; lia).
  exists (p / m), (p mod m). split; [|split].
  - rewrite (Nat.div_mod_eq p m) at 1. lia.
  - apply Nat.Div0.div_lt_upper_bound. lia.
  - by apply Nat.mod_upper_bound.
Qed.

(** Every valid index of an array of the layout is the index of one bin
    of one block of one pass. *)
Lemma position_covered l nb bins jet index p :
  position (spec_shape l nb bins jet) index = Some p →
  ∃ j b k, j < jet ∧ b < nb ∧ k < bins ∧ index = spec_index l nb bins j b k.
Proof.
  destruct l, index as [|r [|c [|]]]; simpl; try done; case_decide as Hin;
    try done; intros _.
  - destruct (split_index jet (nb * bins) r) as (j & r' & -> & Hj & Hr'); [lia|].
    destruct (split_index nb bins r') as (b & k & -> & Hb & Hk); [lia|].
    exists j, b, k. repeat split; try done. f_equal. lia.
  - destruct Hin as [Hr Hc].
    destruct (split_index jet bins c) as (j & k & -> & Hj & Hk); [lia|].
    by exists j, r, k.
  - destruct Hin as [Hr Hc].
    destruct (split_index nb bins c) as (b & k & -> & Hb & Hk); [lia|].
    by exists r, b, k.
  - destruct Hin as [Hr Hc].
    destruct (split_index jet nb r) as (j & b & -> & Hj & Hb); [lia|].
    by exists j, b, c.
Qed.

Section Output.
Context `{Backend} (self : LGBPHS) (image : ndimage) (l : layout) (nb bins : nat).
Hypothesis image_ok : valid_image image.
Hypothesis cache : cache_ok self.
Hypothesis wavelets : 1 ≤ number_of_wavelets (gwt self).
Hypothesis split_l : split self = split_of l.
Hypothesis agree : histograms_agree self image nb bins.

(** X7: In every split mode, with or without phases, the array a call
    assembles holds at the index of the specification bin [k] of block [b]
    of pass [slot]: a magnitude histogram of plane [slot] in the first
    passes, a phase histogram of plane [slot - wavelets] in the others. *)
Theorem call_layout :
  ∃ st a,
    __call__ image self = (st, _sparsify st (Some a)) ∧
    shape a = spec_shape l nb bins (jet_length self) ∧
    ∀ slot b k, slot < jet_length self → b < nb → k < bins →
      get a (spec_index l nb bins slot b k)
      = Some (if decide (slot < number_of_wavelets (gwt self))
              then a2_at (magnitude_blocks self image slot) b k
              else a2_at (phase_blocks self image
                            (slot - number_of_wavelets (gwt self))) b k).
Proof.
  destruct (assemble_agree self image image_ok cache wavelets l nb bins
              split_l agree) as (a & Hasm & [Hsh Hw] & Hget).
  exists (after_call self image nb bins), a.
  split; [by rewrite call_run, Hasm|]. split; [done|].
  intros slot b k Hslot Hb Hk. rewrite Hget by done.
  unfold pass_blocks. by case_decide.
Qed.


End Output.

(** ** What a call takes from the instance *)

(** The counts the instance holds before a plane is processed are not
    read: the plane sets them first. *)
Lemma plane_body_counts `{Backend} (self : LGBPHS) (image : ndimage)
    (jet j : nat) (locals : option ndarray * list pass) (ob onb ob' onb' : option nat) :
  j < number_of_wavelets (gwt self) →
  plane_body jet j locals (primed self image ob onb)
  = plane_body jet j locals (primed self image ob' onb').
Proof.
  intros Hj. destruct locals as [oarr log]. rewrite !plane_body_run.
  by rewrite !(trafo_plane_response self _ image j) by done.
Qed.

Lemma planes_counts `{Backend} (self : LGBPHS) (image : ndimage)
    (jet : nat) (js : list nat) (locals : option ndarray * list pass)
    (ob onb ob' onb' : option nat) :
  (∀ j, j ∈ js → j < number_of_wavelets (gwt self)) →
  (for_each_M js (plane_body jet) locals (primed self image ob onb)).2
  = (for_each_M js (plane_body jet) locals (primed self image ob' onb')).2 ∧
  (js ≠ [] →
   for_each_M js (plane_body jet) locals (primed self image ob onb)
   = for_each_M js (plane_body jet) locals (primed self image ob' onb')).
Proof.
  intros Hjs. destruct js as [|j js]; [done|].
  assert (for_each_M (j :: js) (plane_body jet) locals (primed self image ob onb)
          = for_each_M (j :: js) (plane_body jet) locals
              (primed self image ob' onb')) as ->; [|done].
  cbn [for_each_M]. rewrite !M_bind_run.
  by rewrite (plane_body_counts self image jet j locals ob onb ob' onb')
    by (apply Hjs; left).
Qed.

(** The output of a call does not depend on the buffer and the counts
    the instance holds, and neither does the instance it leaves once a
    plane has been processed. *)
Lemma call_ignores_cache `{Backend} (self : LGBPHS) (image : ndimage)
    (t : option trafo) (ob onb : option nat) :
  cache_ok self →
  cache_ok (set_counts ob onb (set_trafo_image t self)) →
  (__call__ image (set_counts ob onb (set_trafo_image t self))).2
  = (__call__ image self).2 ∧
  (valid_image image → 1 ≤ number_of_wavelets (gwt self) →
   __call__ image (set_counts ob onb (set_trafo_image t self))
   = __call__ image self).
Proof.
  intros Hcache Hcache'.
  set (self' := set_counts ob onb (set_trafo_image t self)).
  destruct (decide (valid_image image)) as [Hvalid|Hinvalid].
  - rewrite !call_run, !assemble_valid by done.
    change (number_of_wavelets (gwt self')) with (number_of_wavelets (gwt self)).
    change (jet_length self') with (jet_length self).
    change (primed self' image (n_bins self') (n_blocks self'))
      with (primed self image ob onb).
    destruct (planes_counts self image (jet_length self)
                (range (number_of_wavelets (gwt self))) (None, [])
                ob onb (n_bins self) (n_blocks self)) as [_ Hall].
    { intros j [_ Hj]%elem_of_seq. done. }
    destruct (number_of_wavelets (gwt self)) as [|n] eqn:Hw.
    + split; [|lia]. simpl. unfold _sparsify. simpl.
      by destruct (sparse self).
    + rewrite Hall by done. done.
  - rewrite !call_run, !assemble_invalid by done. split; [done|].
    intros Hvalid. done.
Qed.

(** The instances a call can leave are the given one with another buffer
    and other counts. *)
Lemma call_state_form `{Backend} (self st : LGBPHS) (image : ndimage)
    (r : result (option ndarray)) :
  cache_ok self → __call__ image self = (st, r) →
  ∃ t ob onb, st = set_counts ob onb (set_trafo_image t self) ∧ cache_ok st.
Proof.
  intros Hcache. rewrite call_run.
  destruct (decide (valid_image image)) as [Hvalid|Hinvalid].
  - rewrite assemble_valid by done.
    destruct (for_each_M _ _ _ _) as [st1 r1] eqn:Hloop.
    destruct (planes_any self image _ st1 r1 (le_n _) Hloop) as [Hzero Hpos].
    assert (∃ ob onb, st1 = primed self image ob onb) as (ob & onb & ->).
    { destruct (number_of_wavelets (gwt self)).
      - destruct Hzero as [-> _]; eauto.
      - destruct Hpos as [(j & _ & -> & _) _]; [lia|]. unfold counted. eauto. }
    intros Hcall.
    assert (st = primed self image ob onb) as ->.
    { by destruct r1 as [[oarr log]|e]; injection Hcall as <- _. }
    exists (Some (response self image)), ob, onb. split; [done|].
    by intros t [= <-].
  - rewrite assemble_invalid by done. intros [= <- <-].
    exists (trafo_image self), (n_bins self), (n_blocks self).
    split; [by destruct self | done].
Qed.

(** X10: A call can be repeated: on the instance an earlier call has left,
    whatever image that call was given and however it ended, a call
    returns what it returns on the instance as it was before. *)
Theorem call_repeatable `{Backend} (self st : LGBPHS) (image0 image : ndimage)
    (r0 : result (option ndarray)) :
  cache_ok self → __call__ image0 self = (st, r0) →
  (__call__ image st).2 = (__call__ image self).2.
Proof.
  intros Hcache Hcall.
  destruct (call_state_form self st image0 r0 Hcache Hcall)
    as (t & ob & onb & -> & Hcache').
  by apply call_ignores_cache.
Qed.

(** ** A transform without wavelets *)

(** X11: With no wavelet the loop is not entered: the call returns None, or,
    with [sparse], raises the attribute error of reading the shape of
    None; the counts are not set. *)
Theorem call_without_wavelets `{Backend} (self : LGBPHS) (image : ndimage) :
  valid_image image → cache_ok self →
  number_of_wavelets (gwt self) = 0 →
  __call__ image self
  = (set_trafo_image (Some (response self image)) self,
     if sparse self then Raise AttributeError else Ok None).
Proof.
  intros Hvalid Hcache Hw. rewrite call_run, assemble_valid by done.
  rewrite Hw. simpl. unfold _sparsify. simpl. f_equal.
  by destruct (sparse self).
Qed.

(** ** The sparse output of a call *)

(** X9: With [sparse] set and no split, a call returns the two rows of
    [_sparsify] over the whole jet: row 0 lists in ascending order the flat
    indices of the bins that are not zero, over all passes and blocks, and
    row 1 their values. *)
Theorem call_sparse `{Backend} (self : LGBPHS) (image : ndimage) (nb bins : nat) :
  valid_image image → cache_ok self →
  1 ≤ number_of_wavelets (gwt self) →
  split self = None → sparse self = true →
  histograms_agree self image nb bins →
  ∃ st indices out,
    __call__ image self = (st, Ok (Some out)) ∧
    shape out = [2; length indices] ∧
    (∀ a b p q, a < b →
       indices !! a = Some p → indices !! b = Some q → p < q) ∧
    (∀ slot b k, slot < jet_length self → b < nb → k < bins →
       slot * bins * nb + b * bins + k ∈ indices
       ↔ nonzero (a2_at (pass_blocks self image slot) b k) = true) ∧
    (∀ a p, indices !! a = Some p →
       get2 out 0 a = Some (float_of_index p) ∧
       ∃ slot b k, slot < jet_length self ∧ b < nb ∧ k < bins ∧
         p = slot * bins * nb + b * bins + k ∧
         get2 out 1 a = Some (a2_at (pass_blocks self image slot) b k)).
Proof.
  intros Hvalid Hcache Hw Hsplit Hsparse Hagree.
  destruct (assemble_agree self image Hvalid Hcache Hw Flat nb bins
              Hsplit Hagree) as (a & Hasm & [Hsh _] & Hget).
  destruct a as [data|rows cols data]; [|done].
  injection Hsh as Hlen.
  destruct (sparsify_dense_result (after_call self image nb bins) data Hsparse)
    as ([indices values] & [Hl Hb Hn Ha Hv] & Hout).
  simpl in Hl, Hb, Hn, Ha, Hv, Hout.
  assert (Hcover : ∀ p, p < length data →
            ∃ slot b k, slot < jet_length self ∧ b < nb ∧ k < bins ∧
              p = slot * bins * nb + b * bins + k).
  { intros p Hp.
    destruct (position_covered Flat nb bins (jet_length self) [p] p)
      as (slot & b & k & ? & ? & ? & [= ->]); [|by eauto 10].
    simpl. rewrite decide_True by lia. done. }
  exists (after_call self image nb bins), indices, (Array2 2 (length indices)
            ((float_of_index <$> indices) ++ values)).
  split; [by rewrite call_run, Hasm; simpl; rewrite Hout|].
  split; [done|]. split; [done|]. split.
  - intros slot b k Hslot Hbk Hk.
    specialize (Hget slot b k Hslot Hbk Hk). simpl in Hget.
    rewrite Hn, Hget. split.
    + intros [_ (x & Hx & Hnz)]. by injection Hx as <-.
    + intros Hx. split; [by apply lookup_lt_Some in Hget | eauto].
  - intros i p Hi.
    assert (i < length indices) as Hilt by by apply lookup_lt_Some in Hi.
    assert (p < length data) as Hp.
    { apply Hb. by eapply list_elem_of_lookup_2. }
    split.
    + simpl. rewrite decide_True by lia.
      rewrite lookup_app_l by (rewrite length_fmap; lia).
      by rewrite list_lookup_fmap, Hi.
    + destruct (Hcover p Hp) as (slot & b & k & Hslot & Hbk & Hk & ->).
      exists slot, b, k. repeat split; try done.
      simpl. rewrite decide_True by lia.
      rewrite lookup_app_r by (rewrite length_fmap; lia).
      rewrite length_fmap.
      replace (length indices + 0 + i - length indices) with i by lia.
      rewrite (Hv i _ Hi). by apply (Hget slot b k).
Qed.

(** ** Instances of the statements on calls *)

Lemma call_layout_witness :
  ∃ st a,
    @__call__ tiles_backend example_image
       (example_instance (Some "both") false true)
    = (st, _sparsify st (Some a)) ∧
    shape a = [4 * 4; 3] ∧
    get a [3 * 4 + 1; 2]
    = Some (a2_at (@phase_blocks tiles_backend
                     (example_instance (Some "both") false true)
                     example_image 1) 1 2).
Proof.
  destruct (@call_layout tiles_backend
              (example_instance (Some "both") false true) example_image
              ByBoth 4 3)
    as (st & a & Hcall & Hshape & Hget).
  - split; reflexivity.
  - intros t Ht. discriminate Ht.
  - unfold number_of_wavelets. simpl. lia.
  - reflexivity.
  - intros j Hj. repeat split.
  - exists st, a. split; [exact Hcall|]. split; [exact Hshape|].
    apply (Hget 3 1 2); [unfold jet_length, number_of_wavelets; simpl; lia
                        | lia | lia].
Defined.


Lemma call_repeatable_witness :
  (@__call__ tiles_backend example_image
     (@__call__ tiles_backend int_image
        (example_instance None false true)).1).2
  = (@__call__ tiles_backend example_image
       (example_instance None false true)).2
  ∧
  (@__call__ tiles_backend example_image
     (@__call__ tiles_backend example_image
        (example_instance None true false)).1).2
  = (@__call__ tiles_backend example_image
       (example_instance None true false)).2.
Proof.
  split.
  - apply (@call_repeatable tiles_backend (example_instance None false true)
             _ int_image example_image
             (@__call__ tiles_backend int_image
                (example_instance None false true)).2).
    + intros t Ht. discriminate Ht.
    + reflexivity.
  - apply (@call_repeatable tiles_backend (example_instance None true false)
             _ example_image example_image
             (@__call__ tiles_backend example_image
                (example_instance None true false)).2).
    + intros t Ht. discriminate Ht.
    + reflexivity.
Defined.

Lemma call_without_wavelets_witness :
  @__call__ tiles_backend example_image (example_without_wavelets true)
  = (set_trafo_image
       (Some (@response tiles_backend (example_without_wavelets true)
                example_image))
       (example_without_wavelets true),
     Raise AttributeError)
  ∧ (@__call__ tiles_backend example_image (example_without_wavelets false)).2
    = Ok None.
Proof.
  split.
  - apply (@call_without_wavelets tiles_backend (example_without_wavelets true)
             example_image).
    + split; reflexivity.
    + intros t Ht. discriminate Ht.
    + reflexivity.
  - rewrite (@call_without_wavelets tiles_backend
               (example_without_wavelets false) example_image).
    + reflexivity.
    + split; reflexivity.
    + intros t Ht. discriminate Ht.
    + reflexivity.
Defined.

Lemma call_sparse_witness :
  ∃ st indices out,
    @__call__ tiles_backend example_image (example_instance None true true)
    = (st, Ok (Some out)) ∧
    shape out = [2; length indices] ∧
    (2 * 3 * 4 + 1 * 3 + 2 ∈ indices
     ↔ nonzero (a2_at (@pass_blocks tiles_backend
                         (example_instance None true true)
                         example_image 2) 1 2) = true).
Proof.
  destruct (@call_sparse tiles_backend (example_instance None true true)
              example_image 4 3)
    as (st & indices & out & Hcall & Hshape & _ & Hin & _).
  - split; reflexivity.
  - intros t Ht. discriminate Ht.
  - unfold number_of_wavelets. simpl. lia.
  - reflexivity.
  - reflexivity.
  - intros j Hj. repeat split.
  - exists st, indices, out. split; [exact Hcall|]. split; [exact Hshape|].
    apply (Hin 2 1 2); [unfold jet_length, number_of_wavelets; simpl; lia
                       | lia | lia].
Defined.

(** * The baselines script: proofs *)

Section BaselinesRun.
Import Baselines.
Context `{System}.

(** ** The algorithms that can be selected *)

(** X16: every algorithm the command line can select, whichever of the
    optional packages load, has an entry in CONFIGURATIONS, so the lookup
    in [main] finds it; and the entries are those of the full list. *)
Theorem all_algorithms_configured (gmm_loads csu_loads : bool) (name : string) :
  name ∈ all_algorithms gmm_loads csu_loads →
  is_Some (CONFIGURATIONS !! name) ∧
  (∀ other, is_Some (CONFIGURATIONS !! other) → other ∈ all_algorithms true true).
Proof.
  intros Hname. split.
  - assert (Hall : Forall (λ n, is_Some (CONFIGURATIONS !! n))
                          (all_algorithms true true)).
    { repeat constructor; by eexists. }
    rewrite Forall_forall in Hall. apply Hall.
    unfold all_algorithms in *. rewrite !elem_of_app in *.
    destruct Hname as [?|[Hgmm|Hcsu]]; [by left | right; left | right; right].
    + destruct gmm_loads; [done | by apply elem_of_nil in Hgmm].
    + destruct csu_loads; [done | by apply elem_of_nil in Hcsu].
  - intros other [config Hconfig].
    apply elem_of_list_to_map_2 in Hconfig.
    unfold all_algorithms. simpl.
    repeat (apply elem_of_cons in Hconfig as [[= <- _]|Hconfig];
            [repeat (first [by left | right])|]).
    by apply elem_of_nil in Hconfig.
Qed.

(** ** Actions that run no program *)

Lemma calls_app (l1 l2 : list event) : calls (l1 ++ l2) = calls l1 ++ calls l2.
Proof. apply omap_app. Qed.

Lemma quiet_ret {A : Type} (a : A) : quiet (mret a : action A).
Proof. done. Qed.

Lemma quiet_raise {A : Type} (e : exception) : quiet (raise e : action A).
Proof. done. Qed.

Lemma quiet_lift {A : Type} (r : outcome A) : quiet (lift_outcome r).
Proof. done. Qed.

Lemma quiet_ask {A : Type} (q : world → A) : quiet (ask q).
Proof. done. Qed.

Lemma quiet_info (format : string) (arguments : list string) :
  quiet (emit (LogInfo format arguments)).
Proof.
  intros st. split; [done|]. simpl. rewrite calls_app. simpl.
  by rewrite app_nil_r.
Qed.

Lemma quiet_warn (format : string) (arguments : list string) :
  quiet (emit (LogWarn format arguments)).
Proof.
  intros st. split; [done|]. simpl. rewrite calls_app. simpl.
  by rewrite app_nil_r.
Qed.

Lemma quiet_bind {A B : Type} (m : action A) (k : A → action B) :
  quiet m → (∀ a, quiet (k a)) → quiet (m ≫= k).
Proof.
  intros Hm Hk st. unfold mbind, action_bind.
  destruct (Hm st) as [Hw Hc]. destruct (m st) as [st' [a|e]]; simpl in *.
  - destruct (Hk a st') as [Hw' Hc']. split; congruence.
  - done.
Qed.

Lemma quiet_when (b : bool) (m : action unit) :
  (b = true → quiet m) → quiet (when b m).
Proof. destruct b; [auto | intros _; apply quiet_ret]. Qed.

Lemma quiet_for {A : Type} (l : list A) (body : A → action unit) :
  (∀ x, quiet (body x)) → quiet (for_ l body).
Proof.
  intros Hbody. induction l as [|x l IH]; simpl; [apply quiet_ret|].
  apply quiet_bind; [done|]. by intros _.
Qed.

Lemma quiet_for_with {A S : Type} (l : list A) (body : A → S → action S) (s : S) :
  (∀ x s, quiet (body x s)) → quiet (for_with l body s).
Proof.
  intros Hbody. revert s. induction l as [|x l IH]; intros s; simpl;
    [apply quiet_ret|].
  apply quiet_bind; [done|]. done.
Qed.

Create HintDb quiet.
#[local] Hint Resolve quiet_ret quiet_raise quiet_lift quiet_ask quiet_info
  quiet_warn quiet_bind quiet_when quiet_for quiet_for_with : quiet.

Lemma quiet_log_and_run (a : args) (cmd : command) :
  dry_run a = true → quiet (log_and_run a cmd).
Proof.
  intros Hdry. unfold log_and_run.
  apply quiet_bind; [apply quiet_lift|]. intros text.
  apply quiet_bind; [apply quiet_info|]. intros _.
  apply quiet_when. by rewrite Hdry.
Qed.

Lemma quiet_execute (a : args) (name : string) :
  dry_run a = true → quiet (execute a name).
Proof.
  intros Hdry. unfold execute.
  apply quiet_bind; [apply quiet_info|]. intros _.
  apply quiet_bind.
  { destruct (CONFIGURATIONS !! name); auto with quiet. }
  intros config. apply quiet_bind.
  { apply quiet_when. intros _. apply quiet_warn. }
  intros _. by apply quiet_log_and_run.
Qed.

(** Collecting the score files runs nothing. *)
Lemma quiet_collect (a : args) (result_dir name : string) (f : found) :
  quiet (collect a result_dir name f).
Proof.
  unfold collect, skipping.
  apply quiet_bind; [apply quiet_ask|]. intros there.
  destruct there; simpl; [|auto with quiet].
  apply quiet_bind; [auto with quiet|]. intros names.
  apply quiet_bind; [apply quiet_ask|]. intros protocols.
  destruct protocols as [|first others]; [auto with quiet|].
  apply quiet_bind; [|auto with quiet].
  case_bool_decide; [|apply quiet_ret].
  apply quiet_bind; [auto with quiet|]. intros [p|]; [|auto with quiet].
  case_bool_decide; auto with quiet.
Qed.

Lemma quiet_directory_missing (a : args) (directory : string) :
  quiet (directory_missing a directory).
Proof.
  unfold directory_missing. apply quiet_bind; [apply quiet_ask|].
  intros there. destruct there, (dry_run a); simpl; auto with quiet.
Qed.

Lemma quiet_find_results (a : args) : quiet (find_results a).
Proof.
  unfold find_results.
  apply quiet_bind; [apply quiet_ask|]. intros is_idiap.
  apply quiet_bind.
  { destruct (result_directory a); [apply quiet_ret|].
    destruct is_idiap; [|apply quiet_ret].
    apply quiet_bind; [apply quiet_ask|]. intros [user|]; auto with quiet. }
  intros result_directory.
  apply quiet_bind; [apply quiet_directory_missing|]. intros _.
  apply quiet_bind; [apply quiet_directory_missing|]. intros _.
  apply quiet_bind; [|auto with quiet].
  apply quiet_for_with. intros. apply quiet_collect.
Qed.

Lemma quiet_evaluation (a : args) (requested : list string) :
  dry_run a = true → quiet (evaluation a requested).
Proof.
  intros Hdry. unfold evaluation.
  apply quiet_bind; [apply quiet_find_results|]. intros [result_dir f].
  unfold evaluate_results. destruct (_ && _); [apply quiet_warn|].
  apply quiet_bind; [by apply quiet_log_and_run|]. intros _.
  apply quiet_when. intros _. by apply quiet_log_and_run.
Qed.

(** X17: with [dry_run], [main] runs no program, whatever it is asked to do
    and whatever the functions it calls return or raise: the world is
    left as it is and no call is logged. *)
Theorem main_dry_run_runs_nothing (a : args) (st : state) :
  dry_run a = true →
  now (main a st).1 = now st ∧ calls (log (main a st).1) = calls (log st).
Proof.
  intros Hdry. revert st. change (quiet (main a)). unfold main.
  destruct (evaluate a) as [[|r requested]|].
  - apply quiet_for. intros name. by apply quiet_execute.
  - by apply quiet_evaluation.
  - apply quiet_for. intros name. by apply quiet_execute.
Qed.

(** ** Running the algorithms *)

Lemma log_and_run_run (a : args) (cmd : command) (st : state) :
  log_and_run a cmd st =
  match command_line cmd with
  | Done text =>
      let st' := {| now := now st;
                    log := log st ++ [LogInfo ("Executing command:" +:+ newline
                                            +:+ "%s") [text]] |} in
      if dry_run a then (st', Done tt) else call cmd st'
  | Raised e => (st, Raised e)
  end.
Proof.
  unfold log_and_run, mbind, action_bind, lift_outcome, emit, when.
  destruct (command_line cmd) as [text|e]; [|done].
  by destruct (dry_run a).
Qed.

Lemma execute_unknown (a : args) (name : string) (st : state) :
  CONFIGURATIONS !! name = None →
  execute a name st
  = ({| now := now st;
        log := log st ++ [LogInfo "Executing algorithm '%s'" [name]] |},
     Raised (KeyError name)).
Proof.
  intros Hname. unfold execute, mbind, action_bind, emit, raise. by rewrite Hname.
Qed.

Lemma execute_known (a : args) (name : string) (config : setup) (st : state) :
  CONFIGURATIONS !! name = Some config →
  execute a name st
  = log_and_run a (build_command a name config)
      {| now := now st; log := log st ++ announced a name config |}.
Proof.
  intros Hname.
  unfold execute, mbind, action_bind, emit, when, mret, action_ret, announced.
  rewrite Hname. case_bool_decide; simpl; [|done].
  by rewrite <- app_assoc.
Qed.

Lemma subprocess_run (cmd : command) (st : state) :
  call cmd st
  = ({| now := (subprocess_call cmd (now st)).1; log := log st ++ [Call cmd] |},
     match (subprocess_call cmd (now st)).2 with
     | Done _ => Done tt
     | Raised e => Raised e
     end).
Proof. unfold call. by destruct (subprocess_call cmd (now st)). Qed.

(** One round runs at most the command of its algorithm, and it has run it
    when it returns. *)
Lemma execute_calls (a : args) (name : string) (st : state) :
  dry_run a = false →
  ∃ cs, calls (log (execute a name st).1) = calls (log st) ++ cs ∧
        ((cs = [] ∧ ∃ e, (execute a name st).2 = Raised e) ∨
         (∃ c, cs = [c] ∧ command_of a name = Some c)).
Proof.
  intros Hdry. unfold command_of.
  destruct (CONFIGURATIONS !! name) as [config|] eqn:Hname.
  - rewrite (execute_known a name config st Hname), log_and_run_run, Hdry.
    assert (calls (log st ++ announced a name config) = calls (log st)) as Hq.
    { rewrite calls_app. unfold announced. case_bool_decide; simpl;
        by rewrite app_nil_r. }
    destruct (command_line _) as [text|e]; cbn [fst snd].
    + rewrite subprocess_run. cbn [fst snd now log].
      exists [build_command a name config]. split; [|right; eauto].
      rewrite !calls_app in *. rewrite Hq. simpl. by rewrite app_nil_r.
    + exists []. rewrite app_nil_r. cbn [log]. split; [done|]. left. eauto.
  - rewrite (execute_unknown a name st Hname). simpl. exists [].
    rewrite calls_app, app_nil_r. simpl. split; [by rewrite app_nil_r|]. left. eauto.
Qed.

Lemma for_cons {A : Type} (x : A) (l : list A) (body : A → action unit) (st : state) :
  for_ (x :: l) body st =
  match body x st with
  | (st', Done _) => for_ l body st'
  | (st', Raised e) => (st', Raised e)
  end.
Proof. reflexivity. Qed.

Lemma for_execute_calls (a : args) (names : list string) (st : state) :
  dry_run a = false →
  ∃ k cs,
    calls (log (for_ names (execute a) st).1) = calls (log st) ++ cs ∧
    Forall2 (λ name c, command_of a name = Some c) (take k names) cs.
Proof.
  intros Hdry. revert st. induction names as [|name names IH]; intros st.
  - exists 0, []. simpl. by rewrite app_nil_r.
  - rewrite for_cons.
    destruct (execute_calls a name st Hdry) as (cs1 & Hcs1 & Hcase).
    destruct (execute a name st) as [st1 [[]|e]] eqn:Hstep; simpl in *.
    + destruct Hcase as [[_ [e He]]|(c & -> & Hc)]; [done|].
      destruct (IH st1) as (k & cs & Hcs & Hall).
      exists (S k), (c :: cs). split; [|by constructor].
      by rewrite Hcs, Hcs1, <- app_assoc.
    + destruct Hcase as [[-> _]|(c & -> & Hc)].
      * exists 0, []. by rewrite Hcs1.
      * exists 1, [c]. split; [done|]. simpl. rewrite take_0. by repeat constructor.
Qed.

(** X18: when the algorithms are run, the programs [main] runs are the
    commands of the algorithms, one each and in the order given, up to the
    algorithm at which it stops: nothing else is run, and no algorithm is
    run twice or out of turn, whatever the called functions do. *)
Theorem main_runs_commands_in_order (a : args) (st : state) :
  evaluate a = None ∨ evaluate a = Some [] →
  ∃ k cs,
    calls (log (main a st).1) = calls (log st) ++ cs ∧
    Forall2 (λ name c, command_of a name = Some c) (take k (algorithms a)) cs.
Proof.
  intros Hmode.
  assert (main a = for_ (algorithms a) (execute a)) as ->.
  { unfold main. by destruct Hmode as [-> | ->]. }
  destruct (dry_run a) eqn:Hdry.
  - exists 0, []. rewrite app_nil_r. split; [|by constructor].
    apply quiet_for. intros name. by apply quiet_execute.
  - by apply for_execute_calls.
Qed.

Section Succeeding.
Hypothesis formats : ∀ cmd, ∃ text, command_line cmd = Done text.
Hypothesis returns : ∀ cmd w, ∃ code, (subprocess_call cmd w).2 = Done code.

Lemma execute_succeeds (a : args) (name : string) (config : setup) (st : state) :
  dry_run a = false → CONFIGURATIONS !! name = Some config →
  ∃ st', execute a name st = (st', Done tt) ∧
         calls (log st') = calls (log st) ++ [build_command a name config].
Proof.
  intros Hdry Hname.
  rewrite (execute_known a name config st Hname), log_and_run_run, Hdry.
  destruct (formats (build_command a name config)) as [text ->].
  rewrite subprocess_run. cbn [now log].
  destruct (returns (build_command a name config) (now st)) as [code ->].
  eexists. split; [done|]. cbn [log].
  rewrite !calls_app. unfold announced. case_bool_decide; simpl;
    by rewrite !app_nil_r.
Qed.

Lemma for_execute_succeeds (a : args) (names : list string) (st : state) :
  dry_run a = false →
  Forall (λ name, is_Some (CONFIGURATIONS !! name)) names →
  ∃ st' cs, for_ names (execute a) st = (st', Done tt) ∧
            calls (log st') = calls (log st) ++ cs ∧
            Forall2 (λ name c, command_of a name = Some c) names cs.
Proof.
  intros Hdry Hnames. revert st.
  induction Hnames as [|name names [config Hname] _ IH]; intros st.
  - exists st, []. by rewrite app_nil_r.
  - destruct (execute_succeeds a name config st Hdry Hname) as (st1 & Hstep & Hc1).
    destruct (IH st1) as (st' & cs & Hloop & Hcs & Hall).
    exists st', (build_command a name config :: cs).
    rewrite for_cons, Hstep. split; [done|]. split.
    + by rewrite Hcs, Hc1, <- app_assoc.
    + constructor; [|done]. unfold command_of. by rewrite Hname.
Qed.

(** X19: when formatting and the programs themselves do not raise, [main]
    runs every algorithm that can be selected: it returns, and it has run
    one command for each algorithm, in the order given. *)
Theorem main_runs_every_algorithm (a : args) (st : state)
    (gmm_loads csu_loads : bool) :
  evaluate a = None → dry_run a = false →
  Forall (λ name, name ∈ all_algorithms gmm_loads csu_loads) (algorithms a) →
  ∃ st' cs, main a st = (st', Done tt) ∧
            calls (log st') = calls (log st) ++ cs ∧
            Forall2 (λ name c, command_of a name = Some c) (algorithms a) cs.
Proof.
  intros Hmode Hdry Hnames. unfold main. rewrite Hmode.
  apply for_execute_succeeds; [done|].
  eapply Forall_impl; [done|]. intros name Hname. simpl in Hname.
  unfold all_algorithms in Hname. rewrite !elem_of_app in Hname.
  assert (name ∈ all_algorithms true true) as Hall.
  { unfold all_algorithms. rewrite !elem_of_app.
    destruct Hname as [?|[Hgmm|Hcsu]]; [by left | right; left | right; right].
    - destruct gmm_loads; [done | by apply elem_of_nil in Hgmm].
    - destruct csu_loads; [done | by apply elem_of_nil in Hcsu]. }
  clear Hname. unfold all_algorithms in Hall. simpl in Hall.
  repeat (apply elem_of_cons in Hall as [->|Hall]; [by eexists|]).
  by apply elem_of_nil in Hall.
Qed.


End Succeeding.

(** ** A configuration without a preprocessor *)

(** X21: on the database without eye annotations the two algorithms of the
    CSU extension have no preprocessor. [main] logs that it skips the
    algorithm and runs it all the same, with None where the name of the
    preprocessor goes. *)
Theorem missing_preprocessor_is_run (a : args) (name text : string) (st : state) :
  database a = "atnt" → name = "lrpca" ∨ name = "lda-ir" →
  dry_run a = false →
  ∃ config,
    CONFIGURATIONS !! name = Some config ∧
    build_command a name config !! 4 = Some None ∧
    (command_line (build_command a name config) = Done text →
     log (execute a name st).1
     = log st ++
       [ LogInfo "Executing algorithm '%s'" [name];
         LogWarn ("Skipping algorithm '%s' since no preprocessor is "
               +:+ "found that matches the given databases' '%s' "
               +:+ "configuration") [name; "atnt"];
         LogInfo ("Executing command:" +:+ newline +:+ "%s") [text];
         Call (build_command a name config) ]).
Proof.
  intros Hdb Hname Hdry.
  assert (∃ config, CONFIGURATIONS !! name = Some config ∧
                    (preprocessor config).2 = None) as (config & Hconfig & Hpre).
  { destruct Hname as [-> | ->]; by eexists. }
  exists config. split; [done|].
  assert (has_eyes a = false) as Heyes by (unfold has_eyes; by rewrite Hdb).
  split.
  - unfold build_command. rewrite Heyes. simpl. by rewrite Hpre.
  - intros Htext.
    rewrite (execute_known a name config st Hconfig), log_and_run_run, Htext, Hdry.
    rewrite subprocess_run. cbn [fst log]. unfold announced.
    rewrite Heyes, Hpre, Hdb. simpl. by rewrite <- !app_assoc.
Qed.

(** ** Arguments that are not read *)

Lemma for_ext {A : Type} (l : list A) (body body' : A → action unit) (st : state) :
  (∀ x st, body x st = body' x st) → for_ l body st = for_ l body' st.
Proof.
  intros Hbody. revert st. induction l as [|x l IH]; intros st; [done|].
  rewrite !for_cons, Hbody. by destruct (body' x st) as [st' [[]|e]].
Qed.

Lemma execute_ext (a a' : args) (name : string) (st : state) :
  database a = database a' → dry_run a = dry_run a' →
  (∀ config, build_command a name config = build_command a' name config) →
  execute a name st = execute a' name st.
Proof.
  intros Hdb Hdry Hcmd.
  destruct (CONFIGURATIONS !! name) as [config|] eqn:Hname.
  - rewrite !(execute_known _ name config st Hname), !log_and_run_run.
    unfold announced, has_eyes. by rewrite Hcmd, Hdb, Hdry.
  - by rewrite !(execute_unknown _ name st Hname).
Qed.

(** X22: the first of the parameters left on the command line is never
    read: [main] does the same whatever it is. (The others are passed to
    the program of each algorithm.) *)
Theorem main_ignores_first_parameter (a : args) (p q : string)
    (rest : list string) (st : state) :
  main (with_parameters (p :: rest) a) st
  = main (with_parameters (q :: rest) a) st.
Proof.
  unfold main. cbn [evaluate with_parameters].
  destruct (evaluate a) as [[|r requested]|]; [|done|];
    apply for_ext; intros name st'; by apply execute_ext.
Qed.

(** X23: for a database that is not one of the four with a ZT norm, the
    option that asks for it is dropped without a word: [main] does the
    same with it and without it. *)
Theorem main_ignores_zt_norm (a : args) (b b' : bool) (st : state) :
  has_zt_norm a = false →
  main (with_zt_norm b a) st = main (with_zt_norm b' a) st.
Proof.
  intros Hzt. unfold main. cbn [evaluate with_zt_norm].
  destruct (evaluate a) as [[|r requested]|]; [|done|];
    apply for_ext; intros name st'; apply execute_ext; try done;
    intros config; unfold build_command, has_zt_norm in *;
    cbn [database zt_norm with_zt_norm] in *; by rewrite Hzt.
Qed.

(** ** The evaluation *)

Lemma directory_missing_run (a : args) (directory : string) (st : state) :
  directory_missing a directory st
  = (st, if negb (exists_ directory (now st)) && negb (dry_run a)
         then Raised (IOError directory) else Done tt).
Proof.
  unfold directory_missing, mbind, action_bind, ask, raise, mret, action_ret.
  by destruct (exists_ directory (now st)), (dry_run a).
Qed.

(** X25: when the results are to be evaluated and the result directory
    given is not there, or the directory of the baselines is not in it,
    [main] raises the IOError that names the missing directory, before it
    logs or runs anything. With [dry_run] it does not raise. *)
Theorem evaluation_missing_directory (a : args) (r d : string)
    (requested : list string) (st : state) :
  evaluate a = Some (r :: requested) → result_directory a = Some d →
  dry_run a = false →
  (exists_ d (now st) = false → main a st = (st, Raised (IOError d))) ∧
  (exists_ d (now st) = true →
   exists_ (os_path_join d [baseline_directory a]) (now st) = false →
   main a st = (st, Raised (IOError (os_path_join d [baseline_directory a])))).
Proof.
  intros Hmode Hdir Hdry. unfold main, evaluation, find_results.
  rewrite Hmode, Hdir. unfold mbind, action_bind, ask, mret, action_ret.
  rewrite directory_missing_run, Hdry. split.
  - by intros ->.
  - intros -> Hsub. cbn [negb andb].
    by rewrite directory_missing_run, Hdry, Hsub.
Qed.

Lemma aligned_nothing (a : args) : aligned a nothing_found.
Proof. by split. Qed.

Lemma aligned_collect_scores (a : args) (result_dir name protocol : string)
    (w : world) (f : found) :
  aligned a f → aligned a (collect_scores a result_dir name protocol w f).
Proof.
  intros [Hl He Hzd Hze Heval Hzt]. unfold collect_scores.
  destruct (exists_ _ w); [|done].
  destruct (has_eval a) eqn:Ee, (has_zt_norm a) eqn:Ez; simpl;
    repeat (destruct (exists_ _ w); simpl);
    split; simpl; rewrite ?length_app; simpl; try lia;
    try (intros ?; congruence); auto.
Qed.

(** The legends grow by the algorithm or not at all. *)
Lemma legends_collect_scores (a : args) (result_dir name protocol : string)
    (w : world) (f : found) :
  legends (collect_scores a result_dir name protocol w f) = legends f ∨
  legends (collect_scores a result_dir name protocol w f) = legends f ++ [name].
Proof. unfold collect_scores. destruct (exists_ _ w); auto. Qed.

Lemma collect_run (a : args) (result_dir name : string) (f f' : found)
    (st st' : state) :
  collect a result_dir name f st = (st', Done f') →
  f' = f ∨ ∃ protocol, f' = collect_scores a result_dir name protocol (now st) f.
Proof.
  unfold collect, skipping, mbind, action_bind, ask, lift_outcome, emit, mret, action_ret.
  destruct (exists_ _ (now st)); cbn [negb]; [|intros [= _ <-]; by left].
  destruct (listdir _ (now st)) as [names|e]; [|done].
  destruct (filter _ names) as [|first others]; [intros [= _ <-]; by left|].
  case_bool_decide.
  - destruct (default_protocol _ (now st)) as [[p|]|e]; [| |done].
    + case_bool_decide; intros [= _ <-]; right; eauto.
    + intros [= _ <-]. right; eauto.
  - intros [= _ <-]. right; eauto.
Qed.

Lemma collect_now (a : args) (result_dir name : string) (f : found) (st : state) :
  now (collect a result_dir name f st).1 = now st.
Proof. apply quiet_collect. Qed.

Lemma for_with_cons {A S : Type} (x : A) (l : list A) (body : A → S → action S)
    (s : S) (st : state) :
  for_with (x :: l) body s st =
  match body x s st with
  | (st', Done s') => for_with l body s' st'
  | (st', Raised e) => (st', Raised e)
  end.
Proof. reflexivity. Qed.

Lemma collect_loop (a : args) (result_dir : string) (names : list string)
    (f f' : found) (st st' : state) :
  for_with names (collect a result_dir) f st = (st', Done f') →
  aligned a f →
  aligned a f' ∧ ∃ l, legends f' = legends f ++ l ∧ sublist l names.
Proof.
  revert f st. induction names as [|name names IH]; intros f st.
  - intros [= _ <-] Hf. split; [done|]. exists []. by rewrite app_nil_r.
  - rewrite for_with_cons.
    destruct (collect a result_dir name f st) as [st1 [f1|e]] eqn:Hstep; [|done].
    intros Hloop Hf.
    assert (aligned a f1 ∧
            (legends f1 = legends f ∨ legends f1 = legends f ++ [name]))
      as [Hf1 Hl1].
    { destruct (collect_run _ _ _ _ _ _ _ Hstep) as [->|[protocol ->]]; [auto|].
      split; [by apply aligned_collect_scores | apply legends_collect_scores]. }
    destruct (IH f1 st1 Hloop Hf1) as (Hf' & l & Hl & Hsub).
    split; [done|]. destruct Hl1 as [Hl1|Hl1]; rewrite Hl1 in Hl.
    + exists l. split; [done|]. by apply sublist_cons.
    + exists (name :: l). split; [by rewrite Hl, <- app_assoc|].
      by apply sublist_skip.
Qed.

Lemma bind_Done_inv {A B : Type} (m : action A) (k : A → action B)
    (st st' : state) (b : B) :
  (m ≫= k) st = (st', Done b) →
  ∃ st1 a, m st = (st1, Done a) ∧ k a st1 = (st', Done b).
Proof.
  unfold mbind, action_bind. destruct (m st) as [st1 [a|e]]; [eauto | done].
Qed.

Lemma find_results_aligned (a : args) (st st' : state)
    (result_dir : string) (f : found) :
  find_results a st = (st', Done (result_dir, f)) →
  aligned a f ∧ sublist (legends f) (algorithms a).
Proof.
  unfold find_results. intros Hfind.
  apply bind_Done_inv in Hfind as (st1 & is_idiap & _ & Hfind).
  apply bind_Done_inv in Hfind as (st2 & directory & _ & Hfind).
  apply bind_Done_inv in Hfind as (st3 & [] & _ & Hfind).
  apply bind_Done_inv in Hfind as (st4 & [] & _ & Hfind).
  apply bind_Done_inv in Hfind as (st5 & f5 & Hloop & Hfind).
  injection Hfind as _ _ <-.
  destruct (collect_loop _ _ _ _ _ _ _ Hloop (aligned_nothing a))
    as (Hf & l & Hlegends & Hsub).
  simpl in Hlegends. by subst l.
Qed.

(** X26: in the score files the evaluation has found, there is one legend
    for each file of the development set, and the legends are algorithms
    that were asked for, in their order; the other three lists are no
    longer than that one, and they are empty when the database has no
    evaluation set or no ZT norm. *)
Theorem found_results_aligned (a : args) (st st' : state)
    (result_dir : string) (f : found) :
  find_results a st = (st', Done (result_dir, f)) →
  length (legends f) = length (result_dev f) ∧
  sublist (legends f) (algorithms a) ∧
  length (result_eval f) ≤ length (result_dev f) ∧
  length (result_zt_dev f) ≤ length (result_dev f) ∧
  length (result_zt_eval f) ≤ length (result_dev f) ∧
  (has_eval a = false → result_eval f = [] ∧ result_zt_eval f = []) ∧
  (has_zt_norm a = false → result_zt_dev f = [] ∧ result_zt_eval f = []).
Proof.
  intros Hfind.
  by destruct (find_results_aligned a st st' result_dir f Hfind)
    as [[Hl He Hzd Hze Heval Hzt] Hsub].
Qed.

(** The calls of the second part. *)
Lemma evaluate_results_calls (a : args) (requested : list string)
    (result_dir : string) (f : found) (st : state) :
  ∃ cs,
    calls (log (evaluate_results a requested result_dir f st).1)
    = calls (log st) ++ cs ∧
    length cs ≤ 2 ∧
    (result_zt_dev f = [] → length cs ≤ 1) ∧
    Forall (λ c, head c = Some (Some "./bin/evaluate.py")) cs.
Proof.
  unfold evaluate_results. destruct (_ && _).
  { exists []. rewrite app_nil_r. split; [apply quiet_warn|].
    split; [simpl; lia|]. split; [simpl; lia | constructor]. }
  destruct (dry_run a) eqn:Hdry.
  { exists []. rewrite app_nil_r. split.
    - apply quiet_bind; [by apply quiet_log_and_run|]. intros _.
      apply quiet_when. intros _. by apply quiet_log_and_run.
    - split; [simpl; lia|]. split; [simpl; lia | constructor]. }
  unfold mbind, action_bind. rewrite log_and_run_run, Hdry.
  destruct (command_line _) as [text|e].
  2:{ exists []. rewrite app_nil_r. split; [done|].
      split; [simpl; lia|]. split; [simpl; lia | constructor]. }
  rewrite subprocess_run. cbn [now log].
  set (first := evaluation_command _ _ (result_dev f) _).
  set (st1 := {| now := _; log := _ |}).
  assert (calls (log st1) = calls (log st) ++ [first]) as Hfirst.
  { unfold st1. cbn [log]. rewrite !calls_app. simpl. by rewrite app_nil_r. }
  destruct ((subprocess_call first (now st)).2) as [code|e].
  2:{ exists [first]. split; [done|]. split; [simpl; lia|].
      split; [simpl; lia|]. by repeat constructor. }
  unfold when. case_bool_decide as Hzt.
  - rewrite log_and_run_run, Hdry.
    destruct (command_line _) as [text'|e].
    2:{ exists [first]. split; [done|]. split; [simpl; lia|].
        split; [done|]. by repeat constructor. }
    rewrite subprocess_run. cbn [fst log].
    eexists [first; _]. split.
    + rewrite !calls_app, Hfirst. simpl. rewrite app_nil_r.
      by rewrite <- app_assoc.
    + split; [simpl; lia|]. split; [done|]. by repeat constructor.
  - exists [first]. split; [done|]. split; [simpl; lia|].
    split; [simpl; lia|]. by repeat constructor.
Qed.

(** X27: an evaluation runs the evaluation script and nothing else: at most
    twice, and at most once for a database without ZT norm. *)
Theorem evaluation_runs_the_script (a : args) (r : string)
    (requested : list string) (st : state) :
  evaluate a = Some (r :: requested) →
  ∃ cs,
    calls (log (main a st).1) = calls (log st) ++ cs ∧
    length cs ≤ 2 ∧
    (has_zt_norm a = false → length cs ≤ 1) ∧
    Forall (λ c, head c = Some (Some "./bin/evaluate.py")) cs.
Proof.
  intros Hmode. unfold main. rewrite Hmode. unfold evaluation, mbind, action_bind.
  destruct (quiet_find_results a st) as [_ Hquiet].
  destruct (find_results a st) as [st1 [[result_dir f]|e]] eqn:Hfind.
  - destruct (evaluate_results_calls a (r :: requested) result_dir f st1)
      as (cs & Hcs & Htwo & Hone & Hscript).
    exists cs. simpl in Hquiet. rewrite Hcs, Hquiet. split; [done|].
    split; [done|]. split; [|done]. intros Hzt. apply Hone.
    by apply (find_results_aligned a st st1 result_dir f Hfind).
  - exists []. rewrite app_nil_r. split; [done|].
    split; [simpl; lia|]. split; [simpl; lia | constructor].
Qed.

(** ** The criterion *)




(** ** The program of an algorithm *)

Lemma configured_script (name s : string) (config : setup) :
  CONFIGURATIONS !! name = Some config → script config = Some s →
  name ∈ ["gmm"; "isv"; "ivector"].
Proof.
  intros Hname Hscript. apply elem_of_list_to_map_2 in Hname.
  repeat (apply elem_of_cons in Hname as [Heq|Hname];
          [injection Heq as -> ->; first [discriminate Hscript
                                         | repeat (first [by left | right])]|]).
  by apply elem_of_nil in Hname.
Qed.

(** X24: the three GMM-based algorithms have programs of their own, which
    are only used on the grid or in parallel: every other command, and
    every command of a plain local run, is one of ./bin/verify.py. *)
Theorem specialised_script_needs_grid (a : args) (name : string) (c : command) :
  command_of a name = Some c →
  head c = Some (Some "./bin/verify.py") ∨
  ((use_grid a = true ∨ parallel a ≠ None) ∧ name ∈ ["gmm"; "isv"; "ivector"]).
Proof.
  unfold command_of.
  destruct (CONFIGURATIONS !! name) as [config|] eqn:Hname; [|done].
  intros [= <-]. unfold build_command. cbn [head app].
  destruct (script config) as [s|] eqn:Hscript; [|by left].
  pose proof (configured_script name s config Hname Hscript) as Hin.
  destruct (use_grid a) eqn:Hgrid; [right; auto|].
  destruct (parallel a) as [n|] eqn:Hpar; [right; split; [by right | done]|].
  by left.
Qed.

End BaselinesRun.

(** ** Instances of the statements on the script *)

Section BaselinesExamples.
Import Baselines.

Lemma all_algorithms_configured_witness :
  is_Some (CONFIGURATIONS !! "lgbphs") ∧
  (∀ other, is_Some (CONFIGURATIONS !! other) → other ∈ all_algorithms true true).
Proof.
  apply (all_algorithms_configured false false "lgbphs").
  unfold all_algorithms. simpl. repeat constructor.
Defined.

Lemma main_dry_run_runs_nothing_witness :
  now (@main (example_system [] [])
         (with_dry_run true (example_arguments ["lda"; "bic"] "atnt"))
         (@start (example_system [] []) [])).1 = [] ∧
  calls (log (@main (example_system [] [])
                (with_dry_run true (example_arguments ["lda"; "bic"] "atnt"))
                (@start (example_system [] []) [])).1) = [].
Proof.
  apply (@main_dry_run_runs_nothing (example_system [] [])
           (with_dry_run true (example_arguments ["lda"; "bic"] "atnt"))
           (@start (example_system [] []) [])).
  reflexivity.
Defined.

Lemma main_runs_commands_in_order_witness :
  ∃ k cs,
    calls (log (@main (example_system [] [])
                  (example_arguments ["lda"; "nothing"; "bic"] "atnt")
                  (@start (example_system [] []) [])).1) = [] ++ cs ∧
    Forall2 (λ name c,
               command_of (example_arguments ["lda"; "nothing"; "bic"] "atnt")
                          name = Some c)
            (take k ["lda"; "nothing"; "bic"]) cs.
Proof.
  apply (@main_runs_commands_in_order (example_system [] [])
           (example_arguments ["lda"; "nothing"; "bic"] "atnt")
           (@start (example_system [] []) [])).
  left. reflexivity.
Defined.

Lemma main_runs_every_algorithm_witness :
  ∃ st' cs,
    @main (example_system [] []) (example_arguments ["lda"; "gmm"] "banca")
          (@start (example_system [] []) [])
    = (st', Done tt) ∧
    calls (log st') = [] ++ cs ∧
    Forall2 (λ name c,
               command_of (example_arguments ["lda"; "gmm"] "banca") name
               = Some c)
            ["lda"; "gmm"] cs.
Proof.
  apply (@main_runs_every_algorithm (example_system [] [])) with (gmm_loads := true)
    (csu_loads := false).
  - intros cmd. eexists. reflexivity.
  - intros cmd w. eexists. reflexivity.
  - reflexivity.
  - reflexivity.
  - unfold all_algorithms. simpl. repeat constructor.
Defined.


Lemma missing_preprocessor_is_run_witness :
  ∃ config,
    CONFIGURATIONS !! "lrpca" = Some config ∧
    build_command (example_arguments ["lrpca"] "atnt") "lrpca" config !! 4
    = Some None ∧
    (@command_line (example_system [] [])
       (build_command (example_arguments ["lrpca"] "atnt") "lrpca" config)
     = Done "./bin/verify.py" →
     calls (log (@execute (example_system [] [])
                   (example_arguments ["lrpca"] "atnt") "lrpca"
                   (@start (example_system [] []) [])).1)
     = [build_command (example_arguments ["lrpca"] "atnt") "lrpca" config]).
Proof.
  destruct (@missing_preprocessor_is_run (example_system [] [])
              (example_arguments ["lrpca"] "atnt") "lrpca" "./bin/verify.py"
              (@start (example_system [] []) []))
    as (config & Hconfig & Hnone & Hlog);
    [reflexivity | left; reflexivity | reflexivity |].
  exists config. split; [exact Hconfig|]. split; [exact Hnone|].
  intros Htext. rewrite (Hlog Htext). reflexivity.
Defined.

Lemma main_ignores_zt_norm_witness :
  @main (example_system [] [])
        (with_zt_norm true (example_arguments ["lda"] "atnt"))
        (@start (example_system [] []) [])
  = @main (example_system [] [])
          (with_zt_norm false (example_arguments ["lda"] "atnt"))
          (@start (example_system [] []) []).
Proof.
  apply (@main_ignores_zt_norm (example_system [] [])
           (example_arguments ["lda"] "atnt")).
  reflexivity.
Defined.

Lemma evaluation_missing_directory_witness :
  @main (example_system [] [])
        (with_evaluate (Some ["EER"])
           (with_result_directory (Some "results")
              (example_arguments ["lda"] "atnt")))
        (@start (example_system [] []) [])
  = (@start (example_system [] []) [], Raised (IOError "results"))
  ∧
  @main (example_system ["results"] [])
        (with_evaluate (Some ["EER"])
           (with_result_directory (Some "results")
              (example_arguments ["lda"] "atnt")))
        (@start (example_system ["results"] []) [])
  = (@start (example_system ["results"] []) [],
     Raised (IOError "results/baselines")).
Proof.
  split.
  - destruct (@evaluation_missing_directory (example_system [] [])
                (with_evaluate (Some ["EER"])
                   (with_result_directory (Some "results")
                      (example_arguments ["lda"] "atnt")))
                "EER" "results" [] (@start (example_system [] []) []))
      as [Hfirst _]; [reflexivity | reflexivity | reflexivity |].
    apply Hfirst. reflexivity.
  - destruct (@evaluation_missing_directory (example_system ["results"] [])
                (with_evaluate (Some ["EER"])
                   (with_result_directory (Some "results")
                      (example_arguments ["lda"] "atnt")))
                "EER" "results" [] (@start (example_system ["results"] []) []))
      as [_ Hsecond]; [reflexivity | reflexivity | reflexivity |].
    apply Hsecond; reflexivity.
Defined.

Lemma found_results_aligned_witness :
  length (legends example_found) = length (result_dev example_found) ∧
  sublist (legends example_found) ["bic"; "lda"].
Proof.
  destruct (@found_results_aligned (example_system example_results ["Default"])
              (with_evaluate (Some ["EER"]) (example_arguments ["bic"; "lda"] "atnt"))
              (@start (example_system example_results ["Default"]) [])
              (@find_results (example_system example_results ["Default"])
                 (with_evaluate (Some ["EER"])
                    (example_arguments ["bic"; "lda"] "atnt"))
                 (@start (example_system example_results ["Default"]) [])).1
              "results/baselines" example_found)
    as (Hlegends & Hsub & _); [reflexivity|].
  split; [exact Hlegends | exact Hsub].
Defined.

Lemma evaluation_runs_the_script_witness :
  ∃ cs,
    calls (log (@main (example_system example_results ["Default"])
                  (with_evaluate (Some ["EER"])
                     (example_arguments ["bic"; "lda"] "atnt"))
                  (@start (example_system example_results ["Default"]) [])).1)
    = [] ++ cs ∧
    length cs ≤ 2 ∧
    Forall (λ c, head c = Some (Some "./bin/evaluate.py")) cs.
Proof.
  destruct (@evaluation_runs_the_script
              (example_system example_results ["Default"])
              (with_evaluate (Some ["EER"])
                 (example_arguments ["bic"; "lda"] "atnt"))
              "EER" [] (@start (example_system example_results ["Default"]) []))
    as (cs & Hcs & Htwo & _ & Hscript); [reflexivity|].
  exists cs. split; [exact Hcs|]. split; [exact Htwo | exact Hscript].
Defined.


Lemma specialised_script_needs_grid_witness :
  head (build_command (example_arguments ["gmm"] "banca") "gmm"
          {| preprocessor := (Some "tan-triggs-crop", Some "tan-triggs");
             extractor := "dct-blocks"; algorithm := "gmm";
             grid := Some "demanding"; script := Some "./bin/verify_gmm.py" |})
  = Some (Some "./bin/verify.py")
  ∨ ((use_grid (example_arguments ["gmm"] "banca") = true
      ∨ parallel (example_arguments ["gmm"] "banca") ≠ None)
     ∧ "gmm" ∈ ["gmm"; "isv"; "ivector"]).
Proof.
  apply (specialised_script_needs_grid (example_arguments ["gmm"] "banca") "gmm").
  reflexivity.
Defined.

(** The run of two algorithms on the database without eye annotations. *)
Example main_example :
  (@main (example_system [] []) (example_arguments ["lda"; "lgbphs"] "atnt")
     (@start (example_system [] []) [])).1.(now)
  = [ [ Some "./bin/verify.py"; Some "--database"; Some "atnt";
        Some "--preprocessor"; Some "base";
        Some "--extractor"; Some "eigenface"; Some "--algorithm"; Some "lda";
        Some "--sub-directory"; Some "baselines/lda" ];
      [ Some "./bin/verify.py"; Some "--database"; Some "atnt";
        Some "--preprocessor"; Some "tan-triggs";
        Some "--extractor"; Some "lgbphs";
        Some "--algorithm"; Some "histogram";
        Some "--sub-directory"; Some "baselines/lgbphs" ] ].
Proof. reflexivity. Qed.

(** The evaluation of the results found for one algorithm. *)
Example evaluation_example :
  calls (log (@main (example_system example_results ["Default"])
                (with_evaluate (Some ["HTER"; "ROC"])
                   (example_arguments ["bic"; "lda"] "atnt"))
                (@start (example_system example_results ["Default"]) [])).1)
  = [ Some <$> [ "./bin/evaluate.py"; "--directory"; "results/baselines";
                 "--legends"; "lda"; "--criterion"; "HTER";
                 "--roc"; "ROC.pdf";
                 "--dev-files"; "lda/Default/nonorm/scores-dev" ] ].
Proof. reflexivity. Qed.

End BaselinesExamples.

(** ** Sizes with fewer than two components *)

(** X14: A size or an overlap given as a sequence of fewer than two numbers is
    never accepted. The first components are read and compared first, so
    when both are there and the overlap is the larger one the value error
    is raised and the missing component is not looked at; otherwise the
    index error of the missing component is. *)
Theorem init_short_sizes (a : init_args) :
  length (as_pair (arg_block_size a)) < 2
  ∨ length (as_pair (arg_block_overlap a)) < 2 →
  __init__ a =
    Raise (match as_pair (arg_block_size a), as_pair (arg_block_overlap a) with
           | h :: _, oh :: _ => if (h <? oh)%Z then ValueError else IndexError
           | _, _ => IndexError
           end).
Proof.
  unfold __init__.
  destruct (as_pair (arg_block_size a)) as [|h [|w r1]],
           (as_pair (arg_block_overlap a)) as [|oh [|ow r2]];
    simpl; intros Hshort; try done; try (by destruct (h <? oh)%Z); lia.
Qed.

Lemma init_short_sizes_witness :
  __init__ (with_block_overlap (SeqArg [5]%Z) (default_args (SeqArg [4]%Z)))
    = Raise ValueError
  ∧ __init__ (with_block_overlap (SeqArg [3]%Z) (default_args (SeqArg [4; 4]%Z)))
    = Raise IndexError.
Proof.
  split.
  - apply (init_short_sizes
             (with_block_overlap (SeqArg [5]%Z) (default_args (SeqArg [4]%Z)))).
    left. simpl. lia.
  - apply (init_short_sizes
             (with_block_overlap (SeqArg [3]%Z) (default_args (SeqArg [4; 4]%Z)))).
    right. simpl. lia.
Defined.

(** ** A split that is no layout *)

(** X6: [_fill] has no branch for a split it does not know: it returns the
    array as it is and reads neither the counts nor the histograms. *)
Theorem fill_unknown_split (self : LGBPHS) (a : ndarray)
    (blocks : array2 float64) (j : nat) :
  (∀ l, split self ≠ split_of l) → _fill self a blocks j = Ok a.
Proof.
  intros Hsplit. unfold _fill.
  destruct (split self) as [mode|] eqn:Hmode; [|by destruct (Hsplit Flat)].
  destruct (String.eqb mode "blocks") eqn:H1.
  { apply String.eqb_eq in H1 as ->. by destruct (Hsplit ByBlocks). }
  destruct (String.eqb mode "wavelets") eqn:H2.
  { apply String.eqb_eq in H2 as ->. by destruct (Hsplit ByWavelets). }
  destruct (String.eqb mode "both") eqn:H3.
  { apply String.eqb_eq in H3 as ->. by destruct (Hsplit ByBoth). }
  done.
Qed.

Lemma fill_unknown_split_witness :
  _fill (example_instance (Some "rows") false false)
        (Array1 [1; 2; 3]%float) example_blocks 5
  = Ok (Array1 [1; 2; 3]%float).
Proof.
  apply (fill_unknown_split (example_instance (Some "rows") false false)).
  intros l. destruct l; discriminate.
Defined.

(** X15: The empty string as split passes the constructor, with or without
    [sparse], and is no layout: every call of the instance on an image
    raises the value error. *)
Theorem empty_split_accepted_then_rejected `{Backend} (a : init_args)
    (image : ndimage) (h w oh ow : Z) (r1 r2 : list Z) :
  as_pair (arg_block_size a) = h :: w :: r1 →
  as_pair (arg_block_overlap a) = oh :: ow :: r2 →
  (oh ≤ h)%Z → (ow ≤ w)%Z →
  split_histogram a = Some "" →
  valid_image image →
  1 ≤ gabor_scales (gabor a) * gabor_directions (gabor a) →
  ∃ self st, __init__ a = Ok self ∧ sparse self = sparse_histogram a ∧
             __call__ image self = (st, Raise ValueError).
Proof.
  intros Hs Ho Hh Hw Hsplit Hvalid Hwav.
  rewrite (init_pairs a h w oh ow r1 r2 Hs Ho), Hsplit.
  assert ((h <? oh)%Z || (w <? ow)%Z = false) as ->.
  { apply orb_false_iff. split; apply Z.ltb_ge; lia. }
  rewrite andb_false_r. simpl.
  eexists _, _. split; [done|]. split; [done|].
  apply call_unknown_split; try done.
  simpl. intros l. destruct l; discriminate.
Qed.

Lemma empty_split_accepted_then_rejected_witness :
  ∃ self st,
    __init__ (example_args (Some "") true false) = Ok self ∧
    sparse self = true ∧
    @__call__ tiles_backend example_image self = (st, Raise ValueError).
Proof.
  apply (@empty_split_accepted_then_rejected tiles_backend
           (example_args (Some "") true false) example_image 2 2 0 0 [] []).
  - reflexivity.
  - reflexivity.
  - lia.
  - lia.
  - reflexivity.
  - split; reflexivity.
  - simpl. lia.
Defined.

(** ** Instances of the statements on the instances *)

Lemma init_establishes_witness :
  cache_ok (example_instance None true true) ∧
  options_ok (example_instance None true true) ∧
  trafo_image (example_instance None true true) = None ∧
  n_bins (example_instance None true true) = None ∧
  n_blocks (example_instance None true true) = None.
Proof.
  apply (init_establishes (example_args None true true)
           (example_instance None true true)).
  reflexivity.
Defined.

Lemma call_preserves_witness :
  cache_ok (@__call__ tiles_backend example_image
              (example_instance (Some "rows") false true)).1 ∧
  gwt (@__call__ tiles_backend example_image
         (example_instance (Some "rows") false true)).1
  = gwt (example_instance (Some "rows") false true).
Proof.
  destruct (@call_preserves tiles_backend
              (example_instance (Some "rows") false true)
              (@__call__ tiles_backend example_image
                 (example_instance (Some "rows") false true)).1
              example_image
              (@__call__ tiles_backend example_image
                 (example_instance (Some "rows") false true)).2)
    as (Hcache & Hgwt & _).
  - intros t Ht. discriminate Ht.
  - reflexivity.
  - split; [exact Hcache | exact Hgwt].
Defined.

(** ** Examples *)

Example sparsify_example :
  _sparsify (example_instance None true false)
            (Some (Array1 [0; 5; -0; 7; 0]%float))
  = Ok (Some (Array2 2 2 [1; 3; 5; 7]%float)).
Proof. reflexivity. Qed.

Example sparsify_zeros_example :
  _sparsify (example_instance None true false)
            (Some (Array1 [0; -0; 0]%float))
  = Ok (Some (Array2 2 0 [])).
Proof. reflexivity. Qed.

Example call_example :
  (@__call__ tiles_backend example_image
     (example_instance (Some "wavelets") false false)).2
  = Ok (Some (Array2 2 12
      [1; 2; 3; 11; 12; 13; 21; 22; 23; 31; 32; 33;
       101; 102; 103; 111; 112; 113; 121; 122; 123; 131; 132; 133]%float)).
Proof. reflexivity. Qed.

Lemma sparsify_dense_witness :
  ∃ (indices : list nat) (out : ndarray),
    _sparsify (example_instance None true false)
              (Some (Array1 [0; 5; -0; 7; 0]%float)) = Ok (Some out) ∧
    shape out = [2; length indices] ∧
    (∀ a i, indices !! a = Some i →
       get2 out 0 a = Some (float_of_index i) ∧
       get2 out 1 a = [0; 5; -0; 7; 0]%float !! i).
Proof.
  destruct (sparsify_dense (example_instance None true false)
              [0; 5; -0; 7; 0]%float)
    as (indices & out & Hout & Hshape & _ & _ & Hrows & _); [reflexivity|].
  exists indices, out. split; [exact Hout|]. split; [exact Hshape | exact Hrows].
Defined.

Lemma fill_positions_witness :
  ∃ a',
    _fill (set_n_blocks 2 (set_n_bins 3 (example_instance (Some "blocks") false true)))
          (@numpy_ndarray tiles_backend (Shape2 2 (3 * 4))) example_blocks 3
    = Ok a' ∧
    get a' [1; 3 * 3 + 2] = Some (a2_at example_blocks 1 2).
Proof.
  destruct (fill_positions
              (set_n_blocks 2 (set_n_bins 3 (example_instance (Some "blocks") false true)))
              example_blocks ByBlocks 2 3 4 3
              (@numpy_ndarray tiles_backend (Shape2 2 (3 * 4))))
    as (a' & Hfill & _ & Hin & _);
    [reflexivity | reflexivity | reflexivity | reflexivity | reflexivity
    | lia | reflexivity | reflexivity |].
  exists a'. split; [exact Hfill|]. apply (Hin 1 2); lia.
Defined.
